(** * marshal.c: marshalling routines of the Subversion wire protocol

    A shallow embedding of [marshal.c] (the ra_svn framing codec and the
    command dispatcher) together with the properties its specification
    states about it.

    Conventions of the embedding:
    - a [char] is a [Z] (its code); C strings and byte buffers are
      [list byte];
    - [apr_uint64_t] arithmetic is written with its wrap-around
      ([to_uint64]);
    - the socket is an explicit state: the bytes the peer has sent, the
      bytes delivered to the peer, and a script deciding how each
      [read(2)] and [write(2)] call behaves (failure, or a short transfer);
    - every function that touches the connection is a state transformer
      [svn_ra_svn_conn_t -> result A * svn_ra_svn_conn_t];
    - loops whose termination depends on the input take a fuel argument. *)

From Stdlib Require Import ZArith List Bool Lia String Ascii.
Import ListNotations.
Open Scope Z_scope.

(** ** Bytes and C strings *)

Definition byte := Z.

Definition bytes_of (s : string) : list byte :=
  map (fun a => Z.of_N (N_of_ascii a)) (list_ascii_of_string s).

Definition len {A} (l : list A) : Z := Z.of_nat (List.length l).
Definition take {A} (n : Z) (l : list A) : list A := firstn (Z.to_nat n) l.
Definition drop {A} (n : Z) (l : list A) : list A := skipn (Z.to_nat n) l.

(** [seg l off n]: the [n] bytes of [l] that start at offset [off]. *)
Definition seg {A} (l : list A) (off n : Z) : list A := take n (drop off l).

(** [blit dst off src]: [memcpy (dst + off, src, len src)]. *)
Definition blit {A} (dst : list A) (off : Z) (src : list A) : list A :=
  take off dst ++ src ++ drop (off + len src) dst.

(** The contents of a [const char *]: the bytes before the first NUL. *)
Fixpoint c_str (s : list byte) : list byte :=
  match s with
  | [] => []
  | b :: s' => if b =? 0 then [] else b :: c_str s'
  end.

Definition strlen (s : list byte) : Z := len (c_str s).

Fixpoint bytes_eqb (a b : list byte) : bool :=
  match a, b with
  | [], [] => true
  | x :: a', y :: b' => (x =? y) && bytes_eqb a' b'
  | _, _ => false
  end.

(** [strcmp (a, b) == 0] *)
Definition strcmp0 (a b : list byte) : bool := bytes_eqb (c_str a) (c_str b).

Definition ch (s : string) : byte :=
  match bytes_of s with b :: _ => b | [] => 0 end.

Definition apr_isdigit (c : byte) : bool := (48 <=? c) && (c <=? 57).
Definition apr_isalpha (c : byte) : bool :=
  ((65 <=? c) && (c <=? 90)) || ((97 <=? c) && (c <=? 122)).
Definition apr_isalnum (c : byte) : bool := apr_isalpha c || apr_isdigit c.

(** [#define svn_iswhitespace(c) ((c) == ' ' || (c) == '\n')] *)
Definition svn_iswhitespace (c : byte) : bool := (c =? 32) || (c =? 10).

(** ** Machine integers *)

Definition to_uint64 (z : Z) : Z := z mod 2 ^ 64.
Definition to_int64 (z : Z) : Z := (z + 2 ^ 63) mod 2 ^ 64 - 2 ^ 63.
Definition to_int32 (z : Z) : Z := (z + 2 ^ 31) mod 2 ^ 32 - 2 ^ 31.

(** ** Errors *)

#[local] Set Warnings "-register-all".

Inductive svn_error_t : Type :=
  mk_error {
    apr_err : Z;
    src_err : Z;
    message : option (list byte);
    child : option svn_error_t;
    file : option (list byte);
    line : Z
  }.

(** Error codes of the ra_svn category (svn_error_codes.h); only their
    being distinct matters here. *)
Definition SVN_ERR_RA_SVN_CMD_ERR : Z := 210000.
Definition SVN_ERR_RA_SVN_UNKNOWN_CMD : Z := 210001.
Definition SVN_ERR_RA_SVN_CONNECTION_CLOSED : Z := 210002.
Definition SVN_ERR_RA_SVN_IO_ERROR : Z := 210003.
Definition SVN_ERR_RA_SVN_MALFORMED_DATA : Z := 210004.

(** What is declared outside marshal.c and taken as given: the sizes of
    the two buffers of [svn_ra_svn_conn_t] (ra_svn.h), the source
    location svn_error.c stamps on a fresh error, and
    [SVN_IS_VALID_REVNUM] (svn_types.h). *)
Record env : Type := {
  sizeof_read_buf : Z;
  sizeof_write_buf : Z;
  error_file : option (list byte);
  error_line : Z;
  SVN_IS_VALID_REVNUM : Z -> bool
}.

(** ** Outcomes *)

Inductive crash : Type := AssertionFailed | Aborted | Undefined.

Inductive result (A : Type) : Type :=
| Ok (a : A)
| Err (e : svn_error_t)
| Crash (k : crash)
| OutOfFuel.
Arguments Ok {A} a.
Arguments Err {A} e.
Arguments Crash {A} k.
Arguments OutOfFuel {A}.

(** ** The socket *)

Inductive io_outcome : Type :=
| IoFail (errno : Z)     (* the call returns -1 and sets errno *)
| IoXfer (k : Z).        (* the call transfers at most [k] bytes *)

Record socket : Type := {
  inbox : list byte;              (* sent by the peer, not yet read *)
  rd_script : list io_outcome;    (* behaviour of the next reads *)
  outbox : list byte;             (* delivered to the peer *)
  wr_script : list io_outcome;    (* behaviour of the next writes *)
  errno : Z
}.

(** A blocking transfer of [n > 0] requested bytes with [avail] bytes
    available moves at least one byte, unless nothing is available. *)
Definition xfer_len (k n avail : Z) : Z :=
  Z.max 0 (Z.min (Z.max 1 k) (Z.min n avail)).

(** [SOCK_READ (sock, buf, n)]: the result and the bytes stored in [buf]. *)
Definition SOCK_READ (s : socket) (n : Z) : Z * list byte * socket :=
  let deliver m rs :=
    (m, take m (inbox s),
     {| inbox := drop m (inbox s); rd_script := rs; outbox := outbox s;
        wr_script := wr_script s; errno := errno s |}) in
  match rd_script s with
  | IoFail e :: rs =>
      (-1, [], {| inbox := inbox s; rd_script := rs; outbox := outbox s;
                  wr_script := wr_script s; errno := e |})
  | IoXfer k :: rs => deliver (xfer_len k n (len (inbox s))) rs
  | [] => deliver (xfer_len n n (len (inbox s))) []
  end.

(** [SOCK_WRITE (sock, data, len data)] *)
Definition SOCK_WRITE (s : socket) (data : list byte) : Z * socket :=
  let accept m ws :=
    (m, {| inbox := inbox s; rd_script := rd_script s;
           outbox := outbox s ++ take m data; wr_script := ws;
           errno := errno s |}) in
  match wr_script s with
  | IoFail e :: ws =>
      (-1, {| inbox := inbox s; rd_script := rd_script s; outbox := outbox s;
              wr_script := ws; errno := e |})
  | IoXfer k :: ws => accept (xfer_len k (len data) (len data)) ws
  | [] => accept (len data) []
  end.

(** ** The connection *)

Record svn_ra_svn_conn_t : Type := {
  sock : socket;
  read_buf : list byte;
  read_ptr : Z;          (* offset into read_buf *)
  read_end : Z;          (* offset into read_buf *)
  write_buf : list byte;
  write_pos : Z
}.

Definition set_sock (c : svn_ra_svn_conn_t) (s : socket) :=
  {| sock := s; read_buf := read_buf c; read_ptr := read_ptr c;
     read_end := read_end c; write_buf := write_buf c;
     write_pos := write_pos c |}.

Definition set_read (c : svn_ra_svn_conn_t) (buf : list byte) (p e : Z) :=
  {| sock := sock c; read_buf := buf; read_ptr := p; read_end := e;
     write_buf := write_buf c; write_pos := write_pos c |}.

Definition set_write (c : svn_ra_svn_conn_t) (buf : list byte) (p : Z) :=
  {| sock := sock c; read_buf := read_buf c; read_ptr := read_ptr c;
     read_end := read_end c; write_buf := buf; write_pos := p |}.

(** The monad of marshal.c: a connection threaded through fallible code. *)
Definition M (A : Type) : Type :=
  svn_ra_svn_conn_t -> result A * svn_ra_svn_conn_t.

Definition ret {A} (a : A) : M A := fun c => (Ok a, c).
Definition fail {A} (e : svn_error_t) : M A := fun c => (Err e, c).
Definition crashed {A} (k : crash) : M A := fun c => (Crash k, c).

(** [SVN_ERR (m); k]: anything but success leaves the function. *)
Definition bind {A B} (m : M A) (k : A -> M B) : M B :=
  fun c =>
    match m c with
    | (Ok a, c') => k a c'
    | (Err e, c') => (Err e, c')
    | (Crash x, c') => (Crash x, c')
    | (OutOfFuel, c') => (OutOfFuel, c')
    end.

(** [m; k] for a call [m] that always returns and whose value is not
    looked at: [writebuf_flush], which has no assertion (see
    [never_crashes_flush_loop] and [writebuf_flush_total]). *)
Definition ignore {A B} (m : M A) (k : M B) : M B :=
  fun c => k (snd (m c)).

(** [m; k] for a call [m] whose value is not looked at and which may not
    return: the error [m] returns is dropped, and [k] runs unless [m] has
    ended the program. *)
Definition ignore_error {A B} (m : M A) (k : M B) : M B :=
  fun c =>
    match m c with
    | (Ok _, c') | (Err _, c') => k c'
    | (Crash x, c') => (Crash x, c')
    | (OutOfFuel, c') => (OutOfFuel, c')
    end.

Notation "x <- m ;; k" := (bind m (fun x => k))
  (at level 61, m at next level, right associativity).
Notation "m ;;; k" := (bind m (fun _ => k))
  (at level 61, right associativity).

(** ** Items *)

Inductive svn_ra_svn_item_t : Type :=
| NUMBER (number : Z)
| STRING (str : list byte)
| WORD (word : list byte)
| LIST (elts : list svn_ra_svn_item_t).

(** One entry of a command table; the handler's baton is part of the
    handler. *)
Record svn_ra_svn_cmd_entry_t : Type := {
  cmdname : option (list byte);
  handler : list svn_ra_svn_item_t -> M unit;
  terminate : bool
}.

(** ** Concrete data for the examples *)

(** A connection with four-byte buffers, so that short inputs already
    cross the buffer boundaries, and one with the usual 4096. *)
Definition small_env : env :=
  {| sizeof_read_buf := 4; sizeof_write_buf := 4; error_file := None;
     error_line := 0; SVN_IS_VALID_REVNUM := fun rev => 0 <=? rev |}.

Definition usual_env : env :=
  {| sizeof_read_buf := 4096; sizeof_write_buf := 4096; error_file := None;
     error_line := 0; SVN_IS_VALID_REVNUM := fun rev => 0 <=? rev |}.

(** A socket on which the peer has sent [input], with scripted reads and
    writes. *)
Definition socket_with (input : list byte) (rs ws : list io_outcome)
    : socket :=
  {| inbox := input; rd_script := rs; outbox := []; wr_script := ws;
     errno := 0 |}.

(** The failure chain of the specification's third scenario: "No such
    revision", caused by "path not found". *)
Definition path_not_found : svn_error_t :=
  {| apr_err := 125002; src_err := 0;
     message := Some (bytes_of "path not found"); child := None;
     file := Some (bytes_of "tree.c"); line := 17 |}.

Definition no_such_revision : svn_error_t :=
  {| apr_err := 210004; src_err := 0;
     message := Some (bytes_of "No such revision");
     child := Some path_not_found;
     file := Some (bytes_of "fs.c"); line := 42 |}.

(** [path_not_found] inside the wrapper that tells the command loop to
    report it to the peer. *)
Definition reported_error : svn_error_t :=
  {| apr_err := SVN_ERR_RA_SVN_CMD_ERR; src_err := 0; message := None;
     child := Some path_not_found; file := None; line := 0 |}.

(** The wrapper with no cause, and a wrapper whose cause is itself a
    wrapper, which has no message and no file name. *)
Definition bare_wrapper : svn_error_t :=
  {| apr_err := SVN_ERR_RA_SVN_CMD_ERR; src_err := 0; message := None;
     child := None; file := None; line := 0 |}.

Definition wrapped_twice : svn_error_t :=
  {| apr_err := SVN_ERR_RA_SVN_CMD_ERR; src_err := 0; message := None;
     child := Some reported_error; file := None; line := 0 |}.

(** A connection that has the byte "a" waiting in its write buffer, on
    a socket whose next write fails with [EPIPE] and whose peer has sent
    [input]. *)
Definition broken_pipe_conn (input : list byte) : svn_ra_svn_conn_t :=
  {| sock := socket_with input [] [IoFail 32];
     read_buf := [0; 0; 0; 0]; read_ptr := 0; read_end := 0;
     write_buf := [97; 0; 0; 0]; write_pos := 1 |}.

(** A command table with one command, [go], whose handler fails with
    [err]. *)
Definition failing_table (err : svn_error_t)
    : list svn_ra_svn_cmd_entry_t :=
  [{| cmdname := Some (bytes_of "go"); handler := fun _ => fail err;
      terminate := false |};
   {| cmdname := None; handler := fun _ => ret tt; terminate := false |}].

(** An environment in which a fresh error is stamped with the name of
    the file that creates it. *)
Definition located_env : env :=
  {| sizeof_read_buf := 4; sizeof_write_buf := 4;
     error_file := Some (bytes_of "marshal.c"); error_line := 0;
     SVN_IS_VALID_REVNUM := fun rev => 0 <=? rev |}.

(** A command table with two commands whose handlers succeed: [go], and
    [quit], which ends the loop. *)
Definition quit_table : list svn_ra_svn_cmd_entry_t :=
  [{| cmdname := Some (bytes_of "go"); handler := fun _ => ret tt;
      terminate := false |};
   {| cmdname := Some (bytes_of "quit"); handler := fun _ => ret tt;
      terminate := true |};
   {| cmdname := None; handler := fun _ => ret tt; terminate := false |}].

(** ** Tactics *)

(** Reduces the projections of a connection that has just been built. *)
Ltac fields :=
  cbn [sock read_buf read_ptr read_end write_buf write_pos
       set_sock set_read set_write fst snd] in *.

(** Normalizes the length of a list built with [::] and [++]. *)
Ltac list_len H :=
  unfold len in H;
  repeat (progress (cbn [List.length app] in H) || rewrite length_app in H).

(** Normalizes a list built with [::] and [++]. *)
Ltac app_norm H :=
  repeat first [rewrite <- app_assoc in H | progress (cbn [app] in H)].

(** Decides the comparisons between known characters. *)
Ltac eval_tests :=
  repeat match goal with
         | |- context [Z.eqb ?a ?b] =>
             let v := eval vm_compute in (Z.eqb a b) in
             match v with
             | true => change (Z.eqb a b) with true
             | false => change (Z.eqb a b) with false
             end
         | H : context [Z.eqb ?a ?b] |- _ =>
             let v := eval vm_compute in (Z.eqb a b) in
             match v with
             | true => change (Z.eqb a b) with true in H
             | false => change (Z.eqb a b) with false in H
             end
         end;
  cbn [orb andb negb] in *.

(** Splits the facts about a concrete connection and computes each. *)
Ltac conn_facts :=
  repeat match goal with
         | |- _ /\ _ => split
         | |- Forall _ _ => constructor
         | |- True => exact I
         | |- _ => progress hnf
         end;
  try (vm_compute; first [reflexivity | intro; discriminate]).

Section Marshal.

Variable E : env.

(** [svn_error_create (apr_err, src_err, child, message)] *)
Definition svn_error_create (code src : Z) (chld : option svn_error_t)
    (msg : list byte) : svn_error_t :=
  {| apr_err := code; src_err := src; message := Some (c_str msg);
     child := chld; file := error_file E; line := error_line E |}.

(** *** Connection initialization *)

(** The buffers come from [apr_palloc]; their initial contents are never
    read, and are zero here. *)
Definition svn_ra_svn_create_conn (s : socket) : svn_ra_svn_conn_t :=
  {| sock := s;
     read_buf := repeat 0 (Z.to_nat (sizeof_read_buf E));
     read_ptr := 0; read_end := 0;
     write_buf := repeat 0 (Z.to_nat (sizeof_write_buf E));
     write_pos := 0 |}.

(** *** Write buffer management *)

(** Returns what is left of [data] (the C function returns the advanced
    pointer). *)
Definition writebuf_push (c : svn_ra_svn_conn_t) (data : list byte)
    : list byte * svn_ra_svn_conn_t :=
  let buflen := sizeof_write_buf E - write_pos c in
  let copylen := if buflen <? len data then buflen else len data in
  (drop copylen data,
   set_write c (blit (write_buf c) (write_pos c) (take copylen data))
             (write_pos c + copylen)).

(** The [while (count < conn->write_pos)] loop of [writebuf_flush]. *)
Fixpoint writebuf_flush_loop (fuel : nat) (count : Z) : M unit :=
  fun c =>
    if count <? write_pos c then
      match fuel with
      | O => (OutOfFuel, c)
      | S fuel' =>
          let '(res, s') :=
            SOCK_WRITE (sock c)
                       (seg (write_buf c) count (write_pos c - count)) in
          let c' := set_sock c s' in
          if res <? 0 then
            (Err (svn_error_create SVN_ERR_RA_SVN_IO_ERROR (errno s') None
                                   (bytes_of "Write failure")), c')
          else writebuf_flush_loop fuel' (count + res) c'
      end
    else (Ok tt, set_write c (write_buf c) 0).

(** Every successful write moves at least one byte, so [write_pos]
    iterations are enough (see [writebuf_flush_total]). *)
Definition writebuf_flush : M unit :=
  fun c => writebuf_flush_loop (Z.to_nat (write_pos c)) 0 c.

(** The [while (end - data > sizeof (conn->write_buf))] loop of
    [writebuf_write]; it returns what is left to write.  The text of the
    error is the one the source has.  As many iterations as there are
    bytes are enough (see [writebuf_write_direct_total]). *)
Fixpoint writebuf_write_direct (fuel : nat) (data : list byte)
    : M (list byte) :=
  fun c =>
    if sizeof_write_buf E <? len data then
      match fuel with
      | O => (OutOfFuel, c)
      | S fuel' =>
          let '(res, s') := SOCK_WRITE (sock c) data in
          let c' := set_sock c s' in
          if res <? 0 then
            (Err (svn_error_create SVN_ERR_RA_SVN_IO_ERROR (errno s') None
                                   (bytes_of "Read failure")), c')
          else writebuf_write_direct fuel' (drop res data) c'
      end
    else (Ok data, c).

Definition writebuf_write (data : list byte) : M unit :=
  data1 <- (fun c =>
              if (0 <? write_pos c)
                 && (sizeof_write_buf E <? write_pos c + len data)
              then
                (* Fill and then empty the write buffer. *)
                let '(rest, c1) := writebuf_push c data in
                (_ <- writebuf_flush ;; ret rest) c1
              else (Ok data, c)) ;;
  (* Save on copying by writing directly to the socket. *)
  data2 <- writebuf_write_direct (List.length data1) data1 ;;
  fun c => (Ok tt, snd (writebuf_push c data2)).

(** *** Read buffer management *)

(** Returns the bytes copied out of the read buffer, at most [n]. *)
Definition readbuf_drain (c : svn_ra_svn_conn_t) (n : Z)
    : list byte * svn_ra_svn_conn_t :=
  let buflen := read_end c - read_ptr c in
  let copylen := if buflen <? n then buflen else n in
  (seg (read_buf c) (read_ptr c) copylen,
   set_read c (read_buf c) (read_ptr c + copylen) (read_end c)).

Definition readbuf_fill : M unit :=
  fun c =>
    if negb (read_ptr c =? read_end c) then (Crash AssertionFailed, c)
    else
      ignore writebuf_flush
        (fun c1 =>
           let '(res, data, s') := SOCK_READ (sock c1) (sizeof_read_buf E) in
           let c2 := set_read (set_sock c1 s') (blit (read_buf c1) 0 data)
                              (read_ptr c1) (read_end c1) in
           if res <? 0 then
             (Err (svn_error_create SVN_ERR_RA_SVN_IO_ERROR (errno s') None
                                    (bytes_of "Read failure")), c2)
           else if res =? 0 then
             (Err (svn_error_create SVN_ERR_RA_SVN_CONNECTION_CLOSED 0 None
                     (bytes_of "Connection closed unexpectedly")), c2)
           else (Ok tt, set_read c2 (read_buf c2) 0 res)) c.

Definition readbuf_getchar : M byte :=
  _ <- (fun c => if read_ptr c =? read_end c then readbuf_fill c
                 else (Ok tt, c)) ;;
  fun c => (Ok (nth (Z.to_nat (read_ptr c)) (read_buf c) 0),
            set_read c (read_buf c) (read_ptr c + 1) (read_end c)).

Fixpoint readbuf_getchar_skip_whitespace (fuel : nat) : M byte :=
  match fuel with
  | O => fun c => (OutOfFuel, c)
  | S fuel' =>
      r <- readbuf_getchar ;;
      if svn_iswhitespace r then readbuf_getchar_skip_whitespace fuel'
      else ret r
  end.

(** The two loops of [readbuf_read]; [got] is what has been stored in
    the caller's buffer so far and [n] the total wanted. *)
Fixpoint readbuf_read_direct (fuel : nat) (n : Z) (got : list byte)
    : M (list byte) :=
  fun c =>
    if sizeof_read_buf E <? n - len got then
      match fuel with
      | O => (OutOfFuel, c)
      | S fuel' =>
          ignore writebuf_flush
            (fun c1 =>
               let '(res, data, s') := SOCK_READ (sock c1) (n - len got) in
               let c2 := set_sock c1 s' in
               if res <? 0 then
                 (Err (svn_error_create SVN_ERR_RA_SVN_IO_ERROR (errno s')
                         None (bytes_of "Read failure")), c2)
               else if res =? 0 then
                 (Err (svn_error_create SVN_ERR_RA_SVN_CONNECTION_CLOSED 0
                         None (bytes_of "Unexpected connection close")), c2)
               else readbuf_read_direct fuel' n (got ++ data) c2) c
      end
    else (Ok got, c).

Fixpoint readbuf_read_buffered (fuel : nat) (n : Z) (got : list byte)
    : M (list byte) :=
  fun c =>
    if len got <? n then
      match fuel with
      | O => (OutOfFuel, c)
      | S fuel' =>
          (_ <- readbuf_fill ;;
           fun c1 =>
             let '(data, c2) := readbuf_drain c1 (n - len got) in
             readbuf_read_buffered fuel' n (got ++ data) c2) c
      end
    else (Ok got, c).

Definition readbuf_read (fuel : nat) (n : Z) : M (list byte) :=
  fun c =>
    (* Copy in an appropriate amount of data from the buffer. *)
    let '(data, c1) := readbuf_drain c n in
    (got <- readbuf_read_direct fuel n data ;;
     readbuf_read_buffered fuel n got) c1.

(** *** Writing data items *)

(** [apr_pvsprintf] of an unsigned decimal ([APR_SIZE_T_FMT]). *)
Fixpoint fmt_digits (fuel : nat) (n : Z) (acc : list byte) : list byte :=
  let acc' := (48 + n mod 10) :: acc in
  match fuel with
  | O => acc'
  | S fuel' => if n <? 10 then acc' else fmt_digits fuel' (n / 10) acc'
  end.

Definition fmt_unsigned (n : Z) : list byte :=
  fmt_digits (Z.to_nat (Z.log2 n)) n [].

(** [apr_pvsprintf] of [APR_INT64_T_FMT]: the 64 bits are printed as a
    signed number. *)
Definition fmt_int64 (n : Z) : list byte :=
  let v := to_int64 n in
  if v <? 0 then 45 :: fmt_unsigned (- v) else fmt_unsigned v.

(** [writebuf_printf]: the formatted text is passed in; it is written up
    to its [strlen]. *)
Definition writebuf_printf (str : list byte) : M unit :=
  writebuf_write (c_str str).

Definition svn_ra_svn_write_number (number : Z) : M unit :=
  writebuf_printf (fmt_int64 number ++ bytes_of " ").

Definition svn_ra_svn_write_string (str : list byte) : M unit :=
  writebuf_printf (fmt_unsigned (len str) ++ bytes_of ":") ;;;
  writebuf_write str ;;;
  writebuf_write (bytes_of " ").

Definition svn_ra_svn_write_cstring (s : list byte) : M unit :=
  writebuf_printf (fmt_unsigned (strlen s) ++ bytes_of ":" ++ c_str s
                   ++ bytes_of " ").

Definition svn_ra_svn_write_word (word : list byte) : M unit :=
  writebuf_printf (c_str word ++ bytes_of " ").

Definition svn_ra_svn_start_list : M unit := writebuf_write (bytes_of "( ").
Definition svn_ra_svn_end_list : M unit := writebuf_write (bytes_of ") ").
Definition svn_ra_svn_flush : M unit := writebuf_flush.

(** *** Writing tuples *)

(** One variadic argument; a pointer argument may be NULL. *)
Inductive arg : Type :=
| ArgNumber (n : Z)                     (* apr_uint64_t *)
| ArgRev (rev : Z)                      (* svn_revnum_t *)
| ArgString (str : option (list byte))  (* const svn_string_t * *)
| ArgCstr (cstr : option (list byte)).  (* const char * *)

Definition non_null {A} (p : option A) : bool :=
  match p with Some _ => true | None => false end.

(** [assert (opt > 0 || present)] *)
Definition assert (b : bool) : M unit :=
  if b then ret tt else crashed AssertionFailed.

(** The [for (; *fmt; fmt++)] loop.  A [va_arg] of the wrong type, or
    past the last argument, is undefined behaviour. *)
Fixpoint vwrite_tuple_loop (fmt : list byte) (ap : list arg) (opt : Z)
    : M unit :=
  match fmt with
  | [] => ret tt
  | f :: fmt' =>
      if f =? ch "n" then
        match ap with
        | ArgNumber n :: ap' =>
            svn_ra_svn_write_number n ;;; vwrite_tuple_loop fmt' ap' opt
        | _ => crashed Undefined
        end
      else if f =? ch "r" then
        match ap with
        | ArgRev rev :: ap' =>
            assert ((0 <? opt) || SVN_IS_VALID_REVNUM E rev) ;;;
            (if SVN_IS_VALID_REVNUM E rev
             then svn_ra_svn_write_number (to_uint64 rev) else ret tt) ;;;
            vwrite_tuple_loop fmt' ap' opt
        | _ => crashed Undefined
        end
      else if f =? ch "s" then
        match ap with
        | ArgString str :: ap' =>
            assert ((0 <? opt) || non_null str) ;;;
            match str with
            | Some s => svn_ra_svn_write_string s
            | None => ret tt
            end ;;;
            vwrite_tuple_loop fmt' ap' opt
        | _ => crashed Undefined
        end
      else if f =? ch "c" then
        match ap with
        | ArgCstr cstr :: ap' =>
            assert ((0 <? opt) || non_null cstr) ;;;
            match cstr with
            | Some s => svn_ra_svn_write_cstring s
            | None => ret tt
            end ;;;
            vwrite_tuple_loop fmt' ap' opt
        | _ => crashed Undefined
        end
      else if f =? ch "w" then
        match ap with
        | ArgCstr cstr :: ap' =>
            assert ((0 <? opt) || non_null cstr) ;;;
            match cstr with
            | Some s => svn_ra_svn_write_word s
            | None => ret tt
            end ;;;
            vwrite_tuple_loop fmt' ap' opt
        | _ => crashed Undefined
        end
      else if f =? ch "[" then
        svn_ra_svn_start_list ;;; vwrite_tuple_loop fmt' ap (opt + 1)
      else if f =? ch "]" then
        svn_ra_svn_end_list ;;; vwrite_tuple_loop fmt' ap (opt - 1)
      else if f =? ch "(" then
        svn_ra_svn_start_list ;;; vwrite_tuple_loop fmt' ap opt
      else if f =? ch ")" then
        svn_ra_svn_end_list ;;; vwrite_tuple_loop fmt' ap opt
      else crashed Aborted
  end.

Definition svn_ra_svn_vwrite_tuple (fmt : list byte) (ap : list arg)
    : M unit :=
  svn_ra_svn_start_list ;;;
  vwrite_tuple_loop (c_str fmt) ap 0 ;;;
  svn_ra_svn_end_list.

Definition svn_ra_svn_write_tuple (fmt : list byte) (ap : list arg)
    : M unit :=
  svn_ra_svn_vwrite_tuple fmt ap.

(** *** Reading data items *)

Definition malformed (msg : string) : svn_error_t :=
  svn_error_create SVN_ERR_RA_SVN_MALFORMED_DATA 0 None (bytes_of msg).

(** The digits after the first one: returns the value and the first
    character that is not a digit. *)
Fixpoint read_item_digits (fuel : nat) (val : Z) : M (Z * byte) :=
  match fuel with
  | O => fun c => (OutOfFuel, c)
  | S fuel' =>
      c <- readbuf_getchar ;;
      if negb (apr_isdigit c) then ret (val, c)
      else read_item_digits fuel' (to_uint64 (val * 10 + (c - 48)))
  end.

(** The rest of a word: returns the word and the first character that
    does not belong to it. *)
Fixpoint read_item_word (fuel : nat) (str : list byte)
    : M (list byte * byte) :=
  match fuel with
  | O => fun c => (OutOfFuel, c)
  | S fuel' =>
      c <- readbuf_getchar ;;
      if negb (apr_isalnum c) && negb (c =? ch "-") then ret (str, c)
      else read_item_word fuel' (str ++ [c])
  end.

(** The test that ends [read_item]. *)
Definition read_item_end (c : byte) (item : svn_ra_svn_item_t)
    : M svn_ra_svn_item_t :=
  if negb (svn_iswhitespace c)
  then fail (malformed "Malformed network data")
  else ret item.

(** [item] is what the already allocated structure holds on entry; it
    is returned as it is when [first_char] starts no item. *)
Fixpoint read_item (fuel : nat) (item : svn_ra_svn_item_t)
    (first_char : byte) : M svn_ra_svn_item_t :=
  match fuel with
  | O => fun c => (OutOfFuel, c)
  | S fuel' =>
      if apr_isdigit first_char then
        (* It's a number or a string.  Read the number part, either way. *)
        vc <- read_item_digits fuel' (first_char - 48) ;;
        let '(val, c) := vc in
        if c =? ch ":" then
          (* It's a string.  The block of val + 1 bytes that apr_palloc
             returns for it is not represented: the bytes are read
             whatever val is, where the program needs that block to
             exist (val + 1 wraps to 0 at 2^64 - 1). *)
          strdata <- readbuf_read fuel' val ;;
          _ <- readbuf_getchar ;;
          ret (STRING strdata)
        else
          (* It's a number. *)
          ret (NUMBER val)
      else if apr_isalpha first_char then
        (* It's a word. *)
        sc <- read_item_word fuel' [first_char] ;;
        let '(str, c) := sc in
        read_item_end c (WORD str)
      else if first_char =? ch "(" then
        (* Read in the list items. *)
        l <- read_item_list fuel' [] ;;
        c <- readbuf_getchar ;;
        read_item_end c (LIST l)
      else read_item_end first_char item
  end
with read_item_list (fuel : nat) (acc : list svn_ra_svn_item_t)
    : M (list svn_ra_svn_item_t) :=
  match fuel with
  | O => fun c => (OutOfFuel, c)
  | S fuel' =>
      c <- readbuf_getchar_skip_whitespace fuel' ;;
      if c =? ch ")" then ret acc
      else
        listitem <- read_item fuel' (NUMBER 0) c ;;
        read_item_list fuel' (acc ++ [listitem])
  end.

(** A freshly allocated item holds nothing meaningful; [NUMBER 0] stands
    for it. *)
Definition svn_ra_svn_read_item (fuel : nat) : M svn_ra_svn_item_t :=
  c <- readbuf_getchar_skip_whitespace fuel ;;
  read_item fuel (NUMBER 0) c.

(** *** Reading and parsing tuples *)

(** What [svn_ra_svn_vparse_tuple] stores through one pointer argument. *)
Inductive parsed : Type :=
| PNumber (n : Z)                        (* apr_uint64_t * *)
| PRev (rev : Z)                         (* svn_revnum_t * *)
| PString (str : list byte)              (* svn_string_t ** *)
| PCstr (cstr : list byte)               (* const char ** *)
| PList (elts : list svn_ra_svn_item_t). (* apr_array_header_t ** *)

(** The [for (count = 0; *fmt; fmt++, count++)] loop: [None] when it is
    left by [break]. *)
Fixpoint vparse_tuple_loop (elts : list svn_ra_svn_item_t) (count : nat)
    (fmt : list byte) (out : list parsed) : option (list parsed) :=
  match fmt with
  | [] => Some out
  | f :: fmt' =>
      let next v := vparse_tuple_loop elts (S count) fmt' (out ++ [v]) in
      match nth_error elts count with
      | Some (NUMBER n) =>
          if f =? ch "n" then next (PNumber n)
          else if f =? ch "r" then next (PRev (to_int64 n))
          else None
      | Some (STRING s) =>
          if f =? ch "s" then next (PString s)
          else if f =? ch "c" then next (PCstr s)
          else None
      | Some (WORD w) => if f =? ch "w" then next (PCstr w) else None
      | Some (LIST l) => if f =? ch "l" then next (PList l) else None
      | None => None   (* not reached: the caller compares the lengths *)
      end
  end.

Definition svn_ra_svn_vparse_tuple (elts : list svn_ra_svn_item_t)
    (fmt : list byte) : result (list parsed) :=
  match
    (if strlen fmt <=? len elts
     then vparse_tuple_loop elts 0 (c_str fmt) []
     else None)
  with
  | Some out => Ok out
  | None => Err (malformed "Malformed network data")
  end.

Definition svn_ra_svn_parse_tuple (elts : list svn_ra_svn_item_t)
    (fmt : list byte) : result (list parsed) :=
  svn_ra_svn_vparse_tuple elts fmt.

Definition lift {A} (r : result A) : M A := fun c => (r, c).

Definition svn_ra_svn_read_tuple (fuel : nat) (fmt : list byte)
    : M (list parsed) :=
  item <- svn_ra_svn_read_item fuel ;;
  match item with
  | LIST l => lift (svn_ra_svn_vparse_tuple l fmt)
  | _ => fail (malformed "Malformed network data")
  end.

(** *** Reading and writing commands and responses *)

(** The [for (i = params->nelts - 1; i >= 0; i--)] loop: [elts] are the
    entries still to be visited, last one first. *)
Fixpoint read_cmd_response_errors (elts : list svn_ra_svn_item_t)
    (err : option svn_error_t) : result (option svn_error_t) :=
  match elts with
  | [] => Ok err
  | LIST l :: elts' =>
      match svn_ra_svn_parse_tuple l (bytes_of "nccn") with
      | Ok [PNumber code; PCstr msg; PCstr fname; PNumber ln] =>
          read_cmd_response_errors elts'
            (Some {| apr_err := to_int32 code; src_err := 0;
                     message := Some (c_str msg); child := err;
                     file := Some (c_str fname); line := to_int64 ln |})
      | Ok _ => Crash Undefined
      | Err e => Err e
      | Crash k => Crash k
      | OutOfFuel => OutOfFuel
      end
  | _ :: _ => Err (malformed "Malformed error list")
  end.

(** A failure response makes the function return the rebuilt error. *)
Definition svn_ra_svn_read_cmd_response (fuel : nat) (fmt : list byte)
    : M (list parsed) :=
  vals <- svn_ra_svn_read_tuple fuel (bytes_of "wl") ;;
  match vals with
  | [PCstr status; PList params] =>
      if strcmp0 status (bytes_of "success") then
        lift (svn_ra_svn_vparse_tuple params fmt)
      else if strcmp0 status (bytes_of "failure") then
        (* Rebuild the error list from the end, to avoid reversing the
           order. *)
        if len params =? 0 then fail (malformed "Empty error list")
        else
          match read_cmd_response_errors (rev params) None with
          | Ok (Some err) => fail err
          | Ok None => ret []
          | Err e => fail e
          | Crash k => crashed k
          | OutOfFuel => fun c => (OutOfFuel, c)
          end
      else
        fail (svn_error_create SVN_ERR_RA_SVN_MALFORMED_DATA 0 None
                (bytes_of "Unknown status '" ++ c_str status
                 ++ bytes_of "' in command response"))
  | _ => crashed Undefined
  end.

(** The [for (; err; err = err->child)] loop. *)
Fixpoint write_cmd_failure_loop (err : svn_error_t) : M unit :=
  match err with
  | mk_error code _ msg chld fname ln =>
      svn_ra_svn_write_tuple (bytes_of "nccn")
        [ArgNumber (to_uint64 code); ArgCstr msg; ArgCstr fname;
         ArgNumber (to_uint64 ln)] ;;;
      match chld with
      | Some e => write_cmd_failure_loop e
      | None => ret tt
      end
  end.

Definition svn_ra_svn_write_cmd_failure (err : option svn_error_t)
    : M unit :=
  svn_ra_svn_start_list ;;;
  svn_ra_svn_write_word (bytes_of "failure") ;;;
  svn_ra_svn_start_list ;;;
  match err with
  | Some e => write_cmd_failure_loop e
  | None => ret tt
  end ;;;
  svn_ra_svn_end_list ;;;
  svn_ra_svn_end_list.

Definition svn_ra_svn_write_cmd (cmd : list byte) (fmt : list byte)
    (ap : list arg) : M unit :=
  svn_ra_svn_start_list ;;;
  svn_ra_svn_write_word cmd ;;;
  svn_ra_svn_vwrite_tuple fmt ap ;;;
  svn_ra_svn_end_list.

Definition svn_ra_svn_write_cmd_response (fmt : list byte) (ap : list arg)
    : M unit :=
  svn_ra_svn_start_list ;;;
  svn_ra_svn_write_word (bytes_of "success") ;;;
  svn_ra_svn_vwrite_tuple fmt ap ;;;
  svn_ra_svn_end_list.

(** The entry at which the lookup loop of [svn_ra_svn_handle_commands]
    stops: the first one with the wanted name, or the one with a null
    name that ends the table.  A table without that last entry is read
    past its end. *)
Fixpoint find_command (commands : list svn_ra_svn_cmd_entry_t)
    (name : list byte) : option svn_ra_svn_cmd_entry_t :=
  match commands with
  | [] => None
  | e :: rest =>
      match cmdname e with
      | None => Some e
      | Some n => if strcmp0 name n then Some e else find_command rest name
      end
  end.

(** One command, once its tuple has been read.  The value is [true] when
    the loop goes on and [false] when it is left by [break]. *)
Definition handle_command (entry : svn_ra_svn_cmd_entry_t)
    (name : list byte) (params : list svn_ra_svn_item_t)
    (pass_through_errors : bool) : M bool :=
  err <- (match cmdname entry with
          | Some _ =>
              fun c =>
                match handler entry params c with
                | (Ok _, c') => (Ok None, c')
                | (Err e, c') =>
                    if apr_err e =? SVN_ERR_RA_SVN_CMD_ERR
                    then (Ok (child e), c')
                    else (Err e, c')
                | (Crash k, c') => (Crash k, c')
                | (OutOfFuel, c') => (OutOfFuel, c')
                end
          | None =>
              ret (Some (svn_error_create SVN_ERR_RA_SVN_UNKNOWN_CMD 0 None
                           (bytes_of "Unknown command " ++ c_str name)))
          end) ;;
  match err with
  | Some e =>
      ignore_error (svn_ra_svn_write_cmd_failure (Some e))
                   (if pass_through_errors then fail e else ret tt)
  | None => ret tt
  end ;;;
  ret (negb (terminate entry)).

Fixpoint svn_ra_svn_handle_commands (fuel : nat)
    (commands : list svn_ra_svn_cmd_entry_t) (pass_through_errors : bool)
    : M unit :=
  match fuel with
  | O => fun c => (OutOfFuel, c)
  | S fuel' =>
      vals <- svn_ra_svn_read_tuple fuel' (bytes_of "wl") ;;
      match vals with
      | [PCstr name; PList params] =>
          match find_command commands name with
          | Some entry =>
              again <- handle_command entry name params
                                      pass_through_errors ;;
              if again
              then svn_ra_svn_handle_commands fuel' commands
                                              pass_through_errors
              else ret tt
          | None => crashed Undefined
          end
      | _ => crashed Undefined
      end
  end.

(** ** What the properties are stated with *)

(** The cursors of the two buffers stay inside them. *)
Definition conn_inv (c : svn_ra_svn_conn_t) : Prop :=
  read_ptr c <= read_end c /\ read_end c <= sizeof_read_buf E /\
  0 <= write_pos c /\ write_pos c <= sizeof_write_buf E.

(** [conn_inv], the read cursor not below the buffer, and both buffers
    of their declared size. *)
Definition buffers_ok (c : svn_ra_svn_conn_t) : Prop :=
  conn_inv c /\ 0 <= read_ptr c /\
  len (read_buf c) = sizeof_read_buf E /\
  len (write_buf c) = sizeof_write_buf E.

(** The bytes a reader of the connection is still to see: those waiting
    in the read buffer, then those waiting in the socket. *)
Definition pending (c : svn_ra_svn_conn_t) : list byte :=
  seg (read_buf c) (read_ptr c) (read_end c - read_ptr c) ++ inbox (sock c).

(** The bytes written to the connection so far: those delivered to the
    peer, then those waiting in the write buffer. *)
Definition sent (c : svn_ra_svn_conn_t) : list byte :=
  outbox (sock c) ++ take (write_pos c) (write_buf c).

Definition no_fail (script : list io_outcome) : Prop :=
  Forall (fun o => match o with IoFail _ => False | IoXfer _ => True end)
         script.

Definition reads_ok (c : svn_ra_svn_conn_t) : Prop :=
  buffers_ok c /\ no_fail (rd_script (sock c)).

Definition writes_ok (c : svn_ra_svn_conn_t) : Prop :=
  buffers_ok c /\ no_fail (wr_script (sock c)).

(** What a flush leaves alone, whether it succeeds or not. *)
Definition read_side_eq (c c' : svn_ra_svn_conn_t) : Prop :=
  read_buf c' = read_buf c /\ read_ptr c' = read_ptr c /\
  read_end c' = read_end c /\ inbox (sock c') = inbox (sock c) /\
  rd_script (sock c') = rd_script (sock c) /\
  write_buf c' = write_buf c.

(** What the two loops of [readbuf_read] keep true: [got] and the
    pending bytes together are the bytes wanted and what follows them. *)
Definition read_progress (n : Z) (want rest got : list byte)
    (c : svn_ra_svn_conn_t) : Prop :=
  reads_ok c /\ got ++ pending c = want ++ rest /\ len got <= n /\
  (len got < n -> read_ptr c = read_end c).

(** The decimal value of a run of digits, as mathematics has it and as
    [read_item] accumulates it in an [apr_uint64_t]. *)
Definition digits_value (ds : list byte) (v : Z) : Z :=
  fold_left (fun v d => v * 10 + (d - 48)) ds v.

Definition digits_acc (ds : list byte) (v : Z) : Z :=
  fold_left (fun v d => to_uint64 (v * 10 + (d - 48))) ds v.

(** A character that continues a word in [read_item]. *)
Definition is_word_char (b : byte) : bool := apr_isalnum b || (b =? ch "-").

(** The wire form of an item, as the protocol defines it. *)
Fixpoint wire (i : svn_ra_svn_item_t) : list byte :=
  match i with
  | NUMBER n => fmt_int64 n ++ bytes_of " "
  | STRING s => fmt_unsigned (len s) ++ bytes_of ":" ++ s ++ bytes_of " "
  | WORD w => c_str w ++ bytes_of " "
  | LIST l => bytes_of "( " ++ flat_map wire l ++ bytes_of ") "
  end.

(** Serializing an item with the item writers of marshal.c. *)
Fixpoint write_item (i : svn_ra_svn_item_t) : M unit :=
  match i with
  | NUMBER n => svn_ra_svn_write_number n
  | STRING s => svn_ra_svn_write_string s
  | WORD w => svn_ra_svn_write_word w
  | LIST l =>
      svn_ra_svn_start_list ;;;
      (fix write_items (l : list svn_ra_svn_item_t) : M unit :=
         match l with
         | [] => ret tt
         | x :: l' => write_item x ;;; write_items l'
         end) l ;;;
      svn_ra_svn_end_list
  end.

(** The items of the data model: a number below 2^63, a string whose
    length fits a [size_t], a word that starts with a letter and goes on
    with letters, digits and hyphens, a list of such items. *)
Fixpoint item_ok (i : svn_ra_svn_item_t) : bool :=
  match i with
  | NUMBER n => (0 <=? n) && (n <? 2 ^ 63)
  | STRING s => len s <? 2 ^ 64
  | WORD w =>
      match w with
      | a :: w' => apr_isalpha a && forallb is_word_char w'
      | [] => false
      end
  | LIST l => forallb item_ok l
  end.

(** The bytes a writer has added between two states of its connection. *)
Definition written (c c' : svn_ra_svn_conn_t) : list byte :=
  drop (len (sent c)) (sent c').

(** [read_item] recovers [i] from its wire form, whatever follows it and
    however the socket cuts the stream, and consumes just that form. *)
Definition reads_back (i : svn_ra_svn_item_t) : Prop :=
  forall (fuel : nat) (c : svn_ra_svn_conn_t) (rest : list byte) (x : byte)
         (w : list byte) (item0 : svn_ra_svn_item_t),
    wire i = x :: w -> reads_ok c -> pending c = w ++ rest ->
    len (wire i) <= Z.of_nat fuel ->
    exists c',
      read_item fuel item0 x c = (Ok i, c') /\ pending c' = rest /\
      reads_ok c'.

(** [m] succeeds on every connection whose writes do not fail, and adds
    exactly [bytes] to what the connection has been given. *)
Definition emits (m : M unit) (bytes : list byte) : Prop :=
  forall c, writes_ok c ->
    exists c', m c = (Ok tt, c') /\ sent c' = sent c ++ bytes /\ writes_ok c'.

(** Tuple parsing as the specification words it: the kind an item must
    have for a format letter, *)
Definition kind_matches (f : byte) (i : svn_ra_svn_item_t) : bool :=
  match i with
  | NUMBER _ => (f =? ch "n") || (f =? ch "r")
  | STRING _ => (f =? ch "s") || (f =? ch "c")
  | WORD _ => f =? ch "w"
  | LIST _ => f =? ch "l"
  end.

(** and a list that has an item of the right kind for every letter. *)
Definition format_matches (elts : list svn_ra_svn_item_t)
    (letters : list byte) : Prop :=
  len letters <= len elts /\
  forall k f, nth_error letters k = Some f ->
    exists i, nth_error elts k = Some i /\ kind_matches f i = true.

Fixpoint format_matchesb (elts : list svn_ra_svn_item_t)
    (letters : list byte) {struct letters} : bool :=
  match letters, elts with
  | [], _ => true
  | f :: letters', i :: elts' => kind_matches f i && format_matchesb elts' letters'
  | _ :: _, [] => false
  end.

(** Tuple writing: an argument that is missing under its format letter
    (an invalid revision for r, a null pointer for s, c or w), *)
Definition missing (f : byte) (a : arg) : bool :=
  match a with
  | ArgNumber _ => false
  | ArgRev rev => (f =? ch "r") && negb (SVN_IS_VALID_REVNUM E rev)
  | ArgString None => f =? ch "s"
  | ArgCstr None => (f =? ch "c") || (f =? ch "w")
  | ArgString (Some _) | ArgCstr (Some _) => false
  end.

(** an argument list with every revision valid and every pointer set, *)
Definition all_present (ap : list arg) : bool :=
  forallb (fun a =>
             match a with
             | ArgNumber _ => true
             | ArgRev rev => SVN_IS_VALID_REVNUM E rev
             | ArgString str => non_null str
             | ArgCstr cstr => non_null cstr
             end) ap.

(** the wire form of a present argument under its format letter, *)
Definition arg_wire (f : byte) (a : arg) : option (list byte) :=
  match a with
  | ArgNumber n =>
      if f =? ch "n" then Some (wire (NUMBER n)) else None
  | ArgRev rev =>
      if (f =? ch "r") && SVN_IS_VALID_REVNUM E rev
      then Some (wire (NUMBER (to_uint64 rev))) else None
  | ArgString (Some s) =>
      if f =? ch "s" then Some (wire (STRING s)) else None
  | ArgCstr (Some s) =>
      if f =? ch "c" then Some (wire (STRING (c_str s)))
      else if f =? ch "w" then Some (wire (WORD s))
      else None
  | ArgString None | ArgCstr None => None
  end.

(** and what a tuple puts between its parentheses when every value is
    written: the wire form of each argument in turn, and a parenthesis
    for each group marker. *)
Fixpoint tuple_body (fmt : list byte) (ap : list arg)
    : option (list byte) :=
  match fmt with
  | [] => Some []
  | f :: fmt' =>
      if (f =? ch "[") || (f =? ch "(") then
        option_map (app (bytes_of "( ")) (tuple_body fmt' ap)
      else if (f =? ch "]") || (f =? ch ")") then
        option_map (app (bytes_of ") ")) (tuple_body fmt' ap)
      else
        match ap with
        | a :: ap' =>
            match arg_wire f a, tuple_body fmt' ap' with
            | Some b, Some r => Some (b ++ r)
            | _, _ => None
            end
        | [] => None
        end
  end.

(** [m] never fails an assertion, and never crashes at all. *)
Definition never_asserts {A} (m : M A) : Prop :=
  forall c, fst (m c) <> Crash AssertionFailed.

Definition never_crashes {A} (m : M A) : Prop :=
  forall c k, fst (m c) <> Crash k.

(** The errors the socket reads of marshal.c create, told by their
    message; the one a failed flush creates says "Write failure". *)
Definition read_failure (e : svn_error_t) : Prop :=
  In (message e)
     [Some (bytes_of "Read failure");
      Some (bytes_of "Connection closed unexpectedly");
      Some (bytes_of "Unexpected connection close")].

Definition write_failure (e : svn_error_t) : Prop :=
  message e = Some (bytes_of "Write failure").

(** Every error [m] returns satisfies [P]. *)
Definition errors_in {A} (P : svn_error_t -> Prop) (m : M A) : Prop :=
  forall c e, fst (m c) = Err e -> P e.

(** Error chains: the links of a chain, outermost first, *)
Fixpoint chain (e : svn_error_t) : list svn_error_t :=
  match e with
  | mk_error code src msg chld fname ln =>
      mk_error code src msg chld fname ln
      :: match chld with
         | Some e' => chain e'
         | None => []
         end
  end.

(** what a link says: its code, message, file and line, *)
Definition link_fields (e : svn_error_t)
    : Z * option (list byte) * option (list byte) * Z :=
  (apr_err e, message e, file e, line e).

Definition outermost (e : svn_error_t) : svn_error_t := e.
Definition innermost (e : svn_error_t) : svn_error_t := last (chain e) e.

(** the entry of a failure response that carries a link, *)
Definition text_of (p : option (list byte)) : list byte :=
  match p with Some s => c_str s | None => [] end.

Definition link_item (e : svn_error_t) : svn_ra_svn_item_t :=
  LIST [NUMBER (to_uint64 (apr_err e)); STRING (text_of (message e));
        STRING (text_of (file e)); NUMBER (to_uint64 (line e))].

(** the failure response that carries a chain, *)
Definition failure_response (e : svn_error_t) : svn_ra_svn_item_t :=
  LIST [WORD (bytes_of "failure"); LIST (map link_item (chain e))].

(** a link that has a message and a file name, *)
Definition link_present (e : svn_error_t) : bool :=
  non_null (message e) && non_null (file e).

(** and a link whose fields survive the wire: a code that is not
    negative and fits an [int], a line number that is not negative and
    fits a [long] (a negative one is written with a minus sign, which
    the reader rejects), a message and a file name that are C strings
    whose length, with the terminator, fits a [size_t]. *)
Definition no_nul (s : list byte) : bool := forallb (fun b => negb (b =? 0)) s.

Definition text_ok (p : option (list byte)) : bool :=
  match p with
  | Some s => no_nul s && (len s + 1 <? 2 ^ 64)
  | None => false
  end.

Definition link_ok (e : svn_error_t) : bool :=
  (0 <=? apr_err e) && (apr_err e <? 2 ^ 31) &&
  (0 <=? line e) && (line e <? 2 ^ 63) &&
  text_ok (message e) && text_ok (file e).

(** The link [svn_ra_svn_read_cmd_response] builds from an entry. *)
Definition peer_link (e : svn_error_t) (chld : option svn_error_t)
    : svn_error_t :=
  {| apr_err := to_int32 (to_uint64 (apr_err e)); src_err := 0;
     message := Some (c_str (text_of (message e))); child := chld;
     file := Some (c_str (text_of (file e)));
     line := to_int64 (to_uint64 (line e)) |}.

(** Tuples without groups: the item a present argument is written as
    under its format letter, *)
Definition arg_item (f : byte) (a : arg) : option svn_ra_svn_item_t :=
  match a with
  | ArgNumber n => if f =? ch "n" then Some (NUMBER n) else None
  | ArgRev rev =>
      if (f =? ch "r") && SVN_IS_VALID_REVNUM E rev
      then Some (NUMBER (to_uint64 rev)) else None
  | ArgString (Some s) => if f =? ch "s" then Some (STRING s) else None
  | ArgCstr (Some s) =>
      if f =? ch "c" then Some (STRING (c_str s))
      else if f =? ch "w" then Some (WORD s)
      else None
  | ArgString None | ArgCstr None => None
  end.

(** the items of a tuple whose format has letters only, *)
Fixpoint tuple_items (fmt : list byte) (ap : list arg)
    : option (list svn_ra_svn_item_t) :=
  match fmt, ap with
  | [], _ => Some []
  | f :: fmt', a :: ap' =>
      match arg_item f a, tuple_items fmt' ap' with
      | Some i, Some r => Some (i :: r)
      | _, _ => None
      end
  | _ :: _, [] => None
  end.

(** what the tuple parser stores for an item of the kind of its
    letter, *)
Definition parsed_of (f : byte) (i : svn_ra_svn_item_t) : parsed :=
  match i with
  | NUMBER n => if f =? ch "n" then PNumber n else PRev (to_int64 n)
  | STRING s => if f =? ch "s" then PString s else PCstr s
  | WORD w => PCstr w
  | LIST l => PList l
  end.

(** and for the items of a list, letter by letter. *)
Fixpoint tuple_values (fmt : list byte) (elts : list svn_ra_svn_item_t)
    : list parsed :=
  match fmt, elts with
  | f :: fmt', i :: elts' => parsed_of f i :: tuple_values fmt' elts'
  | _, _ => []
  end.

(** An entry of a failure response that has the shape of an error
    record: a list that starts with a number, two strings and a
    number. *)
Definition entry_ok (i : svn_ra_svn_item_t) : bool :=
  match i with
  | LIST l => format_matchesb l (bytes_of "nccn")
  | _ => false
  end.

(** The error codes of the buffer readers of marshal.c, *)
Definition io_kind (e : svn_error_t) : Prop :=
  apr_err e = SVN_ERR_RA_SVN_IO_ERROR \/
  apr_err e = SVN_ERR_RA_SVN_CONNECTION_CLOSED.

(** and those of the item and tuple readers. *)
Definition read_kind (e : svn_error_t) : Prop :=
  apr_err e = SVN_ERR_RA_SVN_IO_ERROR \/
  apr_err e = SVN_ERR_RA_SVN_CONNECTION_CLOSED \/
  apr_err e = SVN_ERR_RA_SVN_MALFORMED_DATA.

(** [r] is the outcome of a reader started on [c] that has come back:
    with a value, at least [used] of the pending bytes being consumed,
    or with an error that satisfies [P]; and the buffers are well
    formed. *)
Definition comes_back {A} (P : svn_error_t -> Prop) (used : Z)
    (c : svn_ra_svn_conn_t) (r : result A * svn_ra_svn_conn_t) : Prop :=
  buffers_ok (snd r) /\
  match fst r with
  | Ok _ => len (pending (snd r)) + used <= len (pending c)
  | Err e => P e
  | Crash _ | OutOfFuel => False
  end.

(** [m] keeps the buffers well formed and always comes back, with
    success or with the I/O error. *)
Definition returns_io {A} (m : M A) : Prop :=
  forall c, buffers_ok c ->
    buffers_ok (snd (m c)) /\
    match fst (m c) with
    | Ok _ => True
    | Err e => apr_err e = SVN_ERR_RA_SVN_IO_ERROR
    | Crash _ | OutOfFuel => False
    end.

Hypothesis read_buf_pos : 0 < sizeof_read_buf E.
Hypothesis write_buf_pos : 0 < sizeof_write_buf E.

(** ** Lists indexed by [Z] *)

Lemma len_nonneg {A} (l : list A) : 0 <= len l.
Proof. unfold len. lia. Qed.

Lemma len_app {A} (a b : list A) : len (a ++ b) = len a + len b.
Proof. unfold len. rewrite length_app. lia. Qed.

Lemma len_take {A} (n : Z) (l : list A) :
  len (take n l) = Z.max 0 (Z.min n (len l)).
Proof. unfold len, take. rewrite length_firstn. lia. Qed.

Lemma len_drop {A} (n : Z) (l : list A) :
  len (drop n l) = len l - Z.max 0 (Z.min n (len l)).
Proof. unfold len, drop. rewrite length_skipn. lia. Qed.

Lemma take_drop {A} (n : Z) (l : list A) : take n l ++ drop n l = l.
Proof. apply firstn_skipn. Qed.

Lemma take_all {A} (n : Z) (l : list A) : len l <= n -> take n l = l.
Proof. unfold len, take. intros. apply firstn_all2. lia. Qed.

Lemma take_nonpos {A} (n : Z) (l : list A) : n <= 0 -> take n l = [].
Proof.
  unfold take. intros. replace (Z.to_nat n) with O by lia. reflexivity.
Qed.

Lemma drop_nonpos {A} (n : Z) (l : list A) : n <= 0 -> drop n l = l.
Proof.
  unfold drop. intros. replace (Z.to_nat n) with O by lia. reflexivity.
Qed.

Lemma drop_all {A} (n : Z) (l : list A) : len l <= n -> drop n l = [].
Proof. unfold len, drop. intros. apply skipn_all2. lia. Qed.

Lemma take_app_exact {A} (a b : list A) : take (len a) (a ++ b) = a.
Proof.
  unfold take, len. rewrite Nat2Z.id, firstn_app, Nat.sub_diag, firstn_all.
  simpl. apply app_nil_r.
Qed.

Lemma drop_app_exact {A} (a b : list A) : drop (len a) (a ++ b) = b.
Proof.
  unfold drop, len. rewrite Nat2Z.id, skipn_app, Nat.sub_diag, skipn_all.
  reflexivity.
Qed.

Lemma drop_drop {A} (n m : Z) (l : list A) :
  0 <= n -> 0 <= m -> drop n (drop m l) = drop (m + n) l.
Proof.
  unfold drop. intros. rewrite skipn_skipn. f_equal. lia.
Qed.

Lemma take_plus {A} (n m : Z) (l : list A) :
  0 <= n -> 0 <= m -> take (n + m) l = take n l ++ take m (drop n l).
Proof.
  unfold take, drop. intros.
  replace (Z.to_nat (n + m)) with (Z.to_nat n + Z.to_nat m)%nat by lia.
  rewrite <- (firstn_skipn (Z.to_nat n) l) at 1.
  rewrite firstn_app, length_firstn.
  destruct (Nat.le_gt_cases (Z.to_nat n) (List.length l)) as [Hle | Hgt].
  - rewrite Nat.min_l by lia.
    rewrite (firstn_all2 (n := (Z.to_nat n + Z.to_nat m)%nat)
               (firstn (Z.to_nat n) l))
      by (rewrite length_firstn; lia).
    do 2 f_equal. lia.
  - rewrite (skipn_all2 (n := Z.to_nat n) l) by lia.
    rewrite !firstn_nil, app_nil_r, app_nil_r.
    rewrite !firstn_all2 by (try rewrite length_firstn; lia).
    reflexivity.
Qed.

Lemma seg_split {A} (l : list A) (off n m : Z) :
  0 <= off -> 0 <= n -> 0 <= m ->
  seg l off (n + m) = seg l off n ++ seg l (off + n) m.
Proof.
  intros. unfold seg. rewrite take_plus, drop_drop by lia. reflexivity.
Qed.

Lemma seg_cons {A} (d : A) (l : list A) (off n : Z) :
  0 <= off -> off < len l -> 0 < n ->
  seg l off n = nth (Z.to_nat off) l d :: seg l (off + 1) (n - 1).
Proof.
  intros Hoff Hlen Hn.
  replace n with (1 + (n - 1)) at 1 by lia.
  rewrite seg_split by lia.
  replace (seg l off 1) with [nth (Z.to_nat off) l d]; [reflexivity |].
  unfold seg, take, drop. change (Z.to_nat 1) with 1%nat.
  assert (Hs : (Z.to_nat off < List.length l)%nat)
    by (unfold len in Hlen; lia).
  revert Hs. generalize (Z.to_nat off). clear. intros k.
  revert l. induction k; intros [| a l] Hs; simpl in *; try lia.
  - reflexivity.
  - apply IHk. lia.
Qed.

Lemma take_seg {A} (l : list A) (off n r : Z) :
  r <= n -> take r (seg l off n) = seg l off r.
Proof.
  intros. unfold seg, take. rewrite firstn_firstn. f_equal. lia.
Qed.

Lemma len_blit {A} (dst src : list A) (off : Z) :
  0 <= off -> off + len src <= len dst -> len (blit dst off src) = len dst.
Proof.
  intros. unfold blit. pose proof (len_nonneg src).
  rewrite !len_app, len_take, len_drop. lia.
Qed.

Lemma take_blit {A} (dst src : list A) (off : Z) :
  0 <= off -> off <= len dst ->
  take (off + len src) (blit dst off src) = take off dst ++ src.
Proof.
  intros. unfold blit. pose proof (len_nonneg src).
  rewrite take_plus by lia.
  assert (Hl : len (take off dst) = off) by (rewrite len_take; lia).
  remember (take off dst) as X. remember (drop (off + len src) dst) as R.
  rewrite <- Hl. rewrite take_app_exact, drop_app_exact, take_app_exact.
  reflexivity.
Qed.

(** ** The socket model *)

Lemma no_fail_tl (script : list io_outcome) :
  no_fail script -> no_fail (tl script).
Proof. intros H. destruct script; [exact H | now inversion H]. Qed.

Lemma xfer_len_bounds (k n avail : Z) :
  0 <= xfer_len k n avail /\ xfer_len k n avail <= Z.max 0 n /\
  xfer_len k n avail <= Z.max 0 avail /\
  (0 < n -> 0 < avail -> 0 < xfer_len k n avail).
Proof. unfold xfer_len. lia. Qed.

Lemma SOCK_WRITE_spec (s s' : socket) (data : list byte) (r : Z) :
  SOCK_WRITE s data = (r, s') ->
  inbox s' = inbox s /\ rd_script s' = rd_script s /\
  wr_script s' = tl (wr_script s) /\
  ((r = -1 /\ outbox s' = outbox s /\ ~ no_fail (wr_script s)) \/
   (0 <= r <= len data /\ (0 < len data -> 0 < r) /\
    outbox s' = outbox s ++ take r data)).
Proof.
  unfold SOCK_WRITE. pose proof (len_nonneg data) as Hd.
  destruct (wr_script s) as [| [e | k] ws] eqn:Hs; intros H;
    inversion H; subst; clear H; cbn; repeat split; auto.
  - right. repeat split; auto; lia.
  - left. repeat split; auto. intros Hn. now inversion Hn.
  - pose proof (xfer_len_bounds k (len data) (len data)).
    right. repeat split; auto; lia.
Qed.

Lemma SOCK_READ_spec (s s' : socket) (n r : Z) (data : list byte) :
  SOCK_READ s n = (r, data, s') ->
  outbox s' = outbox s /\ wr_script s' = wr_script s /\
  rd_script s' = tl (rd_script s) /\
  ((r = -1 /\ data = [] /\ inbox s' = inbox s /\ ~ no_fail (rd_script s)) \/
   (0 <= r <= Z.max 0 n /\ r <= len (inbox s) /\
    (0 < n -> 0 < len (inbox s) -> 0 < r) /\
    data = take r (inbox s) /\ inbox s' = drop r (inbox s) /\
    len data = r)).
Proof.
  unfold SOCK_READ. pose proof (len_nonneg (inbox s)) as Hd.
  destruct (rd_script s) as [| [e | k] rs] eqn:Hs; intros H;
    inversion H; subst; clear H; cbn; repeat split; auto.
  - pose proof (xfer_len_bounds n n (len (inbox s))).
    right. repeat split; auto; try lia. rewrite len_take. lia.
  - left. repeat split; auto. intros Hn. now inversion Hn.
  - pose proof (xfer_len_bounds k n (len (inbox s))).
    right. repeat split; auto; try lia. rewrite len_take. lia.
Qed.

(** ** The buffer cursors stay in range *)

Lemma writebuf_push_inv (c : svn_ra_svn_conn_t) (data : list byte) :
  conn_inv c -> conn_inv (snd (writebuf_push c data)).
Proof.
  unfold conn_inv, writebuf_push. intros H. fields.
  pose proof (len_nonneg data).
  destruct (sizeof_write_buf E - write_pos c <? len data) eqn:Hc; lia.
Qed.

Lemma writebuf_flush_loop_inv (fuel : nat) (count : Z)
    (c : svn_ra_svn_conn_t) :
  conn_inv c -> conn_inv (snd (writebuf_flush_loop fuel count c)).
Proof.
  revert count c. induction fuel as [| fuel IH]; intros count c H; simpl.
  - destruct (count <? write_pos c); [exact H |].
    unfold conn_inv in *. fields. lia.
  - destruct (count <? write_pos c).
    + destruct (SOCK_WRITE _ _) as [r s'].
      destruct (r <? 0); [exact H |]. apply IH. exact H.
    + unfold conn_inv in *. fields. lia.
Qed.

Lemma writebuf_flush_inv (c : svn_ra_svn_conn_t) :
  conn_inv c -> conn_inv (snd (writebuf_flush c)).
Proof. apply writebuf_flush_loop_inv. Qed.

Lemma writebuf_write_direct_inv (fuel : nat) (data : list byte)
    (c : svn_ra_svn_conn_t) :
  conn_inv c -> conn_inv (snd (writebuf_write_direct fuel data c)).
Proof.
  revert data c. induction fuel as [| fuel IH]; intros data c H; simpl.
  - destruct (_ <? _); exact H.
  - destruct (_ <? _); [| exact H].
    destruct (SOCK_WRITE _ _) as [r s'].
    destruct (r <? 0); [exact H |]. apply IH. exact H.
Qed.

Lemma bind_inv {A B} (P : svn_ra_svn_conn_t -> Prop) (m : M A)
    (k : A -> M B) (c : svn_ra_svn_conn_t) :
  P (snd (m c)) -> (forall a c', P c' -> P (snd (k a c'))) ->
  P (snd (bind m k c)).
Proof.
  unfold bind. intros Hm Hk. destruct (m c) as [[a | e | x |] c']; auto.
Qed.

Lemma writebuf_write_inv (data : list byte) (c : svn_ra_svn_conn_t) :
  conn_inv c -> conn_inv (snd (writebuf_write data c)).
Proof.
  intros H. unfold writebuf_write.
  apply bind_inv.
  - destruct (_ && _); [| exact H].
    pose proof (writebuf_push_inv c data H) as Hp.
    destruct (writebuf_push c data) as [rest c1]. fields.
    apply bind_inv; [now apply writebuf_flush_inv | auto].
  - intros data1 c1 H1. apply bind_inv.
    + now apply writebuf_write_direct_inv.
    + intros data2 c2 H2. fields. now apply writebuf_push_inv.
Qed.

Lemma readbuf_drain_inv (c : svn_ra_svn_conn_t) (n : Z) :
  0 <= n -> conn_inv c -> conn_inv (snd (readbuf_drain c n)).
Proof.
  unfold conn_inv, readbuf_drain. intros Hn H. fields.
  destruct (read_end c - read_ptr c <? n) eqn:Hc; lia.
Qed.

Lemma readbuf_fill_inv (c : svn_ra_svn_conn_t) :
  conn_inv c -> conn_inv (snd (readbuf_fill c)).
Proof.
  intros H. unfold readbuf_fill.
  destruct (negb _); [exact H |]. unfold ignore.
  pose proof (writebuf_flush_inv c H) as H1.
  destruct (writebuf_flush c) as [r1 c1]. fields.
  destruct (SOCK_READ _ _) as [[r data] s'] eqn:Hr.
  apply SOCK_READ_spec in Hr.
  destruct (r <? 0) eqn:Hneg; [exact H1 |].
  destruct (r =? 0) eqn:Hz; [exact H1 |].
  unfold conn_inv in *. fields. lia.
Qed.

Lemma readbuf_getchar_inv (c : svn_ra_svn_conn_t) :
  conn_inv c -> conn_inv (snd (readbuf_getchar c)).
Proof.
  intros H. unfold readbuf_getchar, bind.
  destruct (read_ptr c =? read_end c) eqn:Hc.
  - pose proof (readbuf_fill_inv c H) as Hf. unfold readbuf_fill in *.
    destruct (negb _); [exact Hf |]. unfold ignore in *.
    destruct (writebuf_flush c) as [r1 c1]. fields.
    destruct (SOCK_READ _ _) as [[r data] s'] eqn:Hr.
    apply SOCK_READ_spec in Hr.
    destruct (r <? 0) eqn:Hneg; [exact Hf |].
    destruct (r =? 0) eqn:Hz; [exact Hf |].
    unfold conn_inv in *. fields. lia.
  - unfold conn_inv in *. fields. lia.
Qed.

Lemma readbuf_read_direct_inv (fuel : nat) (n : Z) (got : list byte)
    (c : svn_ra_svn_conn_t) :
  conn_inv c -> conn_inv (snd (readbuf_read_direct fuel n got c)).
Proof.
  revert got c. induction fuel as [| fuel IH]; intros got c H; simpl.
  - destruct (_ <? _); exact H.
  - destruct (_ <? _); [| exact H]. unfold ignore.
    pose proof (writebuf_flush_inv c H) as H1.
    destruct (writebuf_flush c) as [r1 c1]. fields.
    destruct (SOCK_READ _ _) as [[r data] s'].
    destruct (r <? 0); [exact H1 |]. destruct (r =? 0); [exact H1 |].
    apply IH. exact H1.
Qed.

Lemma readbuf_read_buffered_inv (fuel : nat) (n : Z) (got : list byte)
    (c : svn_ra_svn_conn_t) :
  conn_inv c -> conn_inv (snd (readbuf_read_buffered fuel n got c)).
Proof.
  revert got c. induction fuel as [| fuel IH]; intros got c H;
    cbn [readbuf_read_buffered].
  - destruct (_ <? _); exact H.
  - destruct (len got <? n) eqn:Hc; [| exact H].
    apply bind_inv; [now apply readbuf_fill_inv |].
    intros _ c1 H1. apply Z.ltb_lt in Hc.
    assert (Hn : 0 <= n - len got) by lia.
    pose proof (readbuf_drain_inv c1 (n - len got) Hn H1) as Hd.
    destruct (readbuf_drain c1 _) as [data c2]. fields. now apply IH.
Qed.

Lemma readbuf_read_inv (fuel : nat) (n : Z) (c : svn_ra_svn_conn_t) :
  0 <= n -> conn_inv c -> conn_inv (snd (readbuf_read fuel n c)).
Proof.
  intros Hn H. unfold readbuf_read.
  pose proof (readbuf_drain_inv c n Hn H) as Hd.
  destruct (readbuf_drain c n) as [data c1]. fields.
  apply bind_inv; [now apply readbuf_read_direct_inv |].
  intros got c2 H2. now apply readbuf_read_buffered_inv.
Qed.

Lemma readbuf_getchar_skip_whitespace_inv (fuel : nat)
    (c : svn_ra_svn_conn_t) :
  conn_inv c -> conn_inv (snd (readbuf_getchar_skip_whitespace fuel c)).
Proof.
  revert c. induction fuel as [| fuel IH]; intros c H;
    cbn [readbuf_getchar_skip_whitespace]; [exact H |].
  apply bind_inv; [now apply readbuf_getchar_inv |].
  intros r c1 H1. destruct (svn_iswhitespace r); [now apply IH | exact H1].
Qed.

(** ** The write path delivers what it is given, in order *)

Lemma writebuf_flush_loop_frame (fuel : nat) (count : Z)
    (c : svn_ra_svn_conn_t) :
  read_side_eq c (snd (writebuf_flush_loop fuel count c)).
Proof.
  revert count c. induction fuel as [| fuel IH]; intros count c;
    cbn [writebuf_flush_loop].
  - destruct (count <? write_pos c); repeat split.
  - destruct (count <? write_pos c); [| repeat split].
    destruct (SOCK_WRITE _ _) as [r s'] eqn:Hw.
    apply SOCK_WRITE_spec in Hw. destruct Hw as (Hi & Hr & _).
    destruct (r <? 0); fields.
    + repeat split; assumption.
    + specialize (IH (count + r) (set_sock c s')).
      unfold read_side_eq in *. fields.
      destruct IH as (? & ? & ? & ? & ? & ?). repeat split; congruence.
Qed.

Lemma writebuf_flush_frame (c : svn_ra_svn_conn_t) :
  read_side_eq c (snd (writebuf_flush c)).
Proof. apply writebuf_flush_loop_frame. Qed.

Lemma buffers_ok_flush (c : svn_ra_svn_conn_t) :
  buffers_ok c -> buffers_ok (snd (writebuf_flush c)).
Proof.
  intros (Hi & Hp & Hr & Hw).
  pose proof (writebuf_flush_frame c) as (? & ? & ? & ? & ? & ?).
  pose proof (writebuf_flush_inv c Hi).
  repeat split; try apply H5; congruence.
Qed.

Lemma sent_empty_buffer (c : svn_ra_svn_conn_t) :
  write_pos c = 0 -> sent c = outbox (sock c).
Proof.
  intros H. unfold sent. rewrite H, take_nonpos by lia. apply app_nil_r.
Qed.

Lemma writebuf_flush_loop_ok (fuel : nat) (count : Z)
    (c : svn_ra_svn_conn_t) :
  writes_ok c -> 0 <= count <= write_pos c ->
  write_pos c - count <= Z.of_nat fuel ->
  exists c',
    writebuf_flush_loop fuel count c = (Ok tt, c') /\
    write_pos c' = 0 /\
    outbox (sock c') =
      outbox (sock c) ++ seg (write_buf c) count (write_pos c - count) /\
    no_fail (wr_script (sock c')).
Proof.
  revert count c. induction fuel as [| fuel IH];
    intros count c [Hb Hn] Hc Hf; cbn [writebuf_flush_loop].
  - destruct (count <? write_pos c) eqn:Hlt; [apply Z.ltb_lt in Hlt; lia |].
    apply Z.ltb_ge in Hlt. eexists. repeat split; fields; auto.
    unfold seg. rewrite take_nonpos by lia. now rewrite app_nil_r.
  - destruct (count <? write_pos c) eqn:Hlt.
    + apply Z.ltb_lt in Hlt.
      pose proof Hb as ((_ & _ & _ & Hwp) & _ & _ & Hwl).
      assert (Hseg : len (seg (write_buf c) count (write_pos c - count))
                     = write_pos c - count).
      { unfold seg. rewrite len_take, len_drop. lia. }
      destruct (SOCK_WRITE _ _) as [r s'] eqn:Hw.
      apply SOCK_WRITE_spec in Hw.
      destruct Hw as (Hi & Hr & Hs & [(_ & _ & Hbad) | (Hr1 & Hr2 & Ho)]);
        [contradiction |].
      rewrite Hseg in *.
      destruct (r <? 0) eqn:Hneg; [apply Z.ltb_lt in Hneg; lia |].
      destruct (IH (count + r) (set_sock c s')) as (c' & He & Hp & Hout & Hnf).
      * split; [| fields; rewrite Hs; now apply no_fail_tl].
        unfold buffers_ok, conn_inv in *. fields. exact Hb.
      * fields. lia.
      * fields. lia.
      * exists c'. repeat split; auto. rewrite Hout. fields. rewrite Ho.
        rewrite <- app_assoc. f_equal.
        rewrite take_seg by lia.
        rewrite <- seg_split by lia. f_equal. lia.
    + apply Z.ltb_ge in Hlt. eexists. repeat split; fields; auto.
      unfold seg. rewrite take_nonpos by lia. now rewrite app_nil_r.
Qed.

Lemma writebuf_flush_ok (c : svn_ra_svn_conn_t) :
  writes_ok c ->
  exists c',
    writebuf_flush c = (Ok tt, c') /\ sent c' = sent c /\
    write_pos c' = 0 /\ writes_ok c'.
Proof.
  intros Hw. pose proof Hw as [Hb Hn].
  destruct (writebuf_flush_loop_ok (Z.to_nat (write_pos c)) 0 c Hw)
    as (c' & He & Hp & Ho & Hnf).
  - destruct Hb as ((_ & _ & ? & _) & _). lia.
  - destruct Hb as ((_ & _ & ? & _) & _). lia.
  - exists c'. unfold writebuf_flush. rewrite He.
    split; [reflexivity |]. split; [| split; [assumption | split]].
    + rewrite sent_empty_buffer by assumption. rewrite Ho.
      unfold sent, seg. rewrite drop_nonpos by lia. do 2 f_equal. lia.
    + pose proof (buffers_ok_flush c Hb) as Hb'.
      unfold writebuf_flush in Hb'. now rewrite He in Hb'.
    + assumption.
Qed.

Lemma writebuf_push_ok (c : svn_ra_svn_conn_t) (data : list byte) :
  writes_ok c ->
  exists k,
    k = Z.min (sizeof_write_buf E - write_pos c) (len data) /\
    fst (writebuf_push c data) = drop k data /\
    sent (snd (writebuf_push c data)) = sent c ++ take k data /\
    write_pos (snd (writebuf_push c data)) = write_pos c + k /\
    writes_ok (snd (writebuf_push c data)).
Proof.
  intros [Hb Hn]. pose proof Hb as ((Hrp & Hre & Hw0 & Hwp) & Hr0 & Hrl & Hwl).
  pose proof (len_nonneg data) as Hd.
  exists (Z.min (sizeof_write_buf E - write_pos c) (len data)).
  unfold writebuf_push.
  replace (if sizeof_write_buf E - write_pos c <? len data
           then sizeof_write_buf E - write_pos c else len data)
    with (Z.min (sizeof_write_buf E - write_pos c) (len data))
    by (destruct (_ <? _) eqn:Hc; lia).
  set (k := Z.min (sizeof_write_buf E - write_pos c) (len data)).
  assert (Hk : 0 <= k <= len data) by lia.
  assert (Hlen : len (take k data) = k) by (rewrite len_take; lia).
  fields. split; [reflexivity |]. split; [reflexivity |].
  split; [| split; [reflexivity |]].
  - unfold sent. fields. rewrite <- app_assoc. f_equal.
    rewrite <- Hlen at 1. apply take_blit; lia.
  - split; [| exact Hn].
    unfold buffers_ok, conn_inv. fields. rewrite len_blit by lia.
    repeat split; (assumption || lia).
Qed.

Lemma writebuf_write_direct_ok (fuel : nat) (data : list byte)
    (c : svn_ra_svn_conn_t) :
  writes_ok c -> write_pos c = 0 -> len data <= Z.of_nat fuel ->
  exists rest c',
    writebuf_write_direct fuel data c = (Ok rest, c') /\
    len rest <= sizeof_write_buf E /\
    sent c' ++ rest = sent c ++ data /\
    write_pos c' = 0 /\ writes_ok c'.
Proof.
  revert data c. induction fuel as [| fuel IH]; intros data c Hw Hp Hf;
    cbn [writebuf_write_direct];
    destruct (sizeof_write_buf E <? len data) eqn:Hlt;
    try (apply Z.ltb_ge in Hlt; exists data, c; repeat split; auto;
         apply Hw).
  - apply Z.ltb_lt in Hlt. lia.
  - apply Z.ltb_lt in Hlt. destruct Hw as [Hb Hn].
    destruct (SOCK_WRITE _ _) as [r s'] eqn:Hs.
    apply SOCK_WRITE_spec in Hs.
    destruct Hs as (Hi & Hr & Hs & [(_ & _ & Hbad) | (Hr1 & Hr2 & Ho)]);
      [contradiction |].
    destruct (r <? 0) eqn:Hneg; [apply Z.ltb_lt in Hneg; lia |].
    destruct (IH (drop r data) (set_sock c s')) as (rest & c' & He & Hl & Hsent & Hp' & Hw').
    + split; [exact Hb | fields; rewrite Hs; now apply no_fail_tl].
    + exact Hp.
    + rewrite len_drop. lia.
    + exists rest, c'. repeat split; auto; try apply Hw'.
      rewrite Hsent. rewrite !sent_empty_buffer by assumption. fields.
      rewrite Ho, <- app_assoc. now rewrite take_drop.
Qed.

Lemma writebuf_write_ok (data : list byte) (c : svn_ra_svn_conn_t) :
  writes_ok c ->
  exists c',
    writebuf_write data c = (Ok tt, c') /\ sent c' = sent c ++ data /\
    writes_ok c'.
Proof.
  intros Hw. pose proof (len_nonneg data) as Hd.
  pose proof Hw as (((_ & _ & Hw0 & Hwp) & _) & _).
  (* the part of the call up to the direct writes *)
  assert (H1 : exists data1 c1,
    (fun c => if (0 <? write_pos c)
                 && (sizeof_write_buf E <? write_pos c + len data)
              then let '(rest, c1) := writebuf_push c data in
                   (_ <- writebuf_flush ;; ret rest) c1
              else (Ok data, c)) c = (Ok data1, c1) /\
    sent c1 ++ data1 = sent c ++ data /\ writes_ok c1 /\
    (write_pos c1 = 0 \/ len data1 <= sizeof_write_buf E - write_pos c1)).
  { destruct ((0 <? write_pos c)
              && (sizeof_write_buf E <? write_pos c + len data)) eqn:Hc.
    - apply andb_true_iff in Hc. destruct Hc as [Hc1 Hc2].
      apply Z.ltb_lt in Hc1, Hc2.
      destruct (writebuf_push_ok c data Hw) as (k & Hk & Hrest & Hs & Hp & Hw1).
      destruct (writebuf_push c data) as [rest c1]. fields. subst rest.
      destruct (writebuf_flush_ok c1 Hw1) as (c2 & He & Hs2 & Hp2 & Hw2).
      exists (drop k data), c2. unfold bind, ret. rewrite He.
      repeat split; auto; try apply Hw2.
      rewrite Hs2, Hs, <- app_assoc. now rewrite take_drop.
    - exists data, c. repeat split; auto; try apply Hw.
      apply andb_false_iff in Hc. destruct Hc as [Hc | Hc];
        [apply Z.ltb_ge in Hc; left; lia | apply Z.ltb_ge in Hc; right; lia]. }
  destruct H1 as (data1 & c1 & He1 & Hs1 & Hw1 & Hfit).
  unfold writebuf_write, bind at 1. rewrite He1.
  pose proof Hw1 as (((_ & _ & Hw10 & Hwp1) & _) & _).
  assert (H2 : exists data2 c2,
    writebuf_write_direct (List.length data1) data1 c1 = (Ok data2, c2) /\
    sent c2 ++ data2 = sent c1 ++ data1 /\ writes_ok c2 /\
    len data2 <= sizeof_write_buf E - write_pos c2).
  { destruct (Z.le_gt_cases (len data1) (sizeof_write_buf E)) as [Hle | Hgt].
    - exists data1, c1.
      assert (Hq : writebuf_write_direct (List.length data1) data1 c1
                   = (Ok data1, c1)).
      { destruct (List.length data1); cbn [writebuf_write_direct];
          destruct (sizeof_write_buf E <? len data1) eqn:Hlt;
          try reflexivity; apply Z.ltb_lt in Hlt; lia. }
      rewrite Hq. repeat split; auto; try apply Hw1.
      destruct Hfit; [lia | assumption].
    - destruct Hfit as [Hz | Hz]; [| lia].
      destruct (writebuf_write_direct_ok (List.length data1) data1 c1 Hw1 Hz)
        as (rest & c2 & He & Hl & Hs & Hp & Hw2); [unfold len; lia |].
      exists rest, c2. repeat split; auto; try apply Hw2. lia. }
  destruct H2 as (data2 & c2 & He2 & Hs2 & Hw2 & Hfit2).
  unfold bind. rewrite He2.
  destruct (writebuf_push_ok c2 data2 Hw2) as (k & Hk & Hrest & Hs & Hp & Hw3).
  pose proof (len_nonneg data2).
  exists (snd (writebuf_push c2 data2)). split; [reflexivity |].
  split; [| exact Hw3].
  rewrite Hs. replace k with (len data2) by lia.
  rewrite take_all by lia. now rewrite Hs2, Hs1.
Qed.

(** The two loops of the write path always come to an end: an error, or
    all bytes given to the socket. *)
Lemma writebuf_flush_loop_total (fuel : nat) (count : Z)
    (c : svn_ra_svn_conn_t) :
  buffers_ok c -> 0 <= count -> write_pos c - count <= Z.of_nat fuel ->
  fst (writebuf_flush_loop fuel count c) <> OutOfFuel.
Proof.
  revert count c. induction fuel as [| fuel IH]; intros count c Hb Hc Hf;
    cbn [writebuf_flush_loop];
    destruct (count <? write_pos c) eqn:Hlt; try discriminate;
    apply Z.ltb_lt in Hlt; [lia |].
  pose proof Hb as ((_ & _ & _ & Hwp) & _ & _ & Hwl).
  assert (Hseg : len (seg (write_buf c) count (write_pos c - count))
                 = write_pos c - count).
  { unfold seg. rewrite len_take, len_drop. lia. }
  destruct (SOCK_WRITE _ _) as [r s'] eqn:Hw.
  apply SOCK_WRITE_spec in Hw.
  destruct Hw as (_ & _ & _ & [(-> & _) | (Hr1 & Hr2 & _)]);
    [discriminate |].
  rewrite Hseg in *.
  destruct (r <? 0) eqn:Hneg; [discriminate |].
  apply IH; fields; [exact Hb | lia | lia].
Qed.

Lemma writebuf_flush_total (c : svn_ra_svn_conn_t) :
  buffers_ok c -> fst (writebuf_flush c) <> OutOfFuel.
Proof.
  intros Hb. apply writebuf_flush_loop_total; [exact Hb | lia |].
  destruct Hb as ((_ & _ & ? & _) & _). lia.
Qed.

Lemma writebuf_write_direct_total (fuel : nat) (data : list byte)
    (c : svn_ra_svn_conn_t) :
  len data <= Z.of_nat fuel ->
  fst (writebuf_write_direct fuel data c) <> OutOfFuel.
Proof.
  revert data c. induction fuel as [| fuel IH]; intros data c Hf;
    cbn [writebuf_write_direct];
    destruct (sizeof_write_buf E <? len data) eqn:Hlt; try discriminate;
    apply Z.ltb_lt in Hlt; [lia |].
  destruct (SOCK_WRITE _ _) as [r s'] eqn:Hw.
  apply SOCK_WRITE_spec in Hw.
  destruct Hw as (_ & _ & _ & [(-> & _) | (Hr1 & Hr2 & _)]);
    [discriminate |].
  destruct (r <? 0) eqn:Hneg; [discriminate |].
  apply IH. rewrite len_drop. lia.
Qed.

(** ** The read path delivers the pending bytes, in order *)

Lemma app_len_inj {A} (a b c d : list A) :
  len a = len c -> a ++ b = c ++ d -> a = c /\ b = d.
Proof.
  unfold len. revert c. induction a as [| x a IH]; intros [| y c] Hl H;
    simpl in *; try lia.
  - auto.
  - inversion H; subst. destruct (IH c) as [-> ->]; auto. lia.
Qed.

Lemma writebuf_flush_reads (c : svn_ra_svn_conn_t) :
  reads_ok c ->
  reads_ok (snd (writebuf_flush c)) /\
  pending (snd (writebuf_flush c)) = pending c /\
  read_ptr (snd (writebuf_flush c)) = read_ptr c /\
  read_end (snd (writebuf_flush c)) = read_end c.
Proof.
  intros [Hb Hn].
  pose proof (writebuf_flush_frame c) as (Hrb & Hrp & Hre & Hin & Hrs & _).
  pose proof (buffers_ok_flush c Hb) as Hb'.
  repeat split; try apply Hb'; try congruence.
  unfold pending. now rewrite Hrb, Hrp, Hre, Hin.
Qed.

Lemma readbuf_fill_ok (c : svn_ra_svn_conn_t) :
  reads_ok c -> read_ptr c = read_end c -> inbox (sock c) <> [] ->
  exists c',
    readbuf_fill c = (Ok tt, c') /\ pending c' = pending c /\
    reads_ok c' /\ read_ptr c' < read_end c'.
Proof.
  intros Hr Hempty Hin. unfold readbuf_fill.
  rewrite (proj2 (Z.eqb_eq _ _) Hempty). cbn [negb]. unfold ignore.
  destruct (writebuf_flush_reads c Hr) as ([Hb1 Hn1] & Hp1 & Hrp1 & Hre1).
  pose proof (writebuf_flush_frame c) as (_ & _ & _ & Hin1 & _).
  set (c1 := snd (writebuf_flush c)) in *.
  pose proof Hb1 as ((Hle & Hre & Hw0 & Hwp) & Hr0 & Hrl & Hwl).
  destruct (SOCK_READ _ _) as [[r data] s'] eqn:Hs.
  apply SOCK_READ_spec in Hs.
  destruct Hs as (Ho & Hws & Hrs
                  & [(_ & _ & _ & Hbad) | (Hr1 & Hr2 & Hr3 & Hd & Hi & Hl)]);
    [contradiction |].
  assert (Hpos : 0 < r).
  { apply Hr3; [assumption |]. rewrite Hin1.
    destruct (inbox (sock c)); [congruence | unfold len; simpl; lia]. }
  destruct (r <? 0) eqn:Hneg; [apply Z.ltb_lt in Hneg; lia |].
  destruct (r =? 0) eqn:Hz; [apply Z.eqb_eq in Hz; lia |].
  eexists. split; [reflexivity |]. split; [| split].
  - rewrite <- Hp1. unfold pending. fields. rewrite Hi.
    rewrite Hrp1, Hre1, Hempty, Z.sub_diag.
    unfold seg at 2. rewrite take_nonpos by lia. cbn [app].
    rewrite <- (take_drop r (inbox (sock c1))). f_equal; [| now rewrite take_drop].
    unfold seg. rewrite drop_nonpos by lia. rewrite Z.sub_0_r.
    rewrite <- Hd. rewrite <- Hl at 1.
    change (len data) with (0 + len data).
    rewrite take_blit by lia. now rewrite take_nonpos by lia.
  - split; [| fields; rewrite Hrs; now apply no_fail_tl].
    unfold buffers_ok, conn_inv. fields.
    rewrite len_blit by lia. repeat split; (assumption || lia).
  - fields. lia.
Qed.

Lemma readbuf_getchar_ok (c : svn_ra_svn_conn_t) (x : byte)
    (rest : list byte) :
  reads_ok c -> pending c = x :: rest ->
  exists c',
    readbuf_getchar c = (Ok x, c') /\ pending c' = rest /\ reads_ok c'.
Proof.
  intros Hr Hp.
  assert (H1 : exists c1,
    (fun c => if read_ptr c =? read_end c then readbuf_fill c
              else (Ok tt, c)) c = (Ok tt, c1) /\
    pending c1 = x :: rest /\ reads_ok c1 /\ read_ptr c1 < read_end c1).
  { destruct (read_ptr c =? read_end c) eqn:Hc.
    - apply Z.eqb_eq in Hc.
      destruct (readbuf_fill_ok c Hr Hc) as (c1 & He & Hp1 & Hr1 & Hlt).
      + unfold pending in Hp. rewrite Hc, Z.sub_diag in Hp.
        unfold seg in Hp. rewrite take_nonpos in Hp by lia.
        cbn [app] in Hp. congruence.
      + exists c1. rewrite He, Hp1. auto.
    - apply Z.eqb_neq in Hc. exists c. repeat split; auto; try apply Hr.
      destruct Hr as (((? & _) & _) & _). lia. }
  destruct H1 as (c1 & He & Hp1 & Hr1 & Hlt).
  unfold readbuf_getchar, bind. rewrite He.
  pose proof Hr1 as [((Hle & Hre & Hw0 & Hwp) & Hr0 & Hrl & Hwl) Hn].
  unfold pending in Hp1.
  rewrite (seg_cons (A := byte) 0) in Hp1 by lia. cbn [app] in Hp1.
  injection Hp1 as Hx Hrest. rewrite <- Hx.
  eexists. split; [reflexivity |]. split.
  - unfold pending. fields. rewrite <- Hrest. do 2 f_equal. lia.
  - split; [| exact Hn]. unfold buffers_ok, conn_inv. fields.
    repeat split; (assumption || lia).
Qed.

Lemma readbuf_getchar_skip_whitespace_ok (fuel : nat)
    (c : svn_ra_svn_conn_t) (ws : list byte) (x : byte) (rest : list byte) :
  reads_ok c -> pending c = ws ++ x :: rest ->
  Forall (fun b => svn_iswhitespace b = true) ws ->
  svn_iswhitespace x = false -> (List.length ws < fuel)%nat ->
  exists c',
    readbuf_getchar_skip_whitespace fuel c = (Ok x, c') /\
    pending c' = rest /\ reads_ok c'.
Proof.
  revert c ws. induction fuel as [| fuel IH]; intros c ws Hr Hp Hws Hx Hf;
    [lia |].
  cbn [readbuf_getchar_skip_whitespace]. unfold bind.
  destruct ws as [| w ws]; cbn [app] in Hp.
  - destruct (readbuf_getchar_ok c x rest Hr Hp) as (c' & He & Hp' & Hr').
    rewrite He, Hx. exists c'. auto.
  - destruct (readbuf_getchar_ok c w _ Hr Hp) as (c' & He & Hp' & Hr').
    inversion Hws as [| ? ? Hw Hws']; subst.
    rewrite He, Hw. apply (IH c' ws); auto. simpl in Hf. lia.
Qed.

Lemma readbuf_drain_ok (c : svn_ra_svn_conn_t) (n : Z) :
  reads_ok c -> 0 <= n ->
  exists k,
    k = Z.min (read_end c - read_ptr c) n /\
    len (fst (readbuf_drain c n)) = k /\
    pending c = fst (readbuf_drain c n) ++ pending (snd (readbuf_drain c n)) /\
    reads_ok (snd (readbuf_drain c n)) /\
    (k < n -> read_ptr (snd (readbuf_drain c n))
              = read_end (snd (readbuf_drain c n))).
Proof.
  intros Hr Hn0.
  pose proof Hr as [((Hle & Hre & Hw0 & Hwp) & Hr0 & Hrl & Hwl) Hn].
  exists (Z.min (read_end c - read_ptr c) n). unfold readbuf_drain.
  replace (if read_end c - read_ptr c <? n then read_end c - read_ptr c
           else n)
    with (Z.min (read_end c - read_ptr c) n)
    by (destruct (_ <? _) eqn:Hc; lia).
  set (k := Z.min (read_end c - read_ptr c) n). fields.
  split; [reflexivity |]. split; [| split; [| split]].
  - unfold seg. rewrite len_take, len_drop. lia.
  - unfold pending. fields. rewrite app_assoc. f_equal.
    rewrite <- seg_split by lia. f_equal. lia.
  - split; [| exact Hn]. unfold buffers_ok, conn_inv. fields.
    repeat split; (assumption || lia).
  - lia.
Qed.

Lemma read_progress_inbox (n : Z) (want rest got : list byte)
    (c : svn_ra_svn_conn_t) :
  len want = n -> read_progress n want rest got c -> len got < n ->
  pending c = inbox (sock c) /\ 0 < len (inbox (sock c)).
Proof.
  intros Hn (Hr & Hp & Hl & He) Hlt. specialize (He Hlt).
  assert (Hpi : pending c = inbox (sock c)).
  { unfold pending, seg. rewrite He, Z.sub_diag, take_nonpos by lia.
    reflexivity. }
  split; [exact Hpi |].
  apply (f_equal len) in Hp. rewrite !len_app, Hpi in Hp.
  pose proof (len_nonneg rest). lia.
Qed.

Lemma readbuf_read_direct_ok (fuel : nat) (n : Z) (want rest got : list byte)
    (c : svn_ra_svn_conn_t) :
  len want = n -> read_progress n want rest got c ->
  n - len got <= Z.of_nat fuel ->
  exists got' c',
    readbuf_read_direct fuel n got c = (Ok got', c') /\
    read_progress n want rest got' c'.
Proof.
  revert got c. induction fuel as [| fuel IH]; intros got c Hn Hpr Hf;
    cbn [readbuf_read_direct];
    destruct (sizeof_read_buf E <? n - len got) eqn:Hlt;
    try (exists got, c; split; [reflexivity | exact Hpr]);
    apply Z.ltb_lt in Hlt; [lia |].
  destruct (read_progress_inbox n want rest got c Hn Hpr) as [Hpi Hin];
    [lia |].
  destruct Hpr as (Hr & Hp & Hl & He). unfold ignore.
  destruct (writebuf_flush_reads c Hr) as (Hr1 & Hp1 & Hrp1 & Hre1).
  pose proof (writebuf_flush_frame c) as (_ & _ & _ & Hin1 & _).
  set (c1 := snd (writebuf_flush c)) in *.
  destruct (SOCK_READ _ _) as [[r data] s'] eqn:Hs.
  apply SOCK_READ_spec in Hs.
  destruct Hs as (Ho & Hws & Hrs
                  & [(_ & _ & _ & Hbad) | (Hr2 & Hr3 & Hr4 & Hd & Hi & Hld)]);
    [destruct Hr1; contradiction |].
  assert (Hpos : 0 < r) by (apply Hr4; [lia | now rewrite Hin1]).
  destruct (r <? 0) eqn:Hneg; [apply Z.ltb_lt in Hneg; lia |].
  destruct (r =? 0) eqn:Hz; [apply Z.eqb_eq in Hz; lia |].
  apply IH; [exact Hn | | rewrite len_app; lia].
  assert (Hempty : read_ptr c = read_end c) by (apply He; lia).
  split; [| split; [| split]].
  - destruct Hr1 as [Hb1 Hn1]. split; [exact Hb1 |].
    fields. rewrite Hrs. now apply no_fail_tl.
  - rewrite <- Hp, Hpi, <- app_assoc. f_equal.
    unfold pending, seg. fields.
    rewrite Hrp1, Hre1, Hempty, Z.sub_diag, take_nonpos by lia. cbn [app].
    rewrite Hi, Hd, Hin1. apply take_drop.
  - rewrite len_app. lia.
  - intros _. fields. congruence.
Qed.

Lemma readbuf_read_buffered_ok (fuel : nat) (n : Z)
    (want rest got : list byte) (c : svn_ra_svn_conn_t) :
  len want = n -> read_progress n want rest got c ->
  n - len got <= Z.of_nat fuel ->
  exists c',
    readbuf_read_buffered fuel n got c = (Ok want, c') /\
    pending c' = rest /\ reads_ok c'.
Proof.
  revert got c. induction fuel as [| fuel IH]; intros got c Hn Hpr Hf;
    cbn [readbuf_read_buffered];
    destruct (len got <? n) eqn:Hlt;
    try (apply Z.ltb_ge in Hlt; destruct Hpr as (Hr & Hp & Hl & He);
         assert (Hgl : len got = len want) by lia;
         destruct (app_len_inj got (pending c) want rest Hgl Hp) as [Hg Hq];
         subst got; exists c; auto);
    apply Z.ltb_lt in Hlt; [lia |].
  destruct (read_progress_inbox n want rest got c Hn Hpr Hlt) as [Hpi Hin].
  destruct Hpr as (Hr & Hp & Hl & He). specialize (He Hlt).
  destruct (readbuf_fill_ok c Hr He) as (c1 & Hfill & Hp1 & Hr1 & Hlt1).
  { intros Hnil. rewrite Hnil in Hin. unfold len in Hin. simpl in Hin. lia. }
  unfold bind. rewrite Hfill.
  assert (Hn0 : 0 <= n - len got) by lia.
  destruct (readbuf_drain_ok c1 (n - len got) Hr1 Hn0)
    as (k & Hk & Hlk & Hpd & Hr2 & Hek).
  destruct (readbuf_drain c1 (n - len got)) as [data c2]. fields.
  apply IH; [exact Hn | | rewrite len_app; lia].
  split; [exact Hr2 |]. split; [| split].
  - rewrite <- Hp, <- Hp1, Hpd. now rewrite app_assoc.
  - rewrite len_app. lia.
  - intros Hlt2. rewrite len_app in Hlt2. apply Hek. lia.
Qed.

Lemma readbuf_read_ok (fuel : nat) (n : Z) (want rest : list byte)
    (c : svn_ra_svn_conn_t) :
  reads_ok c -> pending c = want ++ rest -> len want = n ->
  n <= Z.of_nat fuel ->
  exists c',
    readbuf_read fuel n c = (Ok want, c') /\ pending c' = rest /\
    reads_ok c'.
Proof.
  intros Hr Hp Hn Hf. unfold readbuf_read.
  pose proof (len_nonneg want) as Hw.
  assert (Hn0 : 0 <= n) by lia.
  destruct (readbuf_drain_ok c n Hr Hn0) as (k & Hk & Hlk & Hpd & Hr1 & Hek).
  destruct (readbuf_drain c n) as [data c1]. fields.
  assert (Hpr : read_progress n want rest data c1).
  { split; [exact Hr1 |]. split; [congruence |]. split; [lia |].
    intros Hlt. apply Hek. lia. }
  pose proof (len_nonneg data).
  destruct (readbuf_read_direct_ok fuel n want rest data c1 Hn Hpr)
    as (got & c2 & He & Hpr2); [lia |].
  unfold bind. rewrite He.
  pose proof (len_nonneg got).
  apply (readbuf_read_buffered_ok fuel n want rest got c2 Hn Hpr2). lia.
Qed.

(** ** Decimal numbers *)

Lemma c_str_id (s : list byte) :
  Forall (fun b => b <> 0) s -> c_str s = s.
Proof.
  induction 1 as [| b s Hb _ IH]; simpl; [reflexivity |].
  destruct (b =? 0) eqn:Hz; [apply Z.eqb_eq in Hz; contradiction |].
  now rewrite IH.
Qed.

Lemma digit_nonzero (s : list byte) :
  Forall (fun b => apr_isdigit b = true) s -> Forall (fun b => b <> 0) s.
Proof.
  apply Forall_impl. unfold apr_isdigit. intros b H. lia.
Qed.

Lemma digits_value_app (a b : list byte) (v : Z) :
  digits_value (a ++ b) v = digits_value b (digits_value a v).
Proof. apply fold_left_app. Qed.

Lemma fmt_last_digit (m : Z) (acc : list byte) :
  0 <= m < 10 ->
  exists ds,
    (48 + m mod 10) :: acc = ds ++ acc /\ ds <> [] /\
    Forall (fun b => apr_isdigit b = true) ds /\
    forall v, digits_value ds v = v * 10 ^ len ds + m.
Proof.
  intros Hm. exists [48 + m]. rewrite Z.mod_small by lia.
  split; [reflexivity |]. split; [discriminate |]. split.
  - constructor; [unfold apr_isdigit; lia | constructor].
  - intros v. unfold digits_value. cbn [fold_left].
    change (len [48 + m]) with 1. lia.
Qed.

Lemma fmt_digits_spec (fuel : nat) (n : Z) (acc : list byte) :
  0 <= n < 10 ^ (Z.of_nat fuel + 1) ->
  exists ds,
    fmt_digits fuel n acc = ds ++ acc /\ ds <> [] /\
    Forall (fun b => apr_isdigit b = true) ds /\
    forall v, digits_value ds v = v * 10 ^ len ds + n.
Proof.
  revert n acc. induction fuel as [| fuel IH]; intros n acc Hn.
  - apply fmt_last_digit. simpl in Hn. lia.
  - cbn [fmt_digits]. destruct (n <? 10) eqn:Hlt.
    + apply Z.ltb_lt in Hlt. apply fmt_last_digit. lia.
    + apply Z.ltb_ge in Hlt.
      assert (Hq : 0 <= n / 10 < 10 ^ (Z.of_nat fuel + 1)).
      { split; [apply Z.div_pos; lia |].
        apply Z.div_lt_upper_bound; [lia |].
        replace (Z.of_nat (S fuel) + 1) with (Z.succ (Z.of_nat fuel + 1))
          in Hn by lia.
        rewrite Z.pow_succ_r in Hn by lia. lia. }
      destruct (IH (n / 10) ((48 + n mod 10) :: acc) Hq)
        as (ds & He & Hne & Hd & Hv).
      exists (ds ++ [48 + n mod 10]). rewrite He, <- app_assoc.
      split; [reflexivity |]. split; [now destruct ds |]. split.
      * apply Forall_app. split; [exact Hd |].
        pose proof (Z.mod_pos_bound n 10).
        constructor; [unfold apr_isdigit; lia | constructor].
      * intros v. rewrite digits_value_app, Hv. unfold digits_value at 1.
        cbn [fold_left]. rewrite len_app.
        change (len [48 + n mod 10]) with 1.
        rewrite Z.pow_add_r by (pose proof (len_nonneg ds); lia).
        pose proof (Z.div_mod n 10). lia.
Qed.

Lemma fmt_unsigned_spec (n : Z) :
  0 <= n ->
  exists d ds,
    fmt_unsigned n = d :: ds /\
    Forall (fun b => apr_isdigit b = true) (d :: ds) /\
    digits_value ds (d - 48) = n.
Proof.
  intros Hn. unfold fmt_unsigned.
  destruct (fmt_digits_spec (Z.to_nat (Z.log2 n)) n []) as (ds & He & Hne & Hd & Hv).
  - split; [exact Hn |].
    pose proof (Z.log2_nonneg n). rewrite Z2Nat.id by assumption.
    destruct (Z.eq_dec n 0) as [-> | Hnz]; [reflexivity |].
    pose proof (Z.log2_spec n ltac:(lia)) as [_ Hup].
    eapply Z.lt_le_trans; [exact Hup |].
    replace (Z.succ (Z.log2 n)) with (Z.log2 n + 1) by lia.
    apply Z.pow_le_mono_l. lia.
  - rewrite app_nil_r in He. rewrite He.
    destruct ds as [| d ds]; [congruence |]. exists d, ds.
    split; [reflexivity |]. split; [exact Hd |].
    specialize (Hv 0). unfold digits_value in *. cbn [fold_left] in Hv.
    replace (d - 48) with (0 * 10 + (d - 48)) by lia.
    rewrite Hv. apply Z.add_0_l.
Qed.

Lemma to_uint64_step (a x : Z) :
  to_uint64 (to_uint64 a * 10 + x) = to_uint64 (a * 10 + x).
Proof.
  unfold to_uint64. rewrite <- Z.add_mod_idemp_l by lia.
  rewrite Z.mul_mod_idemp_l by lia. rewrite Z.add_mod_idemp_l by lia.
  reflexivity.
Qed.

Lemma digits_value_mod (ds : list byte) (a : Z) :
  to_uint64 (digits_value ds (to_uint64 a)) = to_uint64 (digits_value ds a).
Proof.
  unfold digits_value. revert a.
  induction ds as [| d ds IH]; intros a; cbn [fold_left].
  - unfold to_uint64. apply Z.mod_mod. lia.
  - rewrite <- IH. rewrite <- (IH (a * 10 + (d - 48))).
    now rewrite to_uint64_step.
Qed.

Lemma digits_acc_value (ds : list byte) (v : Z) :
  digits_acc ds (to_uint64 v) = to_uint64 (digits_value ds v).
Proof.
  revert v. induction ds as [| d ds IH]; intros v.
  - reflexivity.
  - change (digits_acc ds (to_uint64 (to_uint64 v * 10 + (d - 48)))
            = to_uint64 (digits_value ds (v * 10 + (d - 48)))).
    rewrite to_uint64_step. apply IH.
Qed.

(** Reading back what [fmt_unsigned] printed gives the number again. *)
Lemma fmt_unsigned_read (n : Z) :
  0 <= n < 2 ^ 64 ->
  exists d ds,
    fmt_unsigned n = d :: ds /\
    Forall (fun b => apr_isdigit b = true) (d :: ds) /\
    digits_acc ds (d - 48) = n.
Proof.
  intros Hn. destruct (fmt_unsigned_spec n) as (d & ds & He & Hd & Hv); [lia |].
  exists d, ds. split; [exact He |]. split; [exact Hd |].
  assert (Hr : to_uint64 (d - 48) = d - 48).
  { inversion Hd as [| ? ? Hd0 _]; subst. unfold apr_isdigit in Hd0.
    unfold to_uint64. apply Z.mod_small. lia. }
  rewrite <- Hr, digits_acc_value, Hv. unfold to_uint64.
  apply Z.mod_small. lia.
Qed.

(** ** Reading an item from its wire form *)

Lemma bytes_of_sp : bytes_of " " = [32].
Proof. reflexivity. Qed.

Lemma read_item_digits_ok (fuel : nat) (ds : list byte) (t : byte)
    (rest : list byte) (v : Z) (c : svn_ra_svn_conn_t) :
  reads_ok c -> pending c = ds ++ t :: rest ->
  Forall (fun b => apr_isdigit b = true) ds -> apr_isdigit t = false ->
  (List.length ds < fuel)%nat ->
  exists c',
    read_item_digits fuel v c = (Ok (digits_acc ds v, t), c') /\
    pending c' = rest /\ reads_ok c'.
Proof.
  revert ds v c. induction fuel as [| fuel IH]; intros ds v c Hr Hp Hd Ht Hf;
    [lia |].
  cbn [read_item_digits]. unfold bind.
  destruct ds as [| d ds]; cbn [app] in Hp.
  - destruct (readbuf_getchar_ok c t rest Hr Hp) as (c' & He & Hp' & Hr').
    rewrite He, Ht. exists c'. auto.
  - destruct (readbuf_getchar_ok c d _ Hr Hp) as (c' & He & Hp' & Hr').
    inversion Hd as [| ? ? Hd0 Hd']; subst.
    rewrite He, Hd0. cbn [negb].
    apply (IH ds); auto. simpl in Hf. lia.
Qed.

Lemma read_item_word_ok (fuel : nat) (w : list byte) (t : byte)
    (rest str : list byte) (c : svn_ra_svn_conn_t) :
  reads_ok c -> pending c = w ++ t :: rest ->
  forallb is_word_char w = true -> is_word_char t = false ->
  (List.length w < fuel)%nat ->
  exists c',
    read_item_word fuel str c = (Ok (str ++ w, t), c') /\
    pending c' = rest /\ reads_ok c'.
Proof.
  revert w str c. induction fuel as [| fuel IH];
    intros w str c Hr Hp Hw Ht Hf; [lia |].
  cbn [read_item_word]. unfold bind.
  assert (Hcond : forall b,
    negb (apr_isalnum b) && negb (b =? ch "-") = negb (is_word_char b)).
  { intros b. unfold is_word_char.
    now destruct (apr_isalnum b), (b =? ch "-"). }
  destruct w as [| a w]; cbn [app] in Hp.
  - destruct (readbuf_getchar_ok c t rest Hr Hp) as (c' & He & Hp' & Hr').
    rewrite He, Hcond, Ht. cbn [negb]. rewrite app_nil_r. exists c'. auto.
  - destruct (readbuf_getchar_ok c a _ Hr Hp) as (c' & He & Hp' & Hr').
    cbn [forallb] in Hw. apply andb_true_iff in Hw. destruct Hw as [Ha Hw].
    rewrite He, Hcond, Ha. cbn [negb].
    destruct (IH w (str ++ [a]) c' Hr' Hp' Hw Ht) as (c2 & He2 & Hp2 & Hr2);
      [simpl in Hf; lia |].
    exists c2. rewrite He2, <- app_assoc. auto.
Qed.

Lemma item_ind_nested (P : svn_ra_svn_item_t -> Prop) :
  (forall n, P (NUMBER n)) -> (forall s, P (STRING s)) ->
  (forall w, P (WORD w)) -> (forall l, Forall P l -> P (LIST l)) ->
  forall i, P i.
Proof.
  intros Hn Hs Hw Hl. fix IH 1. intros [n | s | w | l].
  - apply Hn.
  - apply Hs.
  - apply Hw.
  - apply Hl. induction l as [| x l IHl]; constructor; [apply IH | exact IHl].
Qed.

Lemma to_int64_small (n : Z) : 0 <= n < 2 ^ 63 -> to_int64 n = n.
Proof. intros H. unfold to_int64. rewrite Z.mod_small; lia. Qed.

Lemma word_char_nonzero (w : list byte) :
  forallb is_word_char w = true -> Forall (fun b => b <> 0) w.
Proof.
  intros H. apply Forall_forall. intros b Hb.
  rewrite forallb_forall in H. specialize (H b Hb).
  unfold is_word_char, apr_isalnum, apr_isalpha, apr_isdigit in H.
  change (ch "-") with 45 in H. lia.
Qed.

Lemma word_wire (a : byte) (w : list byte) :
  apr_isalpha a = true -> forallb is_word_char w = true ->
  c_str (a :: w) = a :: w.
Proof.
  intros Ha Hw. apply c_str_id. constructor.
  - unfold apr_isalpha in Ha. lia.
  - now apply word_char_nonzero.
Qed.

(** An item's wire form starts with a digit, a letter or a parenthesis. *)
Lemma wire_head (i : svn_ra_svn_item_t) :
  item_ok i = true ->
  exists x w,
    wire i = x :: w /\ svn_iswhitespace x = false /\
    (x =? ch ")") = false.
Proof.
  assert (Hdig : forall d, apr_isdigit d = true ->
            svn_iswhitespace d = false /\ (d =? ch ")") = false).
  { intros d Hd. unfold apr_isdigit in Hd. unfold svn_iswhitespace.
    change (ch ")") with 41. lia. }
  destruct i as [n | s | w | l]; cbn [item_ok wire]; intros H.
  - assert (Hn : 0 <= n < 2 ^ 63) by lia.
    unfold fmt_int64. rewrite to_int64_small by assumption.
    destruct (n <? 0) eqn:Hneg; [lia |].
    destruct (fmt_unsigned_spec n) as (d & ds & He & Hd & _); [lia |].
    rewrite He. exists d, (ds ++ bytes_of " "). split; [reflexivity |].
    apply Hdig. now inversion Hd.
  - destruct (fmt_unsigned_spec (len s)) as (d & ds & He & Hd & _);
      [apply len_nonneg |].
    rewrite He. eexists d, _. split; [reflexivity |].
    apply Hdig. now inversion Hd.
  - destruct w as [| a w]; [discriminate |].
    apply andb_true_iff in H. destruct H as [Ha Hw].
    rewrite word_wire by assumption. eexists a, _. split; [reflexivity |].
    unfold apr_isalpha in Ha. unfold svn_iswhitespace.
    change (ch ")") with 41. lia.
  - eexists 40, _. repeat split.
Qed.

Lemma read_item_list_wire (l : list svn_ra_svn_item_t) :
  Forall reads_back l -> forallb item_ok l = true ->
  forall (fuel : nat) (acc : list svn_ra_svn_item_t) (ws : list byte)
         (c : svn_ra_svn_conn_t) (rest : list byte),
    reads_ok c -> Forall (fun b => svn_iswhitespace b = true) ws ->
    pending c = ws ++ flat_map wire l ++ ch ")" :: rest ->
    len ws + len (flat_map wire l) + 2 <= Z.of_nat fuel ->
    exists c',
      read_item_list fuel acc c = (Ok (acc ++ l), c') /\
      pending c' = rest /\ reads_ok c'.
Proof.
  induction 1 as [| i l Hi Hl IH]; intros Hok fuel acc ws c rest Hr Hws Hp Hf;
    (destruct fuel as [| fuel]; [unfold len in Hf; lia |]);
    cbn [read_item_list]; unfold bind; cbn [flat_map] in *.
  - cbn [app] in Hp.
    destruct (readbuf_getchar_skip_whitespace_ok fuel c ws (ch ")") rest Hr Hp Hws)
      as (c' & He & Hp' & Hr');
      [reflexivity | unfold len in Hf; cbn [List.length] in Hf; lia |].
    rewrite He. rewrite Z.eqb_refl. rewrite app_nil_r. exists c'. auto.
  - cbn [forallb] in Hok. apply andb_true_iff in Hok. destruct Hok as [Hoi Hol].
    destruct (wire_head i Hoi) as (x & w & Hw & Hxw & Hxp).
    rewrite len_app in Hf. pose proof (len_nonneg (flat_map wire l)).
    pose proof (len_nonneg ws).
    assert (Hlw : len (wire i) = 1 + len w)
      by (rewrite Hw; unfold len; cbn [List.length]; lia).
    pose proof (len_nonneg w).
    rewrite Hw in Hp. rewrite <- !app_assoc in Hp. cbn [app] in Hp.
    destruct (readbuf_getchar_skip_whitespace_ok fuel c ws x _ Hr Hp Hws Hxw)
      as (c1 & He1 & Hp1 & Hr1); [unfold len in *; lia |].
    rewrite He1, Hxp.
    destruct (Hi fuel c1 (flat_map wire l ++ ch ")" :: rest) x w (NUMBER 0)
                Hw Hr1 Hp1) as (c2 & He2 & Hp2 & Hr2); [lia |].
    rewrite He2.
    destruct (IH Hol fuel (acc ++ [i]) [] c2 rest Hr2 (Forall_nil _) Hp2)
      as (c3 & He3 & Hp3 & Hr3); [change (len (@nil byte)) with 0; lia |].
    exists c3. rewrite He3, <- app_assoc. auto.
Qed.

Lemma read_item_wire (i : svn_ra_svn_item_t) :
  item_ok i = true -> reads_back i.
Proof.
  induction i as [n | s | w | l IH] using item_ind_nested;
    intros Hok fuel c rest x w0 item0 Hw Hr Hp Hf;
    cbn [item_ok wire] in *; rewrite ?bytes_of_sp in *.
  - (* a number *)
    assert (Hn : 0 <= n < 2 ^ 63) by lia.
    unfold fmt_int64 in *. rewrite to_int64_small in * by assumption.
    destruct (n <? 0) eqn:Hneg; [lia |].
    destruct (fmt_unsigned_read n) as (d & ds & He & Hd & Hv); [lia |].
    rewrite He in *. cbn [app] in Hw. injection Hw as -> <-.
    apply Forall_cons_iff in Hd. destruct Hd as [Hd0 Hds].
    list_len Hf.
    destruct fuel as [| fuel]; [lia |].
    cbn [read_item]. rewrite Hd0. unfold bind.
    app_norm Hp.
    destruct (read_item_digits_ok fuel ds 32 rest (x - 48) c Hr Hp Hds)
      as (c' & He' & Hp' & Hr'); [reflexivity | lia |].
    rewrite He', Hv. exists c'. auto.
  - (* a string *)
    apply Z.ltb_lt in Hok. pose proof (len_nonneg s).
    destruct (fmt_unsigned_read (len s)) as (d & ds & He & Hd & Hv); [lia |].
    rewrite He in *. cbn [app] in Hw. injection Hw as -> <-.
    apply Forall_cons_iff in Hd. destruct Hd as [Hd0 Hds].
    change (bytes_of ":") with [58] in *.
    list_len Hf.
    destruct fuel as [| fuel]; [lia |].
    cbn [read_item]. rewrite Hd0. unfold bind.
    app_norm Hp.
    destruct (read_item_digits_ok fuel ds 58 (s ++ 32 :: rest) (x - 48) c
                Hr Hp Hds) as (c1 & He1 & Hp1 & Hr1); [reflexivity | lia |].
    rewrite He1, Hv. change (58 =? ch ":") with true. cbv iota.
    destruct (readbuf_read_ok fuel (len s) s (32 :: rest) c1 Hr1 Hp1 eq_refl)
      as (c2 & He2 & Hp2 & Hr2); [unfold len; lia |].
    rewrite He2.
    destruct (readbuf_getchar_ok c2 32 rest Hr2 Hp2) as (c3 & He3 & Hp3 & Hr3).
    rewrite He3. exists c3. auto.
  - (* a word *)
    destruct w as [| a w]; [discriminate |].
    apply andb_true_iff in Hok. destruct Hok as [Ha Hwc].
    rewrite word_wire in * by assumption.
    cbn [app] in Hw. injection Hw as -> <-.
    list_len Hf.
    destruct fuel as [| fuel]; [lia |].
    cbn [read_item].
    assert (Hnd : apr_isdigit x = false)
      by (unfold apr_isalpha in Ha; unfold apr_isdigit; lia).
    rewrite Hnd, Ha. unfold bind.
    app_norm Hp.
    destruct (read_item_word_ok fuel w 32 rest [x] c Hr Hp Hwc)
      as (c' & He' & Hp' & Hr'); [reflexivity | lia |].
    rewrite He'. exists c'. auto.
  - (* a list *)
    change (bytes_of "( ") with [40; 32] in *.
    change (bytes_of ") ") with [41; 32] in *.
    cbn [app] in Hw. injection Hw as <- <-.
    list_len Hf.
    destruct fuel as [| fuel]; [lia |].
    cbn [read_item]. change (apr_isdigit 40) with false.
    change (apr_isalpha 40) with false. change (40 =? ch "(") with true.
    cbv iota. unfold bind.
    assert (IH' : Forall reads_back l).
    { rewrite Forall_forall in *. intros i Hin. apply IH; [exact Hin |].
      rewrite forallb_forall in Hok. now apply Hok. }
    app_norm Hp.
    destruct (read_item_list_wire l IH' Hok fuel [] [32] c (32 :: rest) Hr)
      as (c1 & He1 & Hp1 & Hr1).
    + repeat constructor.
    + exact Hp.
    + unfold len. cbn [List.length]. lia.
    + rewrite He1.
      destruct (readbuf_getchar_ok c1 32 rest Hr1 Hp1) as (c2 & He2 & Hp2 & Hr2).
      rewrite He2. exists c2. auto.
Qed.

(** ** Writing an item produces its wire form *)

Lemma emits_ret : emits (ret tt) [].
Proof. intros c Hw. exists c. rewrite app_nil_r. auto. Qed.

Lemma emits_bind (m k : M unit) (a b : list byte) :
  emits m a -> emits k b -> emits (m ;;; k) (a ++ b).
Proof.
  intros Hm Hk c Hw. destruct (Hm c Hw) as (c1 & He1 & Hs1 & Hw1).
  destruct (Hk c1 Hw1) as (c2 & He2 & Hs2 & Hw2).
  exists c2. unfold bind. rewrite He1, He2, Hs2, Hs1, app_assoc. auto.
Qed.

Lemma emits_written (m : M unit) (bytes : list byte)
    (c : svn_ra_svn_conn_t) :
  emits m bytes -> writes_ok c ->
  fst (m c) = Ok tt /\ written c (snd (m c)) = bytes.
Proof.
  intros Hm Hw. destruct (Hm c Hw) as (c' & He & Hs & _).
  rewrite He. cbn [fst snd]. split; [reflexivity |].
  unfold written. rewrite Hs. apply drop_app_exact.
Qed.

Lemma emits_writebuf_write (data : list byte) :
  emits (writebuf_write data) data.
Proof. intros c Hw. now apply writebuf_write_ok. Qed.

Lemma emits_writebuf_printf (str : list byte) :
  Forall (fun b => b <> 0) str -> emits (writebuf_printf str) str.
Proof.
  intros H. unfold writebuf_printf. rewrite c_str_id by assumption.
  apply emits_writebuf_write.
Qed.

Lemma c_str_nonzero (s : list byte) : Forall (fun b => b <> 0) (c_str s).
Proof.
  induction s as [| b s IH]; simpl; [constructor |].
  destruct (b =? 0) eqn:Hb; constructor; [apply Z.eqb_neq in Hb |]; auto.
Qed.

Lemma fmt_digits_nonzero (fuel : nat) (n : Z) (acc : list byte) :
  Forall (fun b => b <> 0) acc ->
  Forall (fun b => b <> 0) (fmt_digits fuel n acc).
Proof.
  revert n acc. induction fuel as [| fuel IH]; intros n acc Hacc;
    cbn [fmt_digits]; pose proof (Z.mod_pos_bound n 10).
  - constructor; [lia | exact Hacc].
  - destruct (n <? 10); [constructor; [lia | exact Hacc] |].
    apply IH. constructor; [lia | exact Hacc].
Qed.

Lemma fmt_unsigned_nonzero (n : Z) : Forall (fun b => b <> 0) (fmt_unsigned n).
Proof. apply fmt_digits_nonzero. constructor. Qed.

Lemma fmt_int64_nonzero (n : Z) : Forall (fun b => b <> 0) (fmt_int64 n).
Proof.
  unfold fmt_int64. destruct (to_int64 n <? 0).
  - constructor; [lia | apply fmt_unsigned_nonzero].
  - apply fmt_unsigned_nonzero.
Qed.

Lemma sp_nonzero : Forall (fun b => b <> 0) (bytes_of " ").
Proof. constructor; [discriminate | constructor]. Qed.

Lemma emits_write_number (n : Z) :
  emits (svn_ra_svn_write_number n) (fmt_int64 n ++ bytes_of " ").
Proof.
  apply emits_writebuf_printf, Forall_app.
  split; [apply fmt_int64_nonzero | apply sp_nonzero].
Qed.

Lemma emits_write_string (s : list byte) :
  emits (svn_ra_svn_write_string s)
        (fmt_unsigned (len s) ++ bytes_of ":" ++ s ++ bytes_of " ").
Proof.
  unfold svn_ra_svn_write_string.
  rewrite (app_assoc (fmt_unsigned (len s))).
  apply emits_bind; [| apply emits_bind; apply emits_writebuf_write].
  apply emits_writebuf_printf, Forall_app.
  split; [apply fmt_unsigned_nonzero |].
  constructor; [discriminate | constructor].
Qed.

Lemma emits_write_cstring (s : list byte) :
  emits (svn_ra_svn_write_cstring s)
        (fmt_unsigned (strlen s) ++ bytes_of ":" ++ c_str s ++ bytes_of " ").
Proof.
  apply emits_writebuf_printf.
  apply Forall_app. split; [apply fmt_unsigned_nonzero |].
  apply Forall_app. split; [constructor; [discriminate | constructor] |].
  apply Forall_app. split; [apply c_str_nonzero | apply sp_nonzero].
Qed.

Lemma emits_write_word (w : list byte) :
  emits (svn_ra_svn_write_word w) (c_str w ++ bytes_of " ").
Proof.
  apply emits_writebuf_printf, Forall_app.
  split; [apply c_str_nonzero | apply sp_nonzero].
Qed.

Lemma emits_start_list : emits svn_ra_svn_start_list (bytes_of "( ").
Proof. apply emits_writebuf_write. Qed.

Lemma emits_end_list : emits svn_ra_svn_end_list (bytes_of ") ").
Proof. apply emits_writebuf_write. Qed.

Lemma emits_write_item (i : svn_ra_svn_item_t) :
  emits (write_item i) (wire i).
Proof.
  induction i as [n | s | w | l IH] using item_ind_nested;
    cbn [write_item wire].
  - apply emits_write_number.
  - apply emits_write_string.
  - apply emits_write_word.
  - apply emits_bind; [apply emits_start_list |].
    apply emits_bind; [| apply emits_end_list].
    induction IH as [| x l Hx _ IHl]; cbn [flat_map].
    + apply emits_ret.
    + apply emits_bind; [exact Hx | exact IHl].
Qed.

Lemma read_item_ok (i : svn_ra_svn_item_t) (cr : svn_ra_svn_conn_t)
    (rest : list byte) (fuel : nat) :
  item_ok i = true -> reads_ok cr -> pending cr = wire i ++ rest ->
  len (wire i) <= Z.of_nat fuel ->
  exists cr',
    svn_ra_svn_read_item fuel cr = (Ok i, cr') /\ pending cr' = rest /\
    reads_ok cr'.
Proof.
  intros Hok Hr Hp Hf.
  destruct (wire_head i Hok) as (x & w & Hx & Hxw & _).
  rewrite Hx in Hp. cbn [app] in Hp.
  unfold svn_ra_svn_read_item, bind.
  destruct (readbuf_getchar_skip_whitespace_ok fuel cr [] x (w ++ rest) Hr Hp)
    as (c1 & He1 & Hp1 & Hr1); [constructor | exact Hxw | |].
  { rewrite Hx in Hf. list_len Hf. cbn [List.length]. lia. }
  rewrite He1. now apply (read_item_wire i Hok fuel c1 rest x w).
Qed.

(** An item of the data model written by one connection and read by
    another comes back as it was, and the reader is left at [rest]. *)
Lemma item_roundtrip (i : svn_ra_svn_item_t) (cw cr : svn_ra_svn_conn_t)
    (rest : list byte) (fuel : nat) :
  item_ok i = true -> writes_ok cw -> reads_ok cr ->
  pending cr = written cw (snd (write_item i cw)) ++ rest ->
  len (wire i) <= Z.of_nat fuel ->
  fst (write_item i cw) = Ok tt /\
  exists cr',
    svn_ra_svn_read_item fuel cr = (Ok i, cr') /\ pending cr' = rest /\
    reads_ok cr'.
Proof.
  intros Hok Hw Hr Hp Hf.
  destruct (emits_written _ _ cw (emits_write_item i) Hw) as [He Hwr].
  split; [exact He |]. rewrite Hwr in Hp. now apply read_item_ok.
Qed.

(** ** The claims of the specification *)

(** C8.  The cursors of a new connection satisfy
    [read_ptr <= read_end <= capacity] and [0 <= write_pos <= capacity],
    and every buffer operation keeps them so, whatever it returns:
    [writebuf_push], [writebuf_flush], [writebuf_write], [readbuf_drain],
    [readbuf_fill], [readbuf_getchar], [readbuf_getchar_skip_whitespace]
    and [readbuf_read]. *)
Theorem conn_inv_preserved (s : socket) (c : svn_ra_svn_conn_t)
    (data : list byte) (n : Z) (fuel : nat) :
  conn_inv c -> 0 <= n ->
  conn_inv (svn_ra_svn_create_conn s) /\
  conn_inv (snd (writebuf_push c data)) /\
  conn_inv (snd (writebuf_flush c)) /\
  conn_inv (snd (writebuf_write data c)) /\
  conn_inv (snd (readbuf_drain c n)) /\
  conn_inv (snd (readbuf_fill c)) /\
  conn_inv (snd (readbuf_getchar c)) /\
  conn_inv (snd (readbuf_getchar_skip_whitespace fuel c)) /\
  conn_inv (snd (readbuf_read fuel n c)).
Proof.
  intros Hc Hn. split.
  { unfold conn_inv, svn_ra_svn_create_conn. fields. lia. }
  split; [now apply writebuf_push_inv |].
  split; [now apply writebuf_flush_inv |].
  split; [now apply writebuf_write_inv |].
  split; [now apply readbuf_drain_inv |].
  split; [now apply readbuf_fill_inv |].
  split; [now apply readbuf_getchar_inv |].
  split; [now apply readbuf_getchar_skip_whitespace_inv |].
  now apply readbuf_read_inv.
Qed.

(** C7.  A number [n] with [0 <= n <= 2^63 - 1] written with
    [svn_ra_svn_write_number] and read with [svn_ra_svn_read_item] comes
    back as [NUMBER n]: the write succeeds, and a reader that is given the
    written bytes (followed by anything) returns the number and stops
    right after them, however the socket cuts the stream. *)
Theorem number_roundtrip (n : Z) (cw cr : svn_ra_svn_conn_t)
    (rest : list byte) (fuel : nat) :
  0 <= n <= 2 ^ 63 - 1 -> writes_ok cw -> reads_ok cr ->
  pending cr = written cw (snd (svn_ra_svn_write_number n cw)) ++ rest ->
  len (written cw (snd (svn_ra_svn_write_number n cw))) <= Z.of_nat fuel ->
  fst (svn_ra_svn_write_number n cw) = Ok tt /\
  exists cr',
    svn_ra_svn_read_item fuel cr = (Ok (NUMBER n), cr') /\
    pending cr' = rest.
Proof.
  intros Hn Hw Hr Hp Hf.
  assert (Hok : item_ok (NUMBER n) = true) by (cbn [item_ok]; lia).
  destruct (emits_written _ _ cw (emits_write_item (NUMBER n)) Hw) as [_ Hwr].
  cbn [write_item] in Hwr.
  destruct (item_roundtrip (NUMBER n) cw cr rest fuel Hok Hw Hr Hp)
    as (He & cr' & Hread & Hp' & _).
  - rewrite Hwr in Hf. exact Hf.
  - split; [exact He |]. exists cr'. auto.
Qed.

(** ** Tuple parsing *)

Lemma format_matchesb_iff (elts : list svn_ra_svn_item_t)
    (letters : list byte) :
  format_matchesb elts letters = true <-> format_matches elts letters.
Proof.
  unfold format_matches. revert elts.
  induction letters as [| f letters IH]; intros elts; cbn [format_matchesb].
  - split; [| reflexivity]. intros _. split; [apply len_nonneg |].
    intros [| k] g H; discriminate.
  - destruct elts as [| i elts].
    + split; [discriminate |]. intros [Hl _]. unfold len in Hl. simpl in Hl. lia.
    + rewrite andb_true_iff, IH. unfold len. cbn [List.length]. split.
      * intros (Hk & Hl & Hall). split; [unfold len in Hl; lia |].
        intros [| k] g Hg; cbn [nth_error] in *.
        -- injection Hg as <-. exists i. auto.
        -- now apply Hall.
      * intros (Hl & Hall). split; [| split].
        -- destruct (Hall O f eq_refl) as (j & Hj & Hm).
           cbn [nth_error] in Hj. now injection Hj as <-.
        -- unfold len. lia.
        -- intros k g Hg. apply (Hall (S k) g Hg).
Qed.

Lemma skipn_nth_error {A} (l : list A) (n : nat) :
  match skipn n l with
  | [] => nth_error l n = None
  | x :: r => nth_error l n = Some x /\ skipn (S n) l = r
  end.
Proof.
  revert l. induction n as [| n IH]; intros [| a l]; cbn; auto.
  specialize (IH l). destruct (skipn n l) as [| x r]; [exact IH |].
  destruct IH as [H1 H2]. split; [exact H1 |].
  destruct l; [destruct n; discriminate | exact H2].
Qed.

Lemma vparse_tuple_loop_spec (elts : list svn_ra_svn_item_t)
    (fmt : list byte) (count : nat) (out : list parsed) :
  if format_matchesb (skipn count elts) fmt
  then exists vals,
         vparse_tuple_loop elts count fmt out = Some (out ++ vals) /\
         List.length vals = List.length fmt
  else vparse_tuple_loop elts count fmt out = None.
Proof.
  revert count out. induction fmt as [| f fmt IH]; intros count out;
    cbn [format_matchesb vparse_tuple_loop].
  - exists []. now rewrite app_nil_r.
  - pose proof (skipn_nth_error elts count) as Hs.
    destruct (skipn count elts) as [| i r]; [now rewrite Hs |].
    destruct Hs as [Hn Hr]. rewrite Hn.
    assert (Hnext : forall v,
      if format_matchesb r fmt
      then exists vals,
             vparse_tuple_loop elts (S count) fmt (out ++ [v])
             = Some (out ++ vals) /\
             List.length vals = S (List.length fmt)
      else vparse_tuple_loop elts (S count) fmt (out ++ [v]) = None).
    { intros v. specialize (IH (S count) (out ++ [v])). rewrite Hr in IH.
      destruct (format_matchesb r fmt); [| exact IH].
      destruct IH as (vals & He & Hl). exists (v :: vals).
      rewrite He, <- app_assoc. cbn [app List.length]. auto. }
    destruct i as [n | s | w | l]; cbn [kind_matches].
    + destruct (f =? ch "n"); [apply Hnext |].
      destruct (f =? ch "r"); [apply Hnext | reflexivity].
    + destruct (f =? ch "s"); [apply Hnext |].
      destruct (f =? ch "c"); [apply Hnext | reflexivity].
    + destruct (f =? ch "w"); [apply Hnext | reflexivity].
    + destruct (f =? ch "l"); [apply Hnext | reflexivity].
Qed.

Lemma vparse_tuple_loop_extra (elts extra : list svn_ra_svn_item_t)
    (fmt : list byte) (count : nat) (out vals : list parsed) :
  vparse_tuple_loop elts count fmt out = Some vals ->
  vparse_tuple_loop (elts ++ extra) count fmt out = Some vals.
Proof.
  revert count out. induction fmt as [| f fmt IH]; intros count out;
    cbn [vparse_tuple_loop]; [auto |].
  destruct (nth_error elts count) as [i |] eqn:Hn; [| discriminate].
  rewrite nth_error_app1 by (apply nth_error_Some; congruence). rewrite Hn.
  destruct i; repeat match goal with
                     | |- context [if ?b then _ else _] => destruct b
                     end; auto.
Qed.

(** C6.  [svn_ra_svn_vparse_tuple] succeeds exactly when the list has at
    least as many items as the format has letters and the item at each
    position has the kind of its letter (n, r: number; s, c: string;
    w: word; l: list); otherwise it returns the malformed-data error;
    items after the last letter are accepted and change nothing. *)
Theorem vparse_tuple_spec (elts : list svn_ra_svn_item_t) (fmt : list byte) :
  (format_matches elts (c_str fmt) ->
   exists out,
     svn_ra_svn_vparse_tuple elts fmt = Ok out /\
     len out = len (c_str fmt)) /\
  (~ format_matches elts (c_str fmt) ->
   svn_ra_svn_vparse_tuple elts fmt
   = Err (malformed "Malformed network data")) /\
  (forall extra out,
     svn_ra_svn_vparse_tuple elts fmt = Ok out ->
     svn_ra_svn_vparse_tuple (elts ++ extra) fmt = Ok out).
Proof.
  unfold svn_ra_svn_vparse_tuple, strlen.
  pose proof (vparse_tuple_loop_spec elts (c_str fmt) 0 []) as Hs.
  cbn [skipn app] in Hs.
  split; [| split].
  - intros Hm. pose proof Hm as [Hl _].
    apply format_matchesb_iff in Hm. rewrite Hm in Hs.
    destruct Hs as (vals & He & Hv).
    rewrite (proj2 (Z.leb_le _ _) Hl), He. exists vals.
    split; [reflexivity | unfold len; lia].
  - intros Hm. destruct (len (c_str fmt) <=? len elts); [| reflexivity].
    destruct (format_matchesb elts (c_str fmt)) eqn:Hb.
    + apply format_matchesb_iff in Hb. contradiction.
    + now rewrite Hs.
  - intros extra out.
    destruct (len (c_str fmt) <=? len elts) eqn:Hl; [| discriminate].
    destruct (vparse_tuple_loop elts 0 (c_str fmt) []) as [vals |] eqn:He;
      [| discriminate].
    intros H. injection H as <-.
    apply Z.leb_le in Hl.
    assert (Hl' : len (c_str fmt) <= len (elts ++ extra))
      by (rewrite len_app; pose proof (len_nonneg extra); lia).
    rewrite (proj2 (Z.leb_le _ _) Hl').
    now rewrite (vparse_tuple_loop_extra elts extra _ _ _ _ He).
Qed.

(** ** Tuple writing *)

Lemma never_crashes_bind {A B} (m : M A) (k : A -> M B) :
  never_crashes m -> (forall a, never_crashes (k a)) ->
  never_crashes (bind m k).
Proof.
  intros Hm Hk c x. unfold bind. specialize (Hm c).
  destruct (m c) as [[a | e | y |] c']; cbn [fst] in *;
    try discriminate; [apply Hk | now destruct (Hm y)].
Qed.

Lemma never_asserts_bind {A B} (m : M A) (k : A -> M B) :
  never_asserts m -> (forall a, never_asserts (k a)) ->
  never_asserts (bind m k).
Proof.
  intros Hm Hk c. unfold bind. specialize (Hm c).
  destruct (m c) as [[a | e | y |] c']; cbn [fst] in *;
    try discriminate; [apply Hk | congruence].
Qed.

Lemma never_crashes_asserts {A} (m : M A) :
  never_crashes m -> never_asserts m.
Proof. intros H c. apply H. Qed.

Lemma never_crashes_flush_loop (fuel : nat) (count : Z) :
  never_crashes (writebuf_flush_loop fuel count).
Proof.
  revert count. induction fuel as [| fuel IH]; intros count c k;
    cbn [writebuf_flush_loop]; destruct (count <? write_pos c);
    try discriminate.
  destruct (SOCK_WRITE _ _) as [r s']. destruct (r <? 0); [discriminate |].
  apply IH.
Qed.

Lemma never_crashes_write_direct (fuel : nat) (data : list byte) :
  never_crashes (writebuf_write_direct fuel data).
Proof.
  revert data. induction fuel as [| fuel IH]; intros data c k;
    cbn [writebuf_write_direct]; destruct (_ <? len data);
    try discriminate.
  destruct (SOCK_WRITE _ _) as [r s']. destruct (r <? 0); [discriminate |].
  apply IH.
Qed.

Lemma never_crashes_writebuf_write (data : list byte) :
  never_crashes (writebuf_write data).
Proof.
  unfold writebuf_write. apply never_crashes_bind.
  - intros c k. destruct (_ && _); [| discriminate].
    destruct (writebuf_push c data) as [rest c1].
    apply never_crashes_bind; [| discriminate].
    intros c2 k2. apply never_crashes_flush_loop.
  - intros data1. apply never_crashes_bind.
    + apply never_crashes_write_direct.
    + discriminate.
Qed.

Lemma never_crashes_write_number (n : Z) :
  never_crashes (svn_ra_svn_write_number n).
Proof. apply never_crashes_writebuf_write. Qed.

Lemma never_crashes_write_string (s : list byte) :
  never_crashes (svn_ra_svn_write_string s).
Proof.
  repeat (apply never_crashes_bind; [| intros _]);
    apply never_crashes_writebuf_write.
Qed.

Lemma never_crashes_write_cstring (s : list byte) :
  never_crashes (svn_ra_svn_write_cstring s).
Proof. apply never_crashes_writebuf_write. Qed.

Lemma never_crashes_write_word (w : list byte) :
  never_crashes (svn_ra_svn_write_word w).
Proof. apply never_crashes_writebuf_write. Qed.

Lemma never_asserts_crashed (A : Type) (k : crash) :
  k <> AssertionFailed -> never_asserts (@crashed A k).
Proof. intros H c. cbn. congruence. Qed.

Lemma vwrite_tuple_loop_never_asserts (fmt : list byte) (ap : list arg)
    (opt : Z) :
  all_present ap = true -> never_asserts (vwrite_tuple_loop fmt ap opt).
Proof.
  revert ap opt. induction fmt as [| f fmt IH]; intros ap opt Hap;
    cbn [vwrite_tuple_loop]; [discriminate |].
  assert (Hu : never_asserts (@crashed unit Undefined))
    by (apply never_asserts_crashed; discriminate).
  assert (Hval : forall (b : bool) (m : M unit) (ap' : list arg),
            b = true -> never_crashes m -> all_present ap' = true ->
            never_asserts
              (assert ((0 <? opt) || b) ;;; m ;;;
               vwrite_tuple_loop fmt ap' opt)).
  { intros b m ap' -> Hm Hap'. rewrite orb_true_r.
    apply never_asserts_bind; [discriminate | intros _].
    apply never_asserts_bind;
      [now apply never_crashes_asserts | intros _; now apply IH]. }
  assert (Hgrp : forall (m : M unit) (o : Z),
            never_crashes m ->
            never_asserts (m ;;; vwrite_tuple_loop fmt ap o)).
  { intros m o Hm. apply never_asserts_bind;
      [now apply never_crashes_asserts | intros _; now apply IH]. }
  destruct (f =? ch "n").
  { destruct ap as [| [n | rev | str | cstr] ap']; try exact Hu.
    apply never_asserts_bind;
      [apply never_crashes_asserts, never_crashes_write_number |].
    intros _. now apply IH. }
  destruct (f =? ch "r").
  { destruct ap as [| [n | rev | str | cstr] ap']; try exact Hu.
    cbn [all_present forallb] in Hap. apply andb_true_iff in Hap.
    destruct Hap as [Hv Hap]. apply Hval; auto. rewrite Hv.
    apply never_crashes_write_number. }
  destruct (f =? ch "s").
  { destruct ap as [| [n | rev | str | cstr] ap']; try exact Hu.
    cbn [all_present forallb] in Hap. apply andb_true_iff in Hap.
    destruct Hap as [Hv Hap]. apply Hval; auto.
    destruct str; [apply never_crashes_write_string | discriminate]. }
  destruct (f =? ch "c").
  { destruct ap as [| [n | rev | str | cstr] ap']; try exact Hu.
    cbn [all_present forallb] in Hap. apply andb_true_iff in Hap.
    destruct Hap as [Hv Hap]. apply Hval; auto.
    destruct cstr; [apply never_crashes_write_cstring | discriminate]. }
  destruct (f =? ch "w").
  { destruct ap as [| [n | rev | str | cstr] ap']; try exact Hu.
    cbn [all_present forallb] in Hap. apply andb_true_iff in Hap.
    destruct Hap as [Hv Hap]. apply Hval; auto.
    destruct cstr; [apply never_crashes_write_word | discriminate]. }
  destruct (f =? ch "["); [apply Hgrp, never_crashes_writebuf_write |].
  destruct (f =? ch "]"); [apply Hgrp, never_crashes_writebuf_write |].
  destruct (f =? ch "("); [apply Hgrp, never_crashes_writebuf_write |].
  destruct (f =? ch ")"); [apply Hgrp, never_crashes_writebuf_write |].
  apply never_asserts_crashed. discriminate.
Qed.

Lemma emits_present (b : bool) (opt : Z) (m k : M unit)
    (x y : list byte) :
  b = true -> emits m x -> emits k y ->
  emits (assert ((0 <? opt) || b) ;;; m ;;; k) (x ++ y).
Proof.
  intros -> Hm Hk. rewrite orb_true_r. change (x ++ y) with ([] ++ x ++ y).
  apply emits_bind; [apply emits_ret |]. now apply emits_bind.
Qed.

Lemma emits_vwrite_tuple_loop (fmt : list byte) (ap : list arg) (opt : Z)
    (body : list byte) :
  tuple_body fmt ap = Some body -> emits (vwrite_tuple_loop fmt ap opt) body.
Proof.
  revert ap opt body. induction fmt as [| f fmt IH]; intros ap opt body Hb;
    cbn [vwrite_tuple_loop tuple_body] in *.
  { injection Hb as <-. apply emits_ret. }
  assert (Hgrp : forall (m : M unit) (x : list byte) (o : Z),
            emits m x ->
            option_map (app x) (tuple_body fmt ap) = Some body ->
            emits (m ;;; vwrite_tuple_loop fmt ap o) body).
  { intros m x o Hm Hx. destruct (tuple_body fmt ap) as [r |] eqn:Hr;
      [| discriminate].
    injection Hx as <-. apply emits_bind; [exact Hm | now apply IH]. }
  destruct (f =? ch "n") eqn:Tn.
  { apply Z.eqb_eq in Tn. subst f. eval_tests.
    destruct ap as [| [n | rev | str | cstr] ap']; try discriminate;
      cbn [arg_wire] in Hb; eval_tests;
      try (destruct str; discriminate); try (destruct cstr; discriminate).
    destruct (tuple_body fmt ap') as [r |] eqn:Hr; [| discriminate].
    injection Hb as <-.
    apply emits_bind; [apply emits_write_number | now apply IH]. }
  destruct (f =? ch "r") eqn:Tr.
  { apply Z.eqb_eq in Tr. subst f. eval_tests.
    destruct ap as [| [n | rev | str | cstr] ap']; try discriminate;
      cbn [arg_wire] in Hb; eval_tests;
      try (destruct str; discriminate); try (destruct cstr; discriminate).
    destruct (SVN_IS_VALID_REVNUM E rev) eqn:Hv; [| discriminate].
    destruct (tuple_body fmt ap') as [r |] eqn:Hr; [| discriminate].
    injection Hb as <-.
    apply emits_present; [reflexivity | apply emits_write_number |].
    now apply IH. }
  destruct (f =? ch "s") eqn:Ts.
  { apply Z.eqb_eq in Ts. subst f. eval_tests.
    destruct ap as [| [n | rev | [s |] | [s |]] ap']; try discriminate;
      cbn [arg_wire] in Hb; eval_tests; try discriminate.
    destruct (tuple_body fmt ap') as [r |] eqn:Hr; [| discriminate].
    injection Hb as <-.
    apply emits_present; [reflexivity | apply emits_write_string |].
    now apply IH. }
  destruct (f =? ch "c") eqn:Tc.
  { apply Z.eqb_eq in Tc. subst f. eval_tests.
    destruct ap as [| [n | rev | [s |] | [s |]] ap']; try discriminate;
      cbn [arg_wire] in Hb; eval_tests; try discriminate.
    destruct (tuple_body fmt ap') as [r |] eqn:Hr; [| discriminate].
    injection Hb as <-.
    apply emits_present; [reflexivity | apply emits_write_cstring |].
    now apply IH. }
  destruct (f =? ch "w") eqn:Tw.
  { apply Z.eqb_eq in Tw. subst f. eval_tests.
    destruct ap as [| [n | rev | [s |] | [s |]] ap']; try discriminate;
      cbn [arg_wire] in Hb; eval_tests; try discriminate.
    destruct (tuple_body fmt ap') as [r |] eqn:Hr; [| discriminate].
    injection Hb as <-.
    apply emits_present; [reflexivity | apply emits_write_word |].
    now apply IH. }
  destruct (f =? ch "[") eqn:H1.
  { cbn [orb] in Hb. eapply Hgrp; [apply emits_start_list | exact Hb]. }
  destruct (f =? ch "]") eqn:H2.
  { apply Z.eqb_eq in H2. subst f. eval_tests.
    eapply Hgrp; [apply emits_end_list | exact Hb]. }
  destruct (f =? ch "(") eqn:H3.
  { cbn [orb] in Hb. eapply Hgrp; [apply emits_start_list | exact Hb]. }
  destruct (f =? ch ")") eqn:H4.
  { cbn [orb] in Hb. eapply Hgrp; [apply emits_end_list | exact Hb]. }
  cbn [orb] in Hb. destruct ap as [| a ap']; [discriminate |].
  assert (Ha : arg_wire f a = None).
  { destruct a as [n | rev | [s |] | [s |]]; cbn [arg_wire];
      rewrite ?Tn, ?Tr, ?Ts, ?Tc, ?Tw; reflexivity. }
  rewrite Ha in Hb. discriminate.
Qed.

Lemma emits_vwrite_tuple (fmt : list byte) (ap : list arg)
    (body : list byte) :
  tuple_body (c_str fmt) ap = Some body ->
  emits (svn_ra_svn_vwrite_tuple fmt ap)
        (bytes_of "( " ++ body ++ bytes_of ") ").
Proof.
  intros Hb. unfold svn_ra_svn_vwrite_tuple.
  apply emits_bind; [apply emits_start_list |].
  apply emits_bind; [now apply emits_vwrite_tuple_loop | apply emits_end_list].
Qed.

Lemma missing_cases (f : byte) (a : arg) :
  missing f a = true ->
  (exists rev, f = ch "r" /\ a = ArgRev rev /\
               SVN_IS_VALID_REVNUM E rev = false) \/
  (f = ch "s" /\ a = ArgString None) \/
  (f = ch "c" /\ a = ArgCstr None) \/
  (f = ch "w" /\ a = ArgCstr None).
Proof.
  destruct a as [n | rev | [s |] | [s |]]; cbn [missing]; try discriminate.
  - rewrite andb_true_iff, negb_true_iff, Z.eqb_eq. intros [-> Hv].
    left. exists rev. auto.
  - rewrite Z.eqb_eq. auto.
  - rewrite orb_true_iff, !Z.eqb_eq. intros [-> | ->]; auto.
Qed.

(** C9.  In [svn_ra_svn_vwrite_tuple] a '[' writes a list start and
    raises the optional depth by one, a ']' writes a list end and lowers
    it by one; a missing value (an invalid revision for r, a null pointer
    for s, c or w) is skipped, nothing being written, while the depth is
    positive, and fails the assertion while the depth is zero; and with
    no '[' in the format and every argument present and valid, no
    assertion fails and the tuple holds the wire form of every
    argument. *)
Theorem vwrite_tuple_optional (fmt : list byte) (ap : list arg) (opt : Z)
    (c : svn_ra_svn_conn_t) :
  vwrite_tuple_loop (ch "[" :: fmt) ap opt c
  = (svn_ra_svn_start_list ;;; vwrite_tuple_loop fmt ap (opt + 1)) c /\
  vwrite_tuple_loop (ch "]" :: fmt) ap opt c
  = (svn_ra_svn_end_list ;;; vwrite_tuple_loop fmt ap (opt - 1)) c /\
  (forall f a, missing f a = true -> 0 < opt ->
     vwrite_tuple_loop (f :: fmt) (a :: ap) opt c
     = vwrite_tuple_loop fmt ap opt c) /\
  (forall f a, missing f a = true -> opt = 0 ->
     vwrite_tuple_loop (f :: fmt) (a :: ap) opt c
     = (Crash AssertionFailed, c)) /\
  (~ In (ch "[") (c_str fmt) -> all_present ap = true ->
   fst (svn_ra_svn_vwrite_tuple fmt ap c) <> Crash AssertionFailed /\
   forall body,
     tuple_body (c_str fmt) ap = Some body -> writes_ok c ->
     fst (svn_ra_svn_vwrite_tuple fmt ap c) = Ok tt /\
     written c (snd (svn_ra_svn_vwrite_tuple fmt ap c))
     = bytes_of "( " ++ body ++ bytes_of ") ").
Proof.
  split; [cbn [vwrite_tuple_loop]; eval_tests; reflexivity |].
  split; [cbn [vwrite_tuple_loop]; eval_tests; reflexivity |].
  split; [| split].
  - intros f a Hm Hopt. apply Z.ltb_lt in Hopt.
    destruct (missing_cases f a Hm)
      as [(rev & -> & -> & Hv) | [[-> ->] | [[-> ->] | [-> ->]]]];
      cbn [vwrite_tuple_loop]; eval_tests; unfold bind, assert;
      rewrite ?Hv, Hopt; reflexivity.
  - intros f a Hm Hopt. subst opt.
    destruct (missing_cases f a Hm)
      as [(rev & -> & -> & Hv) | [[-> ->] | [[-> ->] | [-> ->]]]];
      cbn [vwrite_tuple_loop]; eval_tests; unfold bind, assert;
      rewrite ?Hv; reflexivity.
  - intros _ Hap. split.
    + unfold svn_ra_svn_vwrite_tuple.
      apply never_asserts_bind;
        [apply never_crashes_asserts, never_crashes_writebuf_write |].
      intros _. apply never_asserts_bind;
        [now apply vwrite_tuple_loop_never_asserts |].
      intros _. apply never_crashes_asserts, never_crashes_writebuf_write.
    + intros body Hb Hw.
      apply emits_written; [now apply emits_vwrite_tuple | exact Hw].
Qed.

(** ** The flush that precedes a read *)

Lemma errors_in_bind {A B} (P : svn_error_t -> Prop) (m : M A)
    (k : A -> M B) :
  errors_in P m -> (forall a, errors_in P (k a)) -> errors_in P (bind m k).
Proof.
  intros Hm Hk c e. unfold bind. specialize (Hm c).
  destruct (m c) as [[a | e' | y |] c']; cbn [fst] in *;
    try discriminate; [apply Hk |].
  intros H. injection H as <-. now apply Hm.
Qed.

Lemma writebuf_flush_loop_error (fuel : nat) (count : Z) :
  errors_in write_failure (writebuf_flush_loop fuel count).
Proof.
  revert count. induction fuel as [| fuel IH]; intros count c e;
    cbn [writebuf_flush_loop]; destruct (count <? write_pos c);
    try discriminate.
  destruct (SOCK_WRITE _ _) as [r s']. destruct (r <? 0); [| apply IH].
  cbn [fst]. intros H. injection H as <-. reflexivity.
Qed.

Lemma readbuf_fill_error : errors_in read_failure readbuf_fill.
Proof.
  intros c e. unfold readbuf_fill, ignore.
  destruct (negb _); [discriminate |].
  destruct (SOCK_READ _ _) as [[r data] s'].
  destruct (r <? 0); [| destruct (r =? 0); [| discriminate]];
    cbn [fst]; intros H; injection H as <-; unfold read_failure; cbn; auto.
Qed.

Lemma readbuf_getchar_error : errors_in read_failure readbuf_getchar.
Proof.
  apply errors_in_bind; [| discriminate].
  intros c e. destruct (_ =? _); [apply readbuf_fill_error | discriminate].
Qed.

Lemma readbuf_getchar_skip_whitespace_error (fuel : nat) :
  errors_in read_failure (readbuf_getchar_skip_whitespace fuel).
Proof.
  induction fuel as [| fuel IH]; cbn [readbuf_getchar_skip_whitespace];
    [discriminate |].
  apply errors_in_bind; [apply readbuf_getchar_error |].
  intros r. destruct (svn_iswhitespace r); [exact IH | discriminate].
Qed.

Lemma readbuf_read_direct_error (fuel : nat) (n : Z) (got : list byte) :
  errors_in read_failure (readbuf_read_direct fuel n got).
Proof.
  revert got. induction fuel as [| fuel IH]; intros got c e;
    cbn [readbuf_read_direct]; destruct (_ <? _); try discriminate.
  unfold ignore. destruct (SOCK_READ _ _) as [[r data] s'].
  destruct (r <? 0); [| destruct (r =? 0); [| apply IH]];
    cbn [fst]; intros H; injection H as <-; unfold read_failure; cbn; auto.
Qed.

Lemma readbuf_read_buffered_error (fuel : nat) (n : Z) (got : list byte) :
  errors_in read_failure (readbuf_read_buffered fuel n got).
Proof.
  revert got. induction fuel as [| fuel IH]; intros got c e;
    cbn [readbuf_read_buffered]; destruct (_ <? _); try discriminate.
  revert c e. apply errors_in_bind; [apply readbuf_fill_error |].
  intros _ c e. destruct (readbuf_drain c _) as [data c2]. apply IH.
Qed.

Lemma readbuf_read_error (fuel : nat) (n : Z) :
  errors_in read_failure (readbuf_read fuel n).
Proof.
  intros c e. unfold readbuf_read.
  destruct (readbuf_drain c n) as [data c1]. revert c1 e.
  apply errors_in_bind; [apply readbuf_read_direct_error |].
  intros got. apply readbuf_read_buffered_error.
Qed.

Lemma read_failure_not_write (e : svn_error_t) :
  read_failure e -> ~ write_failure e.
Proof.
  unfold read_failure, write_failure. intros Hr Hw. rewrite Hw in Hr.
  cbn in Hr. intuition discriminate.
Qed.

(** C10.  When the flush of the write buffer fails on a connection, a
    read on that connection goes on all the same: [readbuf_fill] and
    [readbuf_read] (its direct path included) still return the bytes the
    peer sent, and no error a read operation returns is the write
    failure of the flush. *)
Theorem flush_error_discarded (c c1 : svn_ra_svn_conn_t) (e : svn_error_t)
    (fuel : nat) (want rest : list byte) :
  writebuf_flush c = (Err e, c1) -> reads_ok c ->
  pending c = want ++ rest -> want <> [] -> len want <= Z.of_nat fuel ->
  write_failure e /\
  (read_ptr c = read_end c -> fst (readbuf_fill c) = Ok tt) /\
  fst (readbuf_read fuel (len want) c) = Ok want /\
  (forall e' n,
     fst (readbuf_fill c) = Err e' \/ fst (readbuf_getchar c) = Err e' \/
     fst (readbuf_getchar_skip_whitespace fuel c) = Err e' \/
     fst (readbuf_read fuel n c) = Err e' ->
     ~ write_failure e').
Proof.
  intros Hflush Hr Hp Hne Hf. split; [| split; [| split]].
  - apply (writebuf_flush_loop_error (Z.to_nat (write_pos c)) 0 c).
    unfold writebuf_flush in Hflush. now rewrite Hflush.
  - intros Hempty.
    destruct (readbuf_fill_ok c Hr Hempty) as (c' & He & _); [| now rewrite He].
    unfold pending in Hp. rewrite Hempty, Z.sub_diag in Hp.
    unfold seg in Hp. rewrite take_nonpos in Hp by lia. cbn [app] in Hp.
    rewrite Hp. now destruct want.
  - destruct (readbuf_read_ok fuel (len want) want rest c Hr Hp eq_refl Hf)
      as (c' & He & _).
    now rewrite He.
  - intros e' n H. apply read_failure_not_write.
    destruct H as [H | [H | [H | H]]].
    + now apply (readbuf_fill_error c).
    + now apply (readbuf_getchar_error c).
    + now apply (readbuf_getchar_skip_whitespace_error fuel c).
    + now apply (readbuf_read_error fuel n c).
Qed.

(** ** Failure responses *)

Lemma error_ind_nested (P : svn_error_t -> Prop) :
  (forall code src msg fname ln, P (mk_error code src msg None fname ln)) ->
  (forall code src msg e fname ln,
     P e -> P (mk_error code src msg (Some e) fname ln)) ->
  forall e, P e.
Proof.
  intros Hleaf Hnode. fix IH 1. intros [code src msg [e |] fname ln].
  - apply Hnode, IH.
  - apply Hleaf.
Qed.

Lemma chain_unfold (e : svn_error_t) :
  chain e = e :: match child e with Some e' => chain e' | None => [] end.
Proof. now destruct e. Qed.

Lemma emits_write_link (e : svn_error_t) :
  link_present e = true ->
  emits (svn_ra_svn_write_tuple (bytes_of "nccn")
           [ArgNumber (to_uint64 (apr_err e)); ArgCstr (message e);
            ArgCstr (file e); ArgNumber (to_uint64 (line e))])
        (wire (link_item e)).
Proof.
  unfold link_present. intros H. apply andb_true_iff in H.
  destruct H as [Hm Hf].
  destruct (message e) as [m |] eqn:Em; [| discriminate].
  destruct (file e) as [f |] eqn:Ef; [| discriminate].
  unfold link_item, svn_ra_svn_write_tuple. rewrite Em, Ef.
  cbn [wire flat_map text_of].
  apply emits_vwrite_tuple. reflexivity.
Qed.

Lemma emits_write_cmd_failure_loop (e : svn_error_t) :
  forallb link_present (chain e) = true ->
  emits (write_cmd_failure_loop e) (flat_map wire (map link_item (chain e))).
Proof.
  induction e as [code src msg fname ln | code src msg e fname ln IH]
    using error_ind_nested;
    cbn [chain forallb map flat_map write_cmd_failure_loop];
    rewrite andb_true_iff; intros [Hl Hc];
    (apply emits_bind; [now apply (emits_write_link _ Hl) |]).
  - apply emits_ret.
  - now apply IH.
Qed.

Lemma emits_write_cmd_failure (e : svn_error_t) :
  forallb link_present (chain e) = true ->
  emits (svn_ra_svn_write_cmd_failure (Some e)) (wire (failure_response e)).
Proof.
  intros H.
  replace (wire (failure_response e))
    with (bytes_of "( " ++ (c_str (bytes_of "failure") ++ bytes_of " ")
          ++ bytes_of "( " ++ flat_map wire (map link_item (chain e))
          ++ bytes_of ") " ++ bytes_of ") ")
    by (unfold failure_response; cbn [wire flat_map];
        now rewrite app_nil_r, <- !app_assoc).
  unfold svn_ra_svn_write_cmd_failure.
  apply emits_bind; [apply emits_start_list |].
  apply emits_bind; [apply emits_write_word |].
  apply emits_bind; [apply emits_start_list |].
  apply emits_bind; [now apply emits_write_cmd_failure_loop |].
  apply emits_bind; [apply emits_end_list | apply emits_end_list].
Qed.

Lemma no_nul_c_str (s : list byte) : no_nul s = true -> c_str s = s.
Proof.
  intros H. apply c_str_id, Forall_forall. intros b Hb.
  unfold no_nul in H. rewrite forallb_forall in H. specialize (H b Hb).
  apply negb_true_iff, Z.eqb_neq in H. exact H.
Qed.

Lemma text_ok_text (p : option (list byte)) :
  text_ok p = true ->
  exists s, p = Some s /\ text_of p = s /\ c_str s = s /\ len s < 2 ^ 64.
Proof.
  destruct p as [s |]; cbn [text_ok text_of]; [| discriminate].
  rewrite andb_true_iff, Z.ltb_lt. intros [Hn Hl].
  exists s. rewrite (no_nul_c_str s Hn). repeat split; lia.
Qed.

Lemma link_ok_facts (e : svn_error_t) :
  link_ok e = true ->
  0 <= apr_err e < 2 ^ 31 /\ 0 <= line e < 2 ^ 63 /\
  text_ok (message e) = true /\ text_ok (file e) = true.
Proof.
  unfold link_ok. rewrite !andb_true_iff.
  intros (((((H1 & H2) & H3) & H4) & H5) & H6).
  apply Z.leb_le in H1, H3. apply Z.ltb_lt in H2, H4. auto.
Qed.

Lemma link_ok_present (e : svn_error_t) :
  link_ok e = true -> link_present e = true.
Proof.
  intros H. apply link_ok_facts in H. destruct H as (_ & _ & Hm & Hf).
  unfold link_present.
  destruct (message e), (file e); try discriminate. reflexivity.
Qed.

Lemma link_ok_item (e : svn_error_t) :
  link_ok e = true -> item_ok (link_item e) = true.
Proof.
  intros H. apply link_ok_facts in H. destruct H as (Hc & Hl & Hm & Hf).
  destruct (text_ok_text _ Hm) as (m & _ & Tm & _ & Hlm).
  destruct (text_ok_text _ Hf) as (f & _ & Tf & _ & Hlf).
  unfold link_item, to_uint64. rewrite Tm, Tf. cbn [item_ok forallb].
  rewrite !Z.mod_small by lia.
  repeat (apply andb_true_iff; split); lia.
Qed.

Lemma link_ok_peer (e : svn_error_t) (chld : option svn_error_t) :
  link_ok e = true -> link_fields (peer_link e chld) = link_fields e.
Proof.
  intros H. apply link_ok_facts in H. destruct H as (Hc & Hl & Hm & Hf).
  destruct (text_ok_text _ Hm) as (m & Em & Tm & Hcm & _).
  destruct (text_ok_text _ Hf) as (f & Ef & Tf & Hcf & _).
  unfold link_fields, peer_link, to_int32, to_int64, to_uint64.
  cbn [apr_err message file line].
  rewrite Tm, Tf, Em, Ef, Hcm, Hcf.
  rewrite (Z.mod_small (apr_err e)) by lia.
  rewrite (Z.mod_small (line e)) by lia.
  rewrite !Z.mod_small by lia. repeat f_equal; lia.
Qed.

Lemma read_cmd_response_errors_spec (es : list svn_error_t)
    (err : option svn_error_t) :
  read_cmd_response_errors (map link_item es) err
  = Ok (fold_left (fun acc e => Some (peer_link e acc)) es err).
Proof.
  revert err. induction es as [| e es IH]; intros err; [reflexivity |].
  cbn [map fold_left]. rewrite <- IH. reflexivity.
Qed.

(** The chain rebuilt from the entries of a failure response says, link
    by link, what the chain that was sent says. *)
Lemma rebuilt_chain (e : svn_error_t) :
  forallb link_ok (chain e) = true ->
  exists e',
    fold_right (fun e acc => Some (peer_link e acc)) None (chain e)
    = Some e' /\
    map link_fields (chain e') = map link_fields (chain e) /\
    Forall (fun l => src_err l = 0) (chain e').
Proof.
  induction e as [code src msg fname ln | code src msg e fname ln IH]
    using error_ind_nested;
    cbn [chain forallb fold_right]; rewrite andb_true_iff; intros [Hl Hc].
  - eexists. split; [reflexivity |]. rewrite chain_unfold.
    cbn [child peer_link map]. split.
    + f_equal. now apply link_ok_peer.
    + repeat constructor.
  - destruct (IH Hc) as (e' & He & Hm & Hs). rewrite He.
    eexists. split; [reflexivity |]. rewrite chain_unfold.
    cbn [child peer_link map]. split.
    + f_equal; [now apply link_ok_peer | exact Hm].
    + constructor; [reflexivity | exact Hs].
Qed.

Lemma failure_response_ok (e : svn_error_t) :
  forallb link_ok (chain e) = true -> item_ok (failure_response e) = true.
Proof.
  intros H.
  assert (Hl : forallb item_ok (map link_item (chain e)) = true).
  { rewrite forallb_forall in *.
    intros i Hi. apply in_map_iff in Hi. destruct Hi as (x & <- & Hx).
    apply link_ok_item. now apply H. }
  unfold failure_response. cbn [item_ok forallb]. rewrite Hl. reflexivity.
Qed.

Lemma last_map_fields (l1 l2 : list svn_error_t) (d1 d2 : svn_error_t) :
  l1 <> [] -> map link_fields l1 = map link_fields l2 ->
  link_fields (last l1 d1) = link_fields (last l2 d2).
Proof.
  revert l2. induction l1 as [| a l1 IH]; intros [| b l2] Hne Hm;
    try congruence; try discriminate.
  cbn [map] in Hm.
  assert (Hab : link_fields a = link_fields b) by congruence.
  assert (Hm' : map link_fields l1 = map link_fields l2) by congruence.
  destruct l1 as [| a' l1], l2 as [| b' l2]; try discriminate.
  - exact Hab.
  - apply (IH (b' :: l2)); [discriminate | exact Hm'].
Qed.

(** C5, as the code has it.  A chain each link of which has a code from
    0 to 2^31 - 1, a line number from 0 to 2^63 - 1, and a message and a
    file name that are C strings shorter than 2^64 - 1 bytes, written as
    a failure response by [svn_ra_svn_write_cmd_failure] and read by
    [svn_ra_svn_read_cmd_response], comes back as a chain that says the
    same, link by link and in the same order (code, message, file name
    and line number): the outermost error of the peer is the outermost
    of the sender, and the innermost cause of the peer is the innermost
    of the sender; every link of the peer's chain has [src_err] 0. *)
Theorem failure_roundtrip (e : svn_error_t) (cw cr : svn_ra_svn_conn_t)
    (rest fmt : list byte) (fuel : nat) :
  forallb link_ok (chain e) = true -> writes_ok cw -> reads_ok cr ->
  pending cr
  = written cw (snd (svn_ra_svn_write_cmd_failure (Some e) cw)) ++ rest ->
  len (written cw (snd (svn_ra_svn_write_cmd_failure (Some e) cw)))
  <= Z.of_nat fuel ->
  fst (svn_ra_svn_write_cmd_failure (Some e) cw) = Ok tt /\
  exists e' cr',
    svn_ra_svn_read_cmd_response fuel fmt cr = (Err e', cr') /\
    pending cr' = rest /\
    map link_fields (chain e') = map link_fields (chain e) /\
    link_fields (outermost e') = link_fields (outermost e) /\
    link_fields (innermost e') = link_fields (innermost e) /\
    Forall (fun l => src_err l = 0) (chain e').
Proof.
  intros Hok Hw Hr Hp Hf.
  assert (Hpres : forallb link_present (chain e) = true).
  { rewrite forallb_forall in *. intros x Hx. now apply link_ok_present, Hok. }
  destruct (emits_written _ _ cw (emits_write_cmd_failure e Hpres) Hw)
    as [He Hwr].
  split; [exact He |]. rewrite Hwr in Hp, Hf.
  destruct (read_item_ok (failure_response e) cr rest fuel
              (failure_response_ok e Hok) Hr Hp Hf) as (cr' & Hread & Hp' & _).
  destruct (rebuilt_chain e Hok) as (e' & Hre & Hm & Hsrc).
  exists e', cr'.
  assert (Hresp :
    svn_ra_svn_read_cmd_response fuel fmt cr = (Err e', cr')).
  { unfold svn_ra_svn_read_cmd_response, svn_ra_svn_read_tuple, bind at 1.
    unfold bind. rewrite Hread. unfold failure_response.
    change (lift (svn_ra_svn_vparse_tuple
                    [WORD (bytes_of "failure");
                     LIST (map link_item (chain e))] (bytes_of "wl")) cr')
      with (Ok [PCstr (bytes_of "failure");
                PList (map link_item (chain e))], cr').
    cbv iota.
    change (strcmp0 (bytes_of "failure") (bytes_of "success")) with false.
    change (strcmp0 (bytes_of "failure") (bytes_of "failure")) with true.
    cbv iota.
    assert (Hlen : (len (map link_item (chain e)) =? 0) = false).
    { rewrite chain_unfold. unfold len. cbn [map List.length].
      apply Z.eqb_neq. lia. }
    rewrite Hlen, <- map_rev, read_cmd_response_errors_spec.
    rewrite <- (rev_involutive (chain e)) in Hre.
    rewrite fold_left_rev_right in Hre. rewrite Hre. reflexivity. }
  split; [exact Hresp |]. split; [exact Hp' |]. split; [exact Hm |].
  split; [| split; [| exact Hsrc]].
  - unfold outermost. rewrite (chain_unfold e'), (chain_unfold e) in Hm.
    cbn [map] in Hm. congruence.
  - unfold innermost. apply last_map_fields; [| exact Hm].
    rewrite chain_unfold. discriminate.
Qed.

(** ** Errors that cannot be written *)

Lemma emits_then (m : M unit) (x : list byte) (c : svn_ra_svn_conn_t) :
  emits m x -> writes_ok c ->
  exists c1, writes_ok c1 /\ forall k : M unit, (m ;;; k) c = k c1.
Proof.
  intros Hm Hw. destruct (Hm c Hw) as (c1 & He & _ & Hw1).
  exists c1. split; [exact Hw1 |]. intros k. unfold bind. now rewrite He.
Qed.

Lemma bind_crash {A B} (m : M A) (k : A -> M B) (c : svn_ra_svn_conn_t)
    (x : crash) :
  fst (m c) = Crash x -> fst (bind m k c) = Crash x.
Proof.
  unfold bind. destruct (m c) as [[a | e | y | ] c1]; cbn [fst];
    try discriminate.
  now intros [= ->].
Qed.

Lemma write_link_asserts (e : svn_error_t) (c : svn_ra_svn_conn_t) :
  writes_ok c -> link_present e = false ->
  fst (svn_ra_svn_write_tuple (bytes_of "nccn")
         [ArgNumber (to_uint64 (apr_err e)); ArgCstr (message e);
          ArgCstr (file e); ArgNumber (to_uint64 (line e))] c)
  = Crash AssertionFailed.
Proof.
  intros Hw Hp. unfold svn_ra_svn_write_tuple, svn_ra_svn_vwrite_tuple.
  change (c_str (bytes_of "nccn")) with [ch "n"; ch "c"; ch "c"; ch "n"].
  destruct (emits_then _ _ c emits_start_list Hw) as (c1 & Hw1 & ->).
  apply bind_crash. cbn [vwrite_tuple_loop].
  change (ch "n" =? ch "n") with true. change (ch "c" =? ch "n") with false.
  change (ch "c" =? ch "r") with false. change (ch "c" =? ch "s") with false.
  change (ch "c" =? ch "c") with true. cbv iota.
  destruct (emits_then _ _ c1 (emits_write_number (to_uint64 (apr_err e))) Hw1)
    as (c2 & Hw2 & ->).
  unfold link_present in Hp.
  destruct (message e) as [m |]; cbn [non_null] in *.
  - destruct (file e) as [f |]; [discriminate |].
    change ((0 <? 0) || true) with true. unfold assert at 1.
    destruct (emits_then _ _ c2 emits_ret Hw2) as (c3 & Hw3 & ->).
    destruct (emits_then _ _ c3 (emits_write_cstring m) Hw3)
      as (c4 & Hw4 & ->).
    reflexivity.
  - reflexivity.
Qed.

Lemma write_cmd_failure_loop_asserts (e : svn_error_t) :
  forall c, writes_ok c -> forallb link_present (chain e) = false ->
  fst (write_cmd_failure_loop e c) = Crash AssertionFailed.
Proof.
  induction e as [code src msg fname ln | code src msg e fname ln IH]
    using error_ind_nested; intros c Hw;
    cbn [chain forallb write_cmd_failure_loop];
    set (l := mk_error code src msg _ fname ln);
    destruct (link_present l) eqn:Hl; cbn [andb].
  - discriminate.
  - intros _. apply bind_crash. now apply (write_link_asserts l).
  - intros Hc.
    destruct (emits_then _ _ c (emits_write_link l Hl) Hw) as (c1 & Hw1 & Hk).
    subst l. cbn [apr_err message file line] in Hk. rewrite Hk.
    now apply IH.
  - intros _. apply bind_crash. now apply (write_link_asserts l).
Qed.

(** ** The command loop *)

Lemma handle_commands_step (fuel : nat)
    (commands : list svn_ra_svn_cmd_entry_t) (pass_through_errors : bool)
    (c c0 : svn_ra_svn_conn_t) (name : list byte)
    (params : list svn_ra_svn_item_t) (entry : svn_ra_svn_cmd_entry_t) :
  svn_ra_svn_read_tuple fuel (bytes_of "wl") c
  = (Ok [PCstr name; PList params], c0) ->
  find_command commands name = Some entry ->
  svn_ra_svn_handle_commands (S fuel) commands pass_through_errors c
  = (again <- handle_command entry name params pass_through_errors ;;
     if again
     then svn_ra_svn_handle_commands fuel commands pass_through_errors
     else ret tt) c0.
Proof.
  intros Hread Hfind. cbn [svn_ra_svn_handle_commands].
  unfold bind at 1. rewrite Hread, Hfind. reflexivity.
Qed.

(** C3, as the code has it.  An error that a handler returns and that
    is not the [SVN_ERR_RA_SVN_CMD_ERR] wrapper leaves the loop at once,
    nothing being written, whether [pass_through_errors] is set or not.
    A wrapper stands for its cause.  With no cause nothing is written
    and the loop goes on (or ends, after a terminal command), whether
    [pass_through_errors] is set or not.  A cause is written as a
    failure response, for which every link needs a message and a file
    name: with a link that lacks one the assertion of the tuple writer
    fails and the program ends there.  When the write returns, its
    error, if any, is dropped: the cause leaves the loop if
    [pass_through_errors] is set, and the loop goes on (or ends, after a
    terminal command) if it is not. *)
Theorem handler_error_dispatch (fuel : nat)
    (commands : list svn_ra_svn_cmd_entry_t) (pass_through_errors : bool)
    (c c0 c1 : svn_ra_svn_conn_t) (name nm : list byte)
    (params : list svn_ra_svn_item_t) (entry : svn_ra_svn_cmd_entry_t)
    (e : svn_error_t) :
  svn_ra_svn_read_tuple fuel (bytes_of "wl") c
  = (Ok [PCstr name; PList params], c0) ->
  find_command commands name = Some entry -> cmdname entry = Some nm ->
  handler entry params c0 = (Err e, c1) ->
  let loop :=
    svn_ra_svn_handle_commands (S fuel) commands pass_through_errors c in
  let next c' :=
    if terminate entry then (Ok tt, c')
    else svn_ra_svn_handle_commands fuel commands pass_through_errors c' in
  (apr_err e <> SVN_ERR_RA_SVN_CMD_ERR -> loop = (Err e, c1)) /\
  (apr_err e = SVN_ERR_RA_SVN_CMD_ERR -> child e = None ->
   loop = next c1) /\
  (apr_err e = SVN_ERR_RA_SVN_CMD_ERR ->
   forall cause, child e = Some cause ->
     let r := svn_ra_svn_write_cmd_failure (Some cause) c1 in
     (writes_ok c1 -> forallb link_present (chain cause) = true ->
      fst r = Ok tt /\ written c1 (snd r) = wire (failure_response cause)) /\
     (writes_ok c1 -> forallb link_present (chain cause) = false ->
      loop = (Crash AssertionFailed, snd r)) /\
     (forall k, fst r = Crash k -> loop = (Crash k, snd r)) /\
     (fst r = Ok tt \/ (exists e', fst r = Err e') ->
      loop = if pass_through_errors then (Err cause, snd r)
             else next (snd r))).
Proof.
  intros Hread Hfind Hname Hh loop next. subst loop.
  rewrite (handle_commands_step fuel commands pass_through_errors c c0
             name params entry Hread Hfind).
  unfold handle_command, bind. rewrite Hname, Hh.
  split; [| split].
  - intros Hne. apply Z.eqb_neq in Hne. now rewrite Hne.
  - intros Heq Hc. apply Z.eqb_eq in Heq. rewrite Heq, Hc.
    subst next. cbn [ret negb]. destruct (terminate entry); reflexivity.
  - intros Heq cause Hc. apply Z.eqb_eq in Heq. rewrite Heq, Hc.
    unfold ignore_error.
    set (r := svn_ra_svn_write_cmd_failure (Some cause) c1).
    assert (Hwritten : writes_ok c1 ->
              forallb link_present (chain cause) = true ->
              fst r = Ok tt /\
              written c1 (snd r) = wire (failure_response cause)).
    { intros Hw Hp.
      apply emits_written; [now apply emits_write_cmd_failure | exact Hw]. }
    assert (Hassert : writes_ok c1 ->
              forallb link_present (chain cause) = false ->
              fst r = Crash AssertionFailed).
    { intros Hw Hp. subst r. unfold svn_ra_svn_write_cmd_failure.
      destruct (emits_then _ _ c1 emits_start_list Hw) as (d1 & Hw1 & ->).
      destruct (emits_then _ _ d1 (emits_write_word (bytes_of "failure"))
                  Hw1) as (d2 & Hw2 & ->).
      destruct (emits_then _ _ d2 emits_start_list Hw2) as (d3 & Hw3 & ->).
      apply bind_crash. now apply write_cmd_failure_loop_asserts. }
    clearbody r. subst next.
    destruct r as [[[] | e' | x |] c2]; cbn [fst snd] in *;
      (split; [exact Hwritten |]); (split; [| split]).
    + intros Hw Hp. discriminate (Hassert Hw Hp).
    + discriminate.
    + intros _.
      destruct pass_through_errors; cbn [fail ret negb]; [reflexivity |].
      destruct (terminate entry); reflexivity.
    + intros Hw Hp. discriminate (Hassert Hw Hp).
    + discriminate.
    + intros _.
      destruct pass_through_errors; cbn [fail ret negb]; [reflexivity |].
      destruct (terminate entry); reflexivity.
    + intros Hw Hp. now rewrite <- (Hassert Hw Hp).
    + now intros k [= ->].
    + intros [Hr | [e' Hr]]; discriminate.
    + intros Hw Hp. discriminate (Hassert Hw Hp).
    + discriminate.
    + intros [Hr | [e' Hr]]; discriminate.
Qed.

(** ** Further properties of the write path *)

Lemma writebuf_flush_loop_fails (fuel : nat) (count : Z)
    (c c' : svn_ra_svn_conn_t) (e : svn_error_t) :
  buffers_ok c -> 0 <= count <= write_pos c ->
  writebuf_flush_loop fuel count c = (Err e, c') ->
  apr_err e = SVN_ERR_RA_SVN_IO_ERROR /\ src_err e = errno (sock c') /\
  write_pos c' = write_pos c /\ write_buf c' = write_buf c /\
  exists k,
    count <= k < write_pos c /\
    outbox (sock c') = outbox (sock c) ++ seg (write_buf c) count (k - count).
Proof.
  revert count c. induction fuel as [| fuel IH]; intros count c Hb Hc;
    cbn [writebuf_flush_loop];
    destruct (count <? write_pos c) eqn:Hlt; try discriminate.
  apply Z.ltb_lt in Hlt.
  pose proof Hb as ((_ & _ & _ & Hwp) & _ & _ & Hwl).
  assert (Hseg : len (seg (write_buf c) count (write_pos c - count))
                 = write_pos c - count).
  { unfold seg. rewrite len_take, len_drop. lia. }
  destruct (SOCK_WRITE _ _) as [r s'] eqn:Hw.
  apply SOCK_WRITE_spec in Hw.
  destruct Hw as (_ & _ & _ & [(-> & Ho & _) | (Hr1 & Hr2 & Ho)]).
  - cbn [Z.ltb Z.compare]. intros H. injection H as <- <-. fields.
    repeat split. exists count. split; [lia |].
    rewrite Ho, Z.sub_diag. unfold seg. rewrite take_nonpos by lia.
    now rewrite app_nil_r.
  - rewrite Hseg in *.
    destruct (r <? 0) eqn:Hneg; [apply Z.ltb_lt in Hneg; lia |].
    intros H. apply IH in H; fields; [| exact Hb | lia].
    destruct H as (He1 & He2 & Hp & Hbuf & k & Hk & Hout).
    repeat split; auto. exists k. split; [lia |].
    rewrite Hout, Ho, <- app_assoc. f_equal.
    rewrite take_seg by lia.
    rewrite <- seg_split by lia. f_equal. lia.
Qed.

(** X1.  [writebuf_write] hands its data over in order: on a connection
    whose socket writes do not fail it succeeds, whatever the sizes of the
    data and of the buffer and however short the socket cuts each write,
    and the bytes delivered to the peer followed by the bytes waiting in
    the buffer are those of before followed by the data. *)
Theorem writebuf_write_in_order (data : list byte)
    (c : svn_ra_svn_conn_t) :
  writes_ok c ->
  fst (writebuf_write data c) = Ok tt /\
  sent (snd (writebuf_write data c)) = sent c ++ data /\
  writes_ok (snd (writebuf_write data c)).
Proof.
  intros Hw. destruct (writebuf_write_ok data c Hw) as (c' & He & Hs & Hw').
  rewrite He. auto.
Qed.

(** X2.  A flush that meets no write failure empties the write buffer
    and leaves every byte written so far delivered to the peer, in
    order. *)
Theorem flush_delivers_all (c : svn_ra_svn_conn_t) :
  writes_ok c ->
  fst (svn_ra_svn_flush c) = Ok tt /\
  write_pos (snd (svn_ra_svn_flush c)) = 0 /\
  outbox (sock (snd (svn_ra_svn_flush c))) = sent c.
Proof.
  intros Hw. unfold svn_ra_svn_flush.
  destruct (writebuf_flush_ok c Hw) as (c' & He & Hs & Hp & _).
  rewrite He. cbn [fst snd]. repeat split; [exact Hp |].
  now rewrite <- Hs, sent_empty_buffer.
Qed.

(** X3.  A flush that fails returns the I/O error with the [errno] of the
    failed write and forgets how far it had come: the write buffer and
    [write_pos] are as before, although a part of the buffer may already
    have been delivered to the peer. *)
Theorem flush_failure_keeps_buffer (c c' : svn_ra_svn_conn_t)
    (e : svn_error_t) :
  buffers_ok c -> writebuf_flush c = (Err e, c') ->
  apr_err e = SVN_ERR_RA_SVN_IO_ERROR /\ src_err e = errno (sock c') /\
  write_pos c' = write_pos c /\ write_buf c' = write_buf c /\
  exists k,
    0 <= k < write_pos c /\
    outbox (sock c') = outbox (sock c) ++ take k (write_buf c).
Proof.
  intros Hb Hf. pose proof Hb as ((_ & _ & Hw0 & _) & _).
  destruct (writebuf_flush_loop_fails _ 0 c c' e Hb ltac:(lia) Hf)
    as (H1 & H2 & H3 & H4 & k & Hk & Ho).
  repeat split; auto. exists k. split; [exact Hk |].
  rewrite Ho. unfold seg. rewrite drop_nonpos by lia. do 2 f_equal. lia.
Qed.

(** X4.  Data that fits in the free part of the write buffer is only
    buffered: [writebuf_write] succeeds without touching the socket,
    whatever the socket would have done, and [write_pos] grows by the
    length of the data, which is now the end of the buffered bytes. *)
Theorem small_write_is_buffered (data : list byte)
    (c : svn_ra_svn_conn_t) :
  0 <= write_pos c -> len (write_buf c) = sizeof_write_buf E ->
  write_pos c + len data <= sizeof_write_buf E ->
  exists c',
    writebuf_write data c = (Ok tt, c') /\ sock c' = sock c /\
    write_pos c' = write_pos c + len data /\
    take (write_pos c') (write_buf c')
    = take (write_pos c) (write_buf c) ++ data.
Proof.
  intros Hp Hl Hfit. pose proof (len_nonneg data) as Hd.
  unfold writebuf_write, bind.
  replace ((0 <? write_pos c)
           && (sizeof_write_buf E <? write_pos c + len data)) with false
    by (symmetry; apply andb_false_iff; right; apply Z.ltb_ge; lia).
  assert (Hq : writebuf_write_direct (List.length data) data c
               = (Ok data, c)).
  { destruct (List.length data); cbn [writebuf_write_direct];
      destruct (sizeof_write_buf E <? len data) eqn:Hlt;
      try reflexivity; apply Z.ltb_lt in Hlt; lia. }
  rewrite Hq. eexists. split; [reflexivity |].
  unfold writebuf_push.
  replace (if sizeof_write_buf E - write_pos c <? len data
           then sizeof_write_buf E - write_pos c else len data)
    with (len data) by (destruct (_ <? _) eqn:Hc; lia).
  fields. rewrite (take_all (len data) data) by lia.
  split; [reflexivity |]. split; [reflexivity |]. apply take_blit; lia.
Qed.

Lemma returns_io_bind {A B} (m : M A) (k : A -> M B) :
  returns_io m -> (forall a, returns_io (k a)) -> returns_io (bind m k).
Proof.
  intros Hm Hk c Hb. unfold bind. destruct (Hm c Hb) as [Hb1 Hr].
  destruct (m c) as [[a | e | x |] c1]; cbn [fst snd] in *;
    try contradiction; [now apply Hk | auto].
Qed.

Lemma returns_io_ret {A} (a : A) : returns_io (ret a).
Proof. intros c Hb. cbn. auto. Qed.

Lemma writebuf_flush_loop_io (fuel : nat) (count : Z) :
  errors_in (fun e => apr_err e = SVN_ERR_RA_SVN_IO_ERROR)
            (writebuf_flush_loop fuel count).
Proof.
  revert count. induction fuel as [| fuel IH]; intros count c e;
    cbn [writebuf_flush_loop]; destruct (count <? write_pos c);
    try discriminate.
  destruct (SOCK_WRITE _ _) as [r s']. destruct (r <? 0); [| apply IH].
  cbn [fst]. intros H. injection H as <-. reflexivity.
Qed.

Lemma writebuf_write_direct_io (fuel : nat) (data : list byte) :
  errors_in (fun e => apr_err e = SVN_ERR_RA_SVN_IO_ERROR)
            (writebuf_write_direct fuel data).
Proof.
  revert data. induction fuel as [| fuel IH]; intros data c e;
    cbn [writebuf_write_direct]; destruct (_ <? len data);
    try discriminate.
  destruct (SOCK_WRITE _ _) as [r s']. destruct (r <? 0); [| apply IH].
  cbn [fst]. intros H. injection H as <-. reflexivity.
Qed.

Lemma returns_io_intro {A} (m : M A) :
  (forall c, buffers_ok c -> buffers_ok (snd (m c))) ->
  (forall c, buffers_ok c -> fst (m c) <> OutOfFuel) ->
  never_crashes m ->
  errors_in (fun e => apr_err e = SVN_ERR_RA_SVN_IO_ERROR) m ->
  returns_io m.
Proof.
  intros Hb Ht Hn He c Hc. split; [now apply Hb |].
  specialize (Ht c Hc). specialize (Hn c). specialize (He c).
  destruct (fst (m c)) as [a | e | x |].
  - exact I.
  - now apply He.
  - now destruct (Hn x).
  - now destruct Ht.
Qed.

Lemma returns_io_flush : returns_io writebuf_flush.
Proof.
  apply returns_io_intro.
  - apply buffers_ok_flush.
  - apply writebuf_flush_total.
  - intros c k. apply never_crashes_flush_loop.
  - intros c e. apply writebuf_flush_loop_io.
Qed.

Lemma buffers_ok_set_sock (c : svn_ra_svn_conn_t) (s : socket) :
  buffers_ok c -> buffers_ok (set_sock c s).
Proof. intros H. exact H. Qed.

Lemma buffers_ok_write_direct (fuel : nat) (data : list byte)
    (c : svn_ra_svn_conn_t) :
  buffers_ok c -> buffers_ok (snd (writebuf_write_direct fuel data c)).
Proof.
  revert data c. induction fuel as [| fuel IH]; intros data c Hb;
    cbn [writebuf_write_direct]; destruct (_ <? len data); try exact Hb.
  destruct (SOCK_WRITE _ _) as [r s']. destruct (r <? 0); [exact Hb |].
  apply IH. exact Hb.
Qed.

Lemma buffers_ok_push (c : svn_ra_svn_conn_t) (data : list byte) :
  buffers_ok c -> buffers_ok (snd (writebuf_push c data)).
Proof.
  intros Hb. pose proof Hb as (Hi & Hp & Hr & Hw).
  pose proof (writebuf_push_inv c data Hi) as Hi'.
  split; [exact Hi' |]. destruct Hi as (_ & _ & Hw0 & Hwp).
  pose proof (len_nonneg data). unfold writebuf_push. fields.
  repeat split; auto.
  rewrite len_blit; [exact Hw | lia |].
  rewrite len_take. destruct (_ <? len data) eqn:Hc; lia.
Qed.

Lemma returns_io_writebuf_write (data : list byte) :
  returns_io (writebuf_write data).
Proof.
  unfold writebuf_write. apply returns_io_bind.
  - intros c Hb. destruct (_ && _); [| cbn; auto].
    pose proof (buffers_ok_push c data Hb) as Hb1.
    destruct (writebuf_push c data) as [rest c1]. fields.
    apply returns_io_bind; [apply returns_io_flush | | exact Hb1].
    intros _. apply returns_io_ret.
  - intros data1. apply returns_io_bind.
    + apply returns_io_intro.
      * intros c. apply buffers_ok_write_direct.
      * intros c _. apply writebuf_write_direct_total. unfold len. lia.
      * intros c k. apply never_crashes_write_direct.
      * intros c e. apply writebuf_write_direct_io.
    + intros data2 c Hb. cbn [fst snd]. split; [| exact I].
      now apply buffers_ok_push.
Qed.

Lemma returns_io_write_item (i : svn_ra_svn_item_t) :
  returns_io (write_item i).
Proof.
  induction i as [n | s | w | l IH] using item_ind_nested;
    cbn [write_item].
  - apply returns_io_writebuf_write.
  - repeat (apply returns_io_bind; [| intros _]);
      apply returns_io_writebuf_write.
  - apply returns_io_writebuf_write.
  - apply returns_io_bind; [apply returns_io_writebuf_write | intros _].
    apply returns_io_bind; [| intros _; apply returns_io_writebuf_write].
    induction IH as [| x l Hx _ IHl]; [apply returns_io_ret |].
    apply returns_io_bind; [exact Hx | intros _; exact IHl].
Qed.

(** X5.  Writing an item always comes to an end, whatever the socket
    does: [write_item] returns success or the I/O error, it never
    returns another error and never stops for an assertion, and the
    buffers of the connection stay well formed. *)
Theorem write_item_outcome (i : svn_ra_svn_item_t)
    (c : svn_ra_svn_conn_t) :
  buffers_ok c ->
  buffers_ok (snd (write_item i c)) /\
  (fst (write_item i c) = Ok tt \/
   exists e, fst (write_item i c) = Err e /\
             apr_err e = SVN_ERR_RA_SVN_IO_ERROR).
Proof.
  intros Hb. destruct (returns_io_write_item i c Hb) as [Hb' Hr].
  split; [exact Hb' |].
  destruct (fst (write_item i c)) as [[] | e | x |]; try contradiction;
    [now left | right; now exists e].
Qed.

(** ** Further properties of the read path *)

Lemma pending_nil (c : svn_ra_svn_conn_t) :
  buffers_ok c -> pending c = [] ->
  read_ptr c = read_end c /\ inbox (sock c) = [].
Proof.
  intros ((Hle & Hre & _) & Hr0 & Hrl & _) Hp. unfold pending in Hp.
  apply app_eq_nil in Hp. destruct Hp as [Hs Hi]. split; [| exact Hi].
  apply (f_equal len) in Hs. unfold seg in Hs.
  rewrite len_take, len_drop in Hs. change (len (@nil byte)) with 0 in Hs.
  lia.
Qed.

Lemma pending_empty_buffer (c : svn_ra_svn_conn_t) :
  read_ptr c = read_end c -> pending c = inbox (sock c).
Proof.
  intros H. unfold pending, seg.
  now rewrite H, Z.sub_diag, take_nonpos by lia.
Qed.

Lemma readbuf_fill_closed (c : svn_ra_svn_conn_t) :
  reads_ok c -> read_ptr c = read_end c -> inbox (sock c) = [] ->
  exists e c',
    readbuf_fill c = (Err e, c') /\
    apr_err e = SVN_ERR_RA_SVN_CONNECTION_CLOSED.
Proof.
  intros Hr Hempty Hin. unfold readbuf_fill.
  rewrite (proj2 (Z.eqb_eq _ _) Hempty). cbn [negb]. unfold ignore.
  destruct (writebuf_flush_reads c Hr) as ([Hb1 Hn1] & _).
  pose proof (writebuf_flush_frame c) as (_ & _ & _ & Hin1 & _).
  set (c1 := snd (writebuf_flush c)) in *.
  destruct (SOCK_READ _ _) as [[r data] s'] eqn:Hs.
  apply SOCK_READ_spec in Hs.
  destruct Hs as (_ & _ & _
                  & [(_ & _ & _ & Hbad) | (Hr1 & Hr2 & _)]);
    [contradiction |].
  rewrite Hin1, Hin in Hr2. change (len (@nil byte)) with 0 in Hr2.
  assert (r = 0) as -> by lia. cbn [Z.ltb Z.eqb Z.compare].
  eexists _, _. split; reflexivity.
Qed.

Lemma readbuf_read_direct_short (fuel : nat) (n : Z)
    (all got : list byte) (c : svn_ra_svn_conn_t) :
  reads_ok c -> got ++ pending c = all -> read_ptr c = read_end c ->
  len all < n -> len all - len got < Z.of_nat fuel ->
  (exists e c',
     readbuf_read_direct fuel n got c = (Err e, c') /\
     apr_err e = SVN_ERR_RA_SVN_CONNECTION_CLOSED) \/
  (exists got' c',
     readbuf_read_direct fuel n got c = (Ok got', c') /\
     reads_ok c' /\ got' ++ pending c' = all /\
     read_ptr c' = read_end c' /\ len got <= len got').
Proof.
  revert got c. induction fuel as [| fuel IH];
    intros got c Hr Hp Hempty Hn Hf;
    [apply (f_equal len) in Hp; rewrite len_app in Hp;
     pose proof (len_nonneg (pending c)); lia |].
  cbn [readbuf_read_direct].
  destruct (sizeof_read_buf E <? n - len got) eqn:Hlt;
    [| right; exists got, c; split; [reflexivity |];
       split; [exact Hr |]; split; [exact Hp |];
       split; [exact Hempty | lia]].
  unfold ignore.
  destruct (writebuf_flush_reads c Hr) as (Hr1 & Hp1 & Hrp1 & Hre1).
  pose proof (writebuf_flush_frame c) as (_ & _ & _ & Hin1 & _).
  set (c1 := snd (writebuf_flush c)) in *.
  destruct (SOCK_READ _ _) as [[r data] s'] eqn:Hs.
  apply SOCK_READ_spec in Hs.
  destruct Hs as (Ho & Hws & Hrs
                  & [(_ & _ & _ & Hbad) | (Hr2 & Hr3 & Hr4 & Hd & Hi & Hld)]);
    [destruct Hr1; contradiction |].
  destruct (r <? 0) eqn:Hneg; [apply Z.ltb_lt in Hneg; lia |].
  destruct (r =? 0) eqn:Hz.
  { left. eexists _, _. split; reflexivity. }
  apply Z.eqb_neq in Hz.
  assert (Hpi : pending c = inbox (sock c))
    by now apply pending_empty_buffer.
  assert (Hstep : (got ++ data) ++ pending (set_sock c1 s') = all).
  { rewrite <- Hp, Hpi, <- app_assoc. f_equal.
    unfold pending, seg. fields.
    rewrite Hrp1, Hre1, Hempty, Z.sub_diag, take_nonpos by lia. cbn [app].
    rewrite Hi, Hd, Hin1. apply take_drop. }
  destruct (IH (got ++ data) (set_sock c1 s')) as [H | H].
  - destruct Hr1 as [Hb1 Hn1]. split; [exact Hb1 |].
    fields. rewrite Hrs. now apply no_fail_tl.
  - exact Hstep.
  - fields. congruence.
  - exact Hn.
  - rewrite len_app. lia.
  - left. exact H.
  - right. destruct H as (got' & c' & He & Hr' & Hp' & Hem & Hl).
    exists got', c'. split; [exact He |]. split; [exact Hr' |].
    split; [exact Hp' |]. split; [exact Hem |].
    rewrite len_app in Hl. pose proof (len_nonneg data). lia.
Qed.

Lemma readbuf_read_buffered_short (fuel : nat) (n : Z)
    (all got : list byte) (c : svn_ra_svn_conn_t) :
  reads_ok c -> got ++ pending c = all -> read_ptr c = read_end c ->
  len all < n -> len all - len got < Z.of_nat fuel ->
  exists e c',
    readbuf_read_buffered fuel n got c = (Err e, c') /\
    apr_err e = SVN_ERR_RA_SVN_CONNECTION_CLOSED.
Proof.
  revert got c. induction fuel as [| fuel IH];
    intros got c Hr Hp Hempty Hn Hf;
    [apply (f_equal len) in Hp; rewrite len_app in Hp;
     pose proof (len_nonneg (pending c)); lia |].
  cbn [readbuf_read_buffered].
  assert (Hgl : len got <= len all).
  { apply (f_equal len) in Hp. rewrite len_app in Hp.
    pose proof (len_nonneg (pending c)). lia. }
  destruct (len got <? n) eqn:Hlt; [| apply Z.ltb_ge in Hlt; lia].
  unfold bind.
  destruct (inbox (sock c)) as [| b bs] eqn:Hin.
  - destruct (readbuf_fill_closed c Hr Hempty Hin) as (e & c' & He & Hc).
    rewrite He. now exists e, c'.
  - destruct (readbuf_fill_ok c Hr Hempty) as (c1 & Hfill & Hp1 & Hr1 & Hlt1);
      [congruence |].
    rewrite Hfill.
    assert (Hn0 : 0 <= n - len got) by lia.
    destruct (readbuf_drain_ok c1 (n - len got) Hr1 Hn0)
      as (k & Hk & Hlk & Hpd & Hr2 & Hek).
    destruct (readbuf_drain c1 (n - len got)) as [data c2]. fields.
    assert (Hall : (got ++ data) ++ pending c2 = all)
      by (rewrite <- Hp, <- Hp1, Hpd; now rewrite app_assoc).
    assert (Hdl : len (got ++ data) <= len all).
    { apply (f_equal len) in Hall. rewrite len_app in Hall.
      pose proof (len_nonneg (pending c2)). lia. }
    rewrite len_app in Hdl.
    apply IH; auto.
    + apply Hek. lia.
    + rewrite len_app. lia.
Qed.

(** X6.  The read buffer gives the stream back in order:
    [readbuf_getchar] returns the next pending byte and [readbuf_read]
    the next [n] pending bytes, whatever the size of the buffer and
    however the socket cuts the stream, and they leave the rest
    pending. *)
Theorem readbuf_read_in_order (fuel : nat) (want rest : list byte)
    (x : byte) (c : svn_ra_svn_conn_t) :
  reads_ok c -> pending c = x :: want ++ rest ->
  len want < Z.of_nat fuel ->
  (exists c',
     readbuf_getchar c = (Ok x, c') /\ pending c' = want ++ rest /\
     reads_ok c') /\
  (exists c',
     readbuf_read fuel (len (x :: want)) c = (Ok (x :: want), c') /\
     pending c' = rest /\ reads_ok c').
Proof.
  intros Hr Hp Hf. split.
  - now apply readbuf_getchar_ok.
  - apply readbuf_read_ok; auto. unfold len in *. cbn [List.length]. lia.
Qed.

(** X7.  The end of the stream and a failed read are told apart: when
    nothing is pending, [readbuf_getchar] returns the connection-closed
    error, and so does [readbuf_read] when fewer bytes are pending than
    it is asked for; when the buffer is empty and the read of the socket
    fails, [readbuf_getchar] returns the I/O error with the [errno] of
    the read. *)
Theorem read_errors (fuel : nat) (n : Z) (c : svn_ra_svn_conn_t) :
  buffers_ok c ->
  (no_fail (rd_script (sock c)) -> pending c = [] ->
   exists e c',
     readbuf_getchar c = (Err e, c') /\
     apr_err e = SVN_ERR_RA_SVN_CONNECTION_CLOSED) /\
  (no_fail (rd_script (sock c)) -> len (pending c) < n ->
   len (pending c) < Z.of_nat fuel ->
   exists e c',
     readbuf_read fuel n c = (Err e, c') /\
     apr_err e = SVN_ERR_RA_SVN_CONNECTION_CLOSED) /\
  (forall k rs,
     read_ptr c = read_end c -> rd_script (sock c) = IoFail k :: rs ->
     exists e c',
       readbuf_getchar c = (Err e, c') /\
       apr_err e = SVN_ERR_RA_SVN_IO_ERROR /\ src_err e = k).
Proof.
  intros Hb. split; [| split].
  - intros Hn Hp. destruct (pending_nil c Hb Hp) as [Hempty Hin].
    destruct (readbuf_fill_closed c (conj Hb Hn) Hempty Hin)
      as (e & c' & He & Hc).
    exists e, c'. split; [| exact Hc].
    unfold readbuf_getchar, bind.
    now rewrite (proj2 (Z.eqb_eq _ _) Hempty), He.
  - intros Hn Hshort Hf. pose proof (conj Hb Hn) as Hr.
    pose proof (len_nonneg (pending c)) as Hp0.
    assert (Hn0 : 0 <= n) by lia.
    unfold readbuf_read.
    destruct (readbuf_drain_ok c n Hr Hn0) as (k & Hk & Hlk & Hpd & Hr1 & Hek).
    destruct (readbuf_drain c n) as [data c1]. fields.
    assert (Hdl : len data <= len (pending c)).
    { rewrite Hpd, len_app. pose proof (len_nonneg (pending c1)). lia. }
    assert (Hempty : read_ptr c1 = read_end c1) by (apply Hek; lia).
    pose proof (len_nonneg data).
    unfold bind.
    destruct (readbuf_read_direct_short fuel n (pending c) data c1 Hr1
                (eq_sym Hpd) Hempty Hshort)
      as [(e & c' & He & Hc) | (got & c2 & He & Hr2 & Hp2 & Hem2 & Hl2)];
      [lia | | ].
    + rewrite He. now exists e, c'.
    + rewrite He.
      apply (readbuf_read_buffered_short fuel n (pending c) got c2); auto.
      lia.
  - intros k rs Hempty Hscript.
    unfold readbuf_getchar, bind, readbuf_fill, ignore.
    rewrite (proj2 (Z.eqb_eq _ _) Hempty). cbn [negb].
    pose proof (writebuf_flush_frame c) as (_ & _ & _ & _ & Hrs & _).
    unfold SOCK_READ. rewrite Hrs, Hscript.
    cbn [Z.ltb Z.compare]. eexists _, _. repeat split.
Qed.

Lemma skip_whitespace_result (fuel : nat) (c c' : svn_ra_svn_conn_t)
    (r : byte) :
  readbuf_getchar_skip_whitespace fuel c = (Ok r, c') ->
  svn_iswhitespace r = false.
Proof.
  revert c. induction fuel as [| fuel IH]; intros c;
    cbn [readbuf_getchar_skip_whitespace]; [discriminate |].
  unfold bind. destruct (readbuf_getchar c) as [[x | e | k |] c1];
    try discriminate.
  destruct (svn_iswhitespace x) eqn:Hx; [apply IH |].
  unfold ret. intros H. now injection H as <- _.
Qed.

(** X8.  [readbuf_getchar_skip_whitespace] passes over spaces and
    newlines: it returns the first pending byte that is neither, leaving
    what follows it pending; and on any stream, the byte it returns is
    never a space or a newline. *)
Theorem skip_whitespace_spec (fuel : nat) (c : svn_ra_svn_conn_t)
    (ws : list byte) (x : byte) (rest : list byte) :
  reads_ok c -> pending c = ws ++ x :: rest ->
  Forall (fun b => svn_iswhitespace b = true) ws ->
  svn_iswhitespace x = false -> (List.length ws < fuel)%nat ->
  (exists c',
     readbuf_getchar_skip_whitespace fuel c = (Ok x, c') /\
     pending c' = rest /\ reads_ok c') /\
  (forall fuel' c0 c0' r,
     readbuf_getchar_skip_whitespace fuel' c0 = (Ok r, c0') ->
     svn_iswhitespace r = false).
Proof.
  intros Hr Hp Hws Hx Hf. split.
  - now apply (readbuf_getchar_skip_whitespace_ok fuel c ws).
  - intros fuel' c0 c0' r. apply skip_whitespace_result.
Qed.

(** ** Further properties of the item reader and writers *)

(** X9.  Every item of the data model (numbers below 2^63, strings of
    any bytes, words, lists of such items, nested at will) written with
    the item writers and read with [svn_ra_svn_read_item] comes back as
    it was: the write succeeds, and a reader given the written bytes,
    followed by anything, returns the item and stops right after
    them. *)
Theorem wellformed_item_roundtrip (i : svn_ra_svn_item_t)
    (cw cr : svn_ra_svn_conn_t) (rest : list byte) (fuel : nat) :
  item_ok i = true -> writes_ok cw -> reads_ok cr ->
  pending cr = written cw (snd (write_item i cw)) ++ rest ->
  len (written cw (snd (write_item i cw))) <= Z.of_nat fuel ->
  fst (write_item i cw) = Ok tt /\
  exists cr',
    svn_ra_svn_read_item fuel cr = (Ok i, cr') /\ pending cr' = rest.
Proof.
  intros Hok Hw Hr Hp Hf.
  destruct (emits_written _ _ cw (emits_write_item i) Hw) as [_ Hwr].
  rewrite Hwr in Hf.
  destruct (item_roundtrip i cw cr rest fuel Hok Hw Hr Hp Hf)
    as (He & cr' & Hread & Hp' & _).
  split; [exact He |]. now exists cr'.
Qed.

(** X10.  [svn_ra_svn_write_cstring] writes a C string as
    [svn_ra_svn_write_string] writes the string of its bytes before the
    terminator: both succeed and put the same bytes on the wire. *)
Theorem write_cstring_as_string (s : list byte) (c : svn_ra_svn_conn_t) :
  writes_ok c ->
  fst (svn_ra_svn_write_cstring s c) = Ok tt /\
  fst (svn_ra_svn_write_string (c_str s) c) = Ok tt /\
  sent (snd (svn_ra_svn_write_cstring s c))
  = sent (snd (svn_ra_svn_write_string (c_str s) c)).
Proof.
  intros Hw.
  destruct (emits_write_cstring s c Hw) as (c1 & He1 & Hs1 & _).
  destruct (emits_write_string (c_str s) c Hw) as (c2 & He2 & Hs2 & _).
  rewrite He1, He2. cbn [fst snd]. repeat split.
  now rewrite Hs1, Hs2.
Qed.

(** X11.  Spaces and newlines before an item are passed over:
    [svn_ra_svn_read_item] returns the item whose wire form follows
    them. *)
Theorem read_item_skips_whitespace (i : svn_ra_svn_item_t)
    (c : svn_ra_svn_conn_t) (ws rest : list byte) (fuel : nat) :
  item_ok i = true -> reads_ok c ->
  Forall (fun b => svn_iswhitespace b = true) ws ->
  pending c = ws ++ wire i ++ rest ->
  len ws + len (wire i) <= Z.of_nat fuel ->
  exists c',
    svn_ra_svn_read_item fuel c = (Ok i, c') /\ pending c' = rest.
Proof.
  intros Hok Hr Hws Hp Hf.
  destruct (wire_head i Hok) as (x & w & Hx & Hxw & _).
  rewrite Hx in Hp. cbn [app] in Hp.
  assert (Hlw : len (wire i) = 1 + len w)
    by (rewrite Hx; unfold len; cbn [List.length]; lia).
  pose proof (len_nonneg w). pose proof (len_nonneg ws).
  unfold svn_ra_svn_read_item, bind.
  destruct (readbuf_getchar_skip_whitespace_ok fuel c ws x (w ++ rest)
              Hr Hp Hws Hxw) as (c1 & He1 & Hp1 & Hr1);
    [unfold len in *; lia |].
  rewrite He1.
  destruct (read_item_wire i Hok fuel c1 rest x w (NUMBER 0) Hx Hr1 Hp1)
    as (c2 & He2 & Hp2 & _); [lia |].
  now exists c2.
Qed.

(** X12.  A byte that starts no item is rejected: when the first byte
    after the whitespace is not a digit, a letter or an opening
    parenthesis, [svn_ra_svn_read_item] consumes it and returns the
    malformed-data error. *)
Theorem read_item_bad_start (c : svn_ra_svn_conn_t) (ws : list byte)
    (x : byte) (rest : list byte) (fuel : nat) :
  reads_ok c -> pending c = ws ++ x :: rest ->
  Forall (fun b => svn_iswhitespace b = true) ws ->
  svn_iswhitespace x = false -> apr_isdigit x = false ->
  apr_isalpha x = false -> x <> ch "(" -> (List.length ws < fuel)%nat ->
  exists c',
    svn_ra_svn_read_item fuel c
    = (Err (malformed "Malformed network data"), c') /\
    pending c' = rest.
Proof.
  intros Hr Hp Hws Hx Hd Ha Hparen Hf.
  unfold svn_ra_svn_read_item, bind.
  destruct (readbuf_getchar_skip_whitespace_ok fuel c ws x rest
              Hr Hp Hws Hx Hf) as (c1 & He1 & Hp1 & _).
  rewrite He1. destruct fuel as [| fuel]; [lia |].
  cbn [read_item]. rewrite Hd, Ha.
  apply Z.eqb_neq in Hparen. rewrite Hparen.
  unfold read_item_end. rewrite Hx. cbn [negb]. now exists c1.
Qed.

(** X13.  A word and a list must be followed by whitespace: when the
    byte after a word, or after the parenthesis that closes a list, is
    neither a space nor a newline, [svn_ra_svn_read_item] returns the
    malformed-data error. *)
Theorem word_and_list_need_whitespace (c : svn_ra_svn_conn_t)
    (t : byte) (rest : list byte) (fuel : nat) :
  reads_ok c -> svn_iswhitespace t = false ->
  (forall a w,
     apr_isalpha a = true -> forallb is_word_char w = true ->
     is_word_char t = false ->
     pending c = a :: w ++ t :: rest -> len w + 2 <= Z.of_nat fuel ->
     exists c',
       svn_ra_svn_read_item fuel c
       = (Err (malformed "Malformed network data"), c') /\
       pending c' = rest) /\
  (forall l,
     forallb item_ok l = true ->
     pending c = bytes_of "( " ++ flat_map wire l ++ ch ")" :: t :: rest ->
     len (flat_map wire l) + 5 <= Z.of_nat fuel ->
     exists c',
       svn_ra_svn_read_item fuel c
       = (Err (malformed "Malformed network data"), c') /\
       pending c' = rest).
Proof.
  intros Hr Ht. split.
  - intros a w Ha Hw Htw Hp Hf. pose proof (len_nonneg w).
    assert (Hna : svn_iswhitespace a = false)
      by (unfold apr_isalpha in Ha; unfold svn_iswhitespace; lia).
    assert (Hnd : apr_isdigit a = false)
      by (unfold apr_isalpha in Ha; unfold apr_isdigit; lia).
    unfold svn_ra_svn_read_item, bind.
    destruct (readbuf_getchar_skip_whitespace_ok fuel c [] a (w ++ t :: rest)
                Hr Hp (Forall_nil _) Hna) as (c1 & He1 & Hp1 & Hr1);
      [cbn [List.length]; lia |].
    rewrite He1. destruct fuel as [| fuel]; [lia |].
    cbn [read_item]. rewrite Hnd, Ha. unfold bind.
    destruct (read_item_word_ok fuel w t rest [a] c1 Hr1 Hp1 Hw Htw)
      as (c2 & He2 & Hp2 & _); [unfold len in *; lia |].
    rewrite He2. unfold read_item_end. rewrite Ht. cbn [negb].
    now exists c2.
  - intros l Hok Hp Hf. pose proof (len_nonneg (flat_map wire l)).
    change (bytes_of "( ") with [40; 32] in Hp. cbn [app] in Hp.
    unfold svn_ra_svn_read_item, bind.
    destruct (readbuf_getchar_skip_whitespace_ok fuel c [] 40
                (32 :: flat_map wire l ++ ch ")" :: t :: rest)
                Hr Hp (Forall_nil _) eq_refl) as (c1 & He1 & Hp1 & Hr1);
      [cbn [List.length]; lia |].
    rewrite He1. destruct fuel as [| fuel]; [lia |].
    cbn [read_item]. change (apr_isdigit 40) with false.
    change (apr_isalpha 40) with false. change (40 =? ch "(") with true.
    cbv iota. unfold bind.
    assert (IH : Forall reads_back l).
    { rewrite Forall_forall. intros i Hin. apply read_item_wire.
      rewrite forallb_forall in Hok. now apply Hok. }
    destruct (read_item_list_wire l IH Hok fuel [] [32] c1 (t :: rest) Hr1)
      as (c2 & He2 & Hp2 & Hr2).
    + repeat constructor.
    + exact Hp1.
    + unfold len. cbn [List.length]. unfold len in Hf. lia.
    + rewrite He2.
      destruct (readbuf_getchar_ok c2 t rest Hr2 Hp2) as (c3 & He3 & Hp3 & _).
      rewrite He3. unfold read_item_end. rewrite Ht. cbn [negb].
      now exists c3.
Qed.

(** X14.  A decimal number of any length is accepted and its value is
    taken modulo 2^64: when digits are pending, followed by a byte that
    is neither a digit nor a colon, [svn_ra_svn_read_item] returns the
    number whose value is that of the digits modulo 2^64, having
    consumed the digits and the byte after them. *)
Theorem read_number_wraps (c : svn_ra_svn_conn_t) (d : byte)
    (ds : list byte) (t : byte) (rest : list byte) (fuel : nat) :
  reads_ok c -> pending c = d :: ds ++ t :: rest ->
  Forall (fun b => apr_isdigit b = true) (d :: ds) ->
  apr_isdigit t = false -> t <> ch ":" -> len ds + 2 <= Z.of_nat fuel ->
  exists c',
    svn_ra_svn_read_item fuel c
    = (Ok (NUMBER (digits_value (d :: ds) 0 mod 2 ^ 64)), c') /\
    pending c' = rest.
Proof.
  intros Hr Hp Hd Ht Hcolon Hf. pose proof (len_nonneg ds).
  apply Forall_cons_iff in Hd. destruct Hd as [Hd0 Hds].
  assert (Hnw : svn_iswhitespace d = false)
    by (unfold apr_isdigit in Hd0; unfold svn_iswhitespace; lia).
  unfold svn_ra_svn_read_item, bind.
  destruct (readbuf_getchar_skip_whitespace_ok fuel c [] d (ds ++ t :: rest)
              Hr Hp (Forall_nil _) Hnw) as (c1 & He1 & Hp1 & Hr1);
    [cbn [List.length]; lia |].
  rewrite He1. destruct fuel as [| fuel]; [lia |].
  cbn [read_item]. rewrite Hd0. unfold bind.
  destruct (read_item_digits_ok fuel ds t rest (d - 48) c1 Hr1 Hp1 Hds Ht)
    as (c2 & He2 & Hp2 & _); [unfold len in *; lia |].
  rewrite He2. apply Z.eqb_neq in Hcolon. rewrite Hcolon.
  exists c2. split; [| exact Hp2]. unfold ret. do 3 f_equal.
  assert (Hv : to_uint64 (d - 48) = d - 48).
  { unfold apr_isdigit in Hd0. unfold to_uint64. apply Z.mod_small. lia. }
  rewrite <- Hv, digits_acc_value. unfold to_uint64, digits_value.
  cbn [fold_left]. reflexivity.
Qed.

(** X15.  [svn_ra_svn_read_tuple] is the item reader followed by the
    tuple parser: when the wire form of a list is pending it returns what
    [svn_ra_svn_vparse_tuple] makes of the list with the format, and
    when the wire form of a number, a string or a word is pending it
    returns the malformed-data error. *)
Theorem read_tuple_spec (i : svn_ra_svn_item_t) (c : svn_ra_svn_conn_t)
    (rest fmt : list byte) (fuel : nat) :
  item_ok i = true -> reads_ok c -> pending c = wire i ++ rest ->
  len (wire i) <= Z.of_nat fuel ->
  exists c',
    pending c' = rest /\
    svn_ra_svn_read_tuple fuel fmt c
    = (match i with
       | LIST l => svn_ra_svn_vparse_tuple l fmt
       | _ => Err (malformed "Malformed network data")
       end, c').
Proof.
  intros Hok Hr Hp Hf.
  destruct (read_item_ok i c rest fuel Hok Hr Hp Hf) as (c' & He & Hp' & _).
  exists c'. split; [exact Hp' |].
  unfold svn_ra_svn_read_tuple, bind. rewrite He. now destruct i.
Qed.

(** ** Tuples, commands and responses across the wire *)

Lemma arg_item_wire (f : byte) (a : arg) (i : svn_ra_svn_item_t) :
  arg_item f a = Some i ->
  arg_wire f a = Some (wire i) /\ kind_matches f i = true /\
  (f =? ch "[") || (f =? ch "(") = false /\
  (f =? ch "]") || (f =? ch ")") = false.
Proof.
  destruct a as [n | rev | [s |] | [s |]]; cbn [arg_item arg_wire];
    try discriminate.
  - destruct (f =? ch "n") eqn:T; [| discriminate].
    apply Z.eqb_eq in T. subst f. intros [= <-]. now repeat split.
  - destruct ((f =? ch "r") && SVN_IS_VALID_REVNUM E rev) eqn:T;
      [| discriminate].
    apply andb_true_iff in T. destruct T as [T _].
    apply Z.eqb_eq in T. subst f. intros [= <-]. now repeat split.
  - destruct (f =? ch "s") eqn:T; [| discriminate].
    apply Z.eqb_eq in T. subst f. intros [= <-]. now repeat split.
  - destruct (f =? ch "c") eqn:T.
    + apply Z.eqb_eq in T. subst f. intros [= <-]. now repeat split.
    + destruct (f =? ch "w") eqn:T'; [| discriminate].
      apply Z.eqb_eq in T'. subst f. intros [= <-]. now repeat split.
Qed.

Lemma tuple_items_body (fmt : list byte) (ap : list arg)
    (items : list svn_ra_svn_item_t) :
  tuple_items fmt ap = Some items ->
  tuple_body fmt ap = Some (flat_map wire items) /\
  format_matchesb items fmt = true /\
  List.length items = List.length fmt.
Proof.
  revert ap items. induction fmt as [| f fmt IH]; intros ap items;
    cbn [tuple_items tuple_body format_matchesb].
  - intros [= <-]. auto.
  - destruct ap as [| a ap]; [discriminate |].
    destruct (arg_item f a) as [i |] eqn:Hi; [| discriminate].
    destruct (tuple_items fmt ap) as [r |] eqn:Hr; [| discriminate].
    intros [= <-].
    destruct (arg_item_wire f a i Hi) as (Hw & Hk & Ho & Hc).
    destruct (IH ap r Hr) as (Hb & Hm & Hl).
    rewrite Ho, Hc, Hw, Hb, Hk, Hm. cbn [flat_map List.length]. auto.
Qed.

Lemma vparse_tuple_loop_values (elts : list svn_ra_svn_item_t)
    (fmt : list byte) (count : nat) (out res : list parsed) :
  vparse_tuple_loop elts count fmt out = Some res ->
  res = out ++ tuple_values fmt (skipn count elts).
Proof.
  revert count out. induction fmt as [| f fmt IH]; intros count out;
    cbn [vparse_tuple_loop tuple_values].
  - intros [= <-]. now rewrite app_nil_r.
  - pose proof (skipn_nth_error elts count) as Hs.
    destruct (skipn count elts) as [| i r]; [now rewrite Hs |].
    destruct Hs as [Hn Hr]. rewrite Hn.
    assert (Hnext : forall v,
              vparse_tuple_loop elts (S count) fmt (out ++ [v]) = Some res ->
              res = out ++ v :: tuple_values fmt r).
    { intros v H. apply IH in H. now rewrite Hr, <- app_assoc in H. }
    destruct i as [n | s | w | l]; cbn [parsed_of].
    + destruct (f =? ch "n"); [apply Hnext |].
      destruct (f =? ch "r"); [apply Hnext | discriminate].
    + destruct (f =? ch "s"); [apply Hnext |].
      destruct (f =? ch "c"); [apply Hnext | discriminate].
    + destruct (f =? ch "w"); [apply Hnext | discriminate].
    + destruct (f =? ch "l"); [apply Hnext | discriminate].
Qed.

Lemma vparse_tuple_items (fmt : list byte) (ap : list arg)
    (items : list svn_ra_svn_item_t) :
  tuple_items (c_str fmt) ap = Some items ->
  svn_ra_svn_vparse_tuple items fmt = Ok (tuple_values (c_str fmt) items).
Proof.
  intros Hi. destruct (tuple_items_body _ _ _ Hi) as (_ & Hm & Hl).
  unfold svn_ra_svn_vparse_tuple, strlen, len. rewrite Hl, Z.leb_refl.
  pose proof (vparse_tuple_loop_spec items (c_str fmt) 0 []) as Hs.
  cbn [skipn] in Hs. rewrite Hm in Hs. destruct Hs as (vals & Hv & _).
  rewrite Hv. apply vparse_tuple_loop_values in Hv. cbn [skipn app] in Hv.
  cbn [app]. now rewrite <- Hv.
Qed.

(** X16.  What [svn_ra_svn_vparse_tuple] stores when it succeeds: for
    each letter of the format, in order, the value of the item at its
    position (the number for n, the number as a [long] for r, the bytes
    of the string for s and c, the word for w, the items for l). *)
Theorem vparse_tuple_values (elts : list svn_ra_svn_item_t)
    (fmt : list byte) (out : list parsed) :
  svn_ra_svn_vparse_tuple elts fmt = Ok out ->
  out = tuple_values (c_str fmt) elts.
Proof.
  unfold svn_ra_svn_vparse_tuple.
  destruct (strlen fmt <=? len elts); [| discriminate].
  destruct (vparse_tuple_loop elts 0 (c_str fmt) []) as [res |] eqn:Hv;
    [| discriminate].
  intros [= <-]. now apply vparse_tuple_loop_values in Hv.
Qed.

(** X17.  A tuple whose format has letters only and whose arguments are
    all present, written with [svn_ra_svn_write_tuple] and read with
    [svn_ra_svn_read_tuple] under the same format, gives the reader the
    values that were written. *)
Theorem tuple_roundtrip (fmt : list byte) (ap : list arg)
    (items : list svn_ra_svn_item_t) (cw cr : svn_ra_svn_conn_t)
    (rest : list byte) (fuel : nat) :
  tuple_items (c_str fmt) ap = Some items ->
  forallb item_ok items = true -> writes_ok cw -> reads_ok cr ->
  pending cr = written cw (snd (svn_ra_svn_write_tuple fmt ap cw)) ++ rest ->
  len (written cw (snd (svn_ra_svn_write_tuple fmt ap cw)))
  <= Z.of_nat fuel ->
  fst (svn_ra_svn_write_tuple fmt ap cw) = Ok tt /\
  exists cr',
    svn_ra_svn_read_tuple fuel fmt cr
    = (Ok (tuple_values (c_str fmt) items), cr') /\
    pending cr' = rest.
Proof.
  intros Hi Hok Hw Hr Hp Hf.
  destruct (tuple_items_body _ _ _ Hi) as (Hb & _ & _).
  destruct (emits_written _ _ cw (emits_vwrite_tuple fmt ap _ Hb) Hw)
    as [He Hwr].
  unfold svn_ra_svn_write_tuple in *. rewrite Hwr in Hp, Hf.
  split; [exact He |].
  destruct (read_item_ok (LIST items) cr rest fuel Hok Hr Hp Hf)
    as (cr' & Hread & Hp' & _).
  exists cr'. split; [| exact Hp'].
  unfold svn_ra_svn_read_tuple, bind. rewrite Hread. unfold lift.
  now rewrite (vparse_tuple_items fmt ap items Hi).
Qed.

Lemma emits_write_cmd (cmd fmt : list byte) (ap : list arg)
    (items : list svn_ra_svn_item_t) :
  tuple_items (c_str fmt) ap = Some items ->
  emits (svn_ra_svn_write_cmd cmd fmt ap)
        (wire (LIST [WORD cmd; LIST items])).
Proof.
  intros Hi. destruct (tuple_items_body _ _ _ Hi) as (Hb & _ & _).
  unfold svn_ra_svn_write_cmd. cbn [wire flat_map]. rewrite app_nil_r.
  apply emits_bind; [apply emits_start_list |].
  rewrite <- app_assoc. apply emits_bind; [apply emits_write_word |].
  apply emits_bind; [now apply emits_vwrite_tuple | apply emits_end_list].
Qed.

Lemma emits_write_cmd_response (fmt : list byte) (ap : list arg)
    (items : list svn_ra_svn_item_t) :
  tuple_items (c_str fmt) ap = Some items ->
  emits (svn_ra_svn_write_cmd_response fmt ap)
        (wire (LIST [WORD (bytes_of "success"); LIST items])).
Proof.
  intros Hi. destruct (tuple_items_body _ _ _ Hi) as (Hb & _ & _).
  unfold svn_ra_svn_write_cmd_response. cbn [wire flat_map].
  rewrite app_nil_r.
  apply emits_bind; [apply emits_start_list |].
  rewrite <- app_assoc. apply emits_bind; [apply emits_write_word |].
  apply emits_bind; [now apply emits_vwrite_tuple | apply emits_end_list].
Qed.

Lemma read_tuple_wl (w : list byte) (items : list svn_ra_svn_item_t)
    (c : svn_ra_svn_conn_t) (rest : list byte) (fuel : nat) :
  item_ok (LIST [WORD w; LIST items]) = true -> reads_ok c ->
  pending c = wire (LIST [WORD w; LIST items]) ++ rest ->
  len (wire (LIST [WORD w; LIST items])) <= Z.of_nat fuel ->
  exists c',
    svn_ra_svn_read_tuple fuel (bytes_of "wl") c
    = (Ok [PCstr w; PList items], c') /\
    pending c' = rest /\ reads_ok c'.
Proof.
  intros Hok Hr Hp Hf.
  destruct (read_item_ok _ c rest fuel Hok Hr Hp Hf) as (c' & He & Hp' & Hr').
  exists c'. unfold svn_ra_svn_read_tuple, bind. rewrite He. auto.
Qed.

(** X18.  A command whose name is a word, whose format has the
    letters n, r, s, c, w only (no group, which the tuple parser does
    not know) and whose arguments are all present (no null pointer, no
    invalid revision) and in range (numbers and revisions below 2^63,
    strings shorter than 2^64 bytes, words that start with a letter and
    go on with letters, digits and hyphens), sent with
    [svn_ra_svn_write_cmd], reaches the receiver as
    [svn_ra_svn_handle_commands] reads it: reading a tuple under the
    format wl gives the command name and the list of its parameters,
    and parsing that list under the sender's format gives the values
    that were sent. *)
Theorem command_roundtrip (cmd fmt : list byte) (ap : list arg)
    (items : list svn_ra_svn_item_t) (cw cr : svn_ra_svn_conn_t)
    (rest : list byte) (fuel : nat) :
  item_ok (WORD cmd) = true ->
  tuple_items (c_str fmt) ap = Some items ->
  forallb item_ok items = true -> writes_ok cw -> reads_ok cr ->
  pending cr = written cw (snd (svn_ra_svn_write_cmd cmd fmt ap cw)) ++ rest ->
  len (written cw (snd (svn_ra_svn_write_cmd cmd fmt ap cw)))
  <= Z.of_nat fuel ->
  fst (svn_ra_svn_write_cmd cmd fmt ap cw) = Ok tt /\
  exists cr',
    svn_ra_svn_read_tuple fuel (bytes_of "wl") cr
    = (Ok [PCstr cmd; PList items], cr') /\
    pending cr' = rest /\
    svn_ra_svn_parse_tuple items fmt
    = Ok (tuple_values (c_str fmt) items).
Proof.
  intros Hc Hi Hok Hw Hr Hp Hf.
  destruct (emits_written _ _ cw (emits_write_cmd cmd fmt ap items Hi) Hw)
    as [He Hwr].
  rewrite Hwr in Hp, Hf. split; [exact He |].
  assert (Hall : item_ok (LIST [WORD cmd; LIST items]) = true).
  { cbn [item_ok forallb] in *. now rewrite Hc, Hok. }
  destruct (read_tuple_wl cmd items cr rest fuel Hall Hr Hp Hf)
    as (cr' & Hread & Hp' & _).
  exists cr'. repeat split; [exact Hread | exact Hp' |].
  exact (vparse_tuple_items fmt ap items Hi).
Qed.

(** X19.  A success response whose format has the letters n, r, s, c,
    w only (no group, which the tuple parser does not know) and whose
    arguments are all present (no null pointer, no invalid revision)
    and in range (numbers and revisions below 2^63, strings shorter than
    2^64 bytes, words that start with a letter and go on with letters,
    digits and hyphens), sent with [svn_ra_svn_write_cmd_response] and read with
    [svn_ra_svn_read_cmd_response] under the same format, gives the
    reader the values that were sent. *)
Theorem response_roundtrip (fmt : list byte) (ap : list arg)
    (items : list svn_ra_svn_item_t) (cw cr : svn_ra_svn_conn_t)
    (rest : list byte) (fuel : nat) :
  tuple_items (c_str fmt) ap = Some items ->
  forallb item_ok items = true -> writes_ok cw -> reads_ok cr ->
  pending cr
  = written cw (snd (svn_ra_svn_write_cmd_response fmt ap cw)) ++ rest ->
  len (written cw (snd (svn_ra_svn_write_cmd_response fmt ap cw)))
  <= Z.of_nat fuel ->
  fst (svn_ra_svn_write_cmd_response fmt ap cw) = Ok tt /\
  exists cr',
    svn_ra_svn_read_cmd_response fuel fmt cr
    = (Ok (tuple_values (c_str fmt) items), cr') /\
    pending cr' = rest.
Proof.
  intros Hi Hok Hw Hr Hp Hf.
  destruct (emits_written _ _ cw (emits_write_cmd_response fmt ap items Hi) Hw)
    as [He Hwr].
  rewrite Hwr in Hp, Hf. split; [exact He |].
  assert (Hall : item_ok (LIST [WORD (bytes_of "success"); LIST items]) = true).
  { cbn [item_ok forallb]. rewrite Hok. reflexivity. }
  destruct (read_tuple_wl _ items cr rest fuel Hall Hr Hp Hf)
    as (cr' & Hread & Hp' & _).
  exists cr'. split; [| exact Hp'].
  unfold svn_ra_svn_read_cmd_response, bind. rewrite Hread.
  change (strcmp0 (bytes_of "success") (bytes_of "success")) with true.
  cbv iota. unfold lift.
  now rewrite (vparse_tuple_items fmt ap items Hi).
Qed.

(** ** Responses that are not well formed, and errors that cannot be
    sent *)

Lemma parse_error_record (l : list svn_ra_svn_item_t) :
  if format_matchesb l (bytes_of "nccn")
  then exists code msg fname ln,
         svn_ra_svn_parse_tuple l (bytes_of "nccn")
         = Ok [PNumber code; PCstr msg; PCstr fname; PNumber ln]
  else svn_ra_svn_parse_tuple l (bytes_of "nccn")
       = Err (malformed "Malformed network data").
Proof.
  unfold svn_ra_svn_parse_tuple, svn_ra_svn_vparse_tuple.
  pose proof (vparse_tuple_loop_spec l (c_str (bytes_of "nccn")) 0 []) as Hs.
  cbn [skipn] in Hs.
  change (c_str (bytes_of "nccn")) with (bytes_of "nccn") in *.
  destruct (format_matchesb l (bytes_of "nccn")) eqn:Hm.
  - destruct l as [| [a | a | a | a] [| [b | b | b | b] [| [x | x | x | x]
      [| [d | d | d | d] r]]]]; try discriminate Hm.
    exists a, b, x, d.
    replace (strlen (bytes_of "nccn")
             <=? len (NUMBER a :: STRING b :: STRING x :: NUMBER d :: r))
      with true; [reflexivity |].
    symmetry. apply Z.leb_le. unfold len. cbn [List.length].
    change (strlen (bytes_of "nccn")) with 4. lia.
  - rewrite Hs. now destruct (_ <=? _).
Qed.

Lemma read_cmd_response_errors_bad (elts : list svn_ra_svn_item_t)
    (err : option svn_error_t) (x : svn_ra_svn_item_t) :
  In x elts -> entry_ok x = false ->
  exists e,
    read_cmd_response_errors elts err = Err e /\
    apr_err e = SVN_ERR_RA_SVN_MALFORMED_DATA.
Proof.
  intros Hin Hx. revert err Hin.
  induction elts as [| i elts IH]; intros err Hin; [contradiction |].
  cbn [read_cmd_response_errors].
  destruct i as [n | s | w | l]; try (eexists; split; reflexivity).
  pose proof (parse_error_record l) as Hl.
  destruct (format_matchesb l (bytes_of "nccn")) eqn:Hm.
  - destruct Hl as (code & msg & fname & ln & ->). apply IH.
    destruct Hin as [<- | Hin]; [| exact Hin].
    cbn [entry_ok] in Hx. congruence.
  - rewrite Hl. eexists; split; reflexivity.
Qed.

(** X20.  A response that is not well formed makes
    [svn_ra_svn_read_cmd_response] return the malformed-data error: a
    status word that is neither success nor failure (the message names
    the status), a failure with no error record (the message is
    "Empty error list"), and a failure with an entry that is not a list
    that starts with a number, two strings and a number. *)
Theorem malformed_responses (status : list byte)
    (params : list svn_ra_svn_item_t) (c : svn_ra_svn_conn_t)
    (rest fmt : list byte) (fuel : nat) :
  item_ok (LIST [WORD status; LIST params]) = true -> reads_ok c ->
  pending c = wire (LIST [WORD status; LIST params]) ++ rest ->
  len (wire (LIST [WORD status; LIST params])) <= Z.of_nat fuel ->
  strcmp0 status (bytes_of "success") = false ->
  exists c',
    pending c' = rest /\
    (strcmp0 status (bytes_of "failure") = false ->
     svn_ra_svn_read_cmd_response fuel fmt c
     = (Err (svn_error_create SVN_ERR_RA_SVN_MALFORMED_DATA 0 None
               (bytes_of "Unknown status '" ++ c_str status
                ++ bytes_of "' in command response")), c')) /\
    (strcmp0 status (bytes_of "failure") = true -> params = [] ->
     svn_ra_svn_read_cmd_response fuel fmt c
     = (Err (malformed "Empty error list"), c')) /\
    (strcmp0 status (bytes_of "failure") = true ->
     forall x, In x params -> entry_ok x = false ->
     exists e,
       svn_ra_svn_read_cmd_response fuel fmt c = (Err e, c') /\
       apr_err e = SVN_ERR_RA_SVN_MALFORMED_DATA).
Proof.
  intros Hok Hr Hp Hf Hs.
  destruct (read_tuple_wl status params c rest fuel Hok Hr Hp Hf)
    as (c' & Hread & Hp' & _).
  exists c'. split; [exact Hp' |].
  unfold svn_ra_svn_read_cmd_response, bind. rewrite Hread, Hs.
  split; [| split].
  - now intros ->.
  - now intros -> ->.
  - intros -> x Hin Hx.
    assert (Hlen : (len params =? 0) = false).
    { apply Z.eqb_neq. destruct params; [contradiction |].
      unfold len. cbn [List.length]. lia. }
    rewrite Hlen.
    destruct (read_cmd_response_errors_bad (rev params) None x) as (e & He & Hc);
      [now apply in_rev in Hin | exact Hx |].
    rewrite He. now exists e.
Qed.

(** X21.  An error one of whose links has no message or no file name
    cannot be sent: [svn_ra_svn_write_cmd_failure] fails the assertion
    of the tuple writer when it reaches that link. *)
Theorem write_cmd_failure_needs_text (e : svn_error_t)
    (c : svn_ra_svn_conn_t) :
  writes_ok c -> forallb link_present (chain e) = false ->
  fst (svn_ra_svn_write_cmd_failure (Some e) c) = Crash AssertionFailed.
Proof.
  intros Hw Hp. unfold svn_ra_svn_write_cmd_failure.
  destruct (emits_then _ _ c emits_start_list Hw) as (c1 & Hw1 & ->).
  destruct (emits_then _ _ c1 (emits_write_word (bytes_of "failure")) Hw1)
    as (c2 & Hw2 & ->).
  destruct (emits_then _ _ c2 emits_start_list Hw2) as (c3 & Hw3 & ->).
  apply bind_crash. now apply write_cmd_failure_loop_asserts.
Qed.

Lemma find_command_unknown (named after : list svn_ra_svn_cmd_entry_t)
    (last_entry : svn_ra_svn_cmd_entry_t) (name : list byte) :
  Forall (fun e => exists n, cmdname e = Some n /\ strcmp0 name n = false)
         named ->
  cmdname last_entry = None ->
  find_command (named ++ last_entry :: after) name = Some last_entry.
Proof.
  intros Hn Hl. induction Hn as [| e named (n & He & Hs) _ IH];
    cbn [app find_command].
  - now rewrite Hl.
  - now rewrite He, Hs.
Qed.

(** X22.  A command that no entry of the table names is answered with a
    failure response that carries one error, of code
    SVN_ERR_RA_SVN_UNKNOWN_CMD and whose message names the command; the
    entry that ends the table then decides how the loop goes on: the
    error is returned when errors are passed through, the loop stops
    when that entry has its terminate flag set, and otherwise the next
    command is read. *)
Theorem unknown_command_answered (fuel : nat)
    (named after : list svn_ra_svn_cmd_entry_t)
    (last_entry : svn_ra_svn_cmd_entry_t) (pass_through_errors : bool)
    (c c0 : svn_ra_svn_conn_t) (name fname : list byte)
    (params : list svn_ra_svn_item_t) :
  svn_ra_svn_read_tuple fuel (bytes_of "wl") c
  = (Ok [PCstr name; PList params], c0) ->
  Forall (fun e => exists n, cmdname e = Some n /\ strcmp0 name n = false)
         named ->
  cmdname last_entry = None -> error_file E = Some fname -> writes_ok c0 ->
  let commands := named ++ last_entry :: after in
  let err := svn_error_create SVN_ERR_RA_SVN_UNKNOWN_CMD 0 None
               (bytes_of "Unknown command " ++ c_str name) in
  exists c1,
    written c0 c1 = wire (failure_response err) /\
    svn_ra_svn_handle_commands (S fuel) commands pass_through_errors c
    = if pass_through_errors then (Err err, c1)
      else if terminate last_entry then (Ok tt, c1)
      else svn_ra_svn_handle_commands fuel commands pass_through_errors c1.
Proof.
  intros Hread Hnamed Hlast Hfile Hw commands err.
  assert (Hp : forallb link_present (chain err) = true).
  { unfold err, svn_error_create, link_present.
    cbn [chain forallb message file non_null]. now rewrite Hfile. }
  pose proof (emits_write_cmd_failure err Hp) as Hem.
  destruct (Hem c0 Hw) as (c1 & He & _).
  exists c1. split.
  - replace c1 with (snd (svn_ra_svn_write_cmd_failure (Some err) c0))
      by now rewrite He.
    now apply emits_written.
  - rewrite (handle_commands_step fuel commands pass_through_errors c c0
               name params last_entry Hread
               (find_command_unknown named after last_entry name
                  Hnamed Hlast)).
    unfold handle_command, bind. rewrite Hlast. unfold ret at 1.
    fold err. unfold ignore_error. rewrite He.
    destruct pass_through_errors; cbn [fail ret fst snd negb].
    + reflexivity.
    + destruct (terminate last_entry); reflexivity.
Qed.

(** ** The buffer readers on arbitrary input *)

Lemma len_pending (c : svn_ra_svn_conn_t) :
  buffers_ok c ->
  len (pending c) = read_end c - read_ptr c + len (inbox (sock c)).
Proof.
  intros ((Hle & Hre & _) & Hr0 & Hrl & _). unfold pending, seg.
  rewrite len_app, len_take, len_drop. lia.
Qed.

Lemma comes_back_le {A} (P : svn_error_t -> Prop) (u1 u : Z)
    (c1 c : svn_ra_svn_conn_t) (r : result A * svn_ra_svn_conn_t) :
  comes_back P u1 c1 r -> len (pending c1) + (u - u1) <= len (pending c) ->
  comes_back P u c r.
Proof.
  unfold comes_back. intros [Hb H] Hle. split; [exact Hb |].
  destruct (fst r); auto. lia.
Qed.

Lemma advance_back (c : svn_ra_svn_conn_t) :
  buffers_ok c -> read_ptr c < read_end c ->
  buffers_ok (set_read c (read_buf c) (read_ptr c + 1) (read_end c)) /\
  len (pending (set_read c (read_buf c) (read_ptr c + 1) (read_end c))) + 1
  = len (pending c).
Proof.
  intros Hb Hlt.
  assert (Hb' : buffers_ok
                  (set_read c (read_buf c) (read_ptr c + 1) (read_end c))).
  { destruct Hb as ((? & ? & ? & ?) & ? & ? & ?).
    unfold buffers_ok, conn_inv. fields. repeat split; auto; lia. }
  split; [exact Hb' |]. rewrite (len_pending _ Hb'), (len_pending _ Hb).
  fields. lia.
Qed.

Lemma readbuf_fill_back (c : svn_ra_svn_conn_t) :
  buffers_ok c -> read_ptr c = read_end c ->
  comes_back io_kind 0 c (readbuf_fill c) /\
  (fst (readbuf_fill c) = Ok tt ->
   read_ptr (snd (readbuf_fill c)) < read_end (snd (readbuf_fill c))).
Proof.
  intros Hb Hempty. unfold readbuf_fill.
  rewrite (proj2 (Z.eqb_eq _ _) Hempty). cbn [negb]. unfold ignore.
  pose proof (buffers_ok_flush c Hb) as Hb1.
  pose proof (writebuf_flush_frame c) as (Hf1 & Hf2 & Hf3 & Hf4 & _).
  pose proof (len_pending c Hb) as Hlp.
  set (c1 := snd (writebuf_flush c)) in *.
  destruct (SOCK_READ _ _) as [[r data] s'] eqn:Hs.
  apply SOCK_READ_spec in Hs.
  assert (Hc2 : len data <= sizeof_read_buf E ->
                buffers_ok (set_read (set_sock c1 s')
                              (blit (read_buf c1) 0 data)
                              (read_ptr c1) (read_end c1))).
  { intros Hd. destruct Hb1 as ((? & ? & ? & ?) & ? & Hl & ?).
    unfold buffers_ok, conn_inv. fields.
    rewrite len_blit by (pose proof (len_nonneg data); lia).
    repeat split; auto. }
  destruct Hs as (_ & _ & _
                  & [(-> & -> & _) | (Hr1 & Hr2 & Hr3 & Hd & Hi & Hld)]).
  - cbn [Z.ltb Z.compare]. split; [| discriminate].
    split; [apply Hc2; cbn; lia | left; reflexivity].
  - destruct (r <? 0) eqn:Hneg; [apply Z.ltb_lt in Hneg; lia |].
    destruct (r =? 0) eqn:Hz.
    + split; [| discriminate].
      split; [apply Hc2; lia | right; reflexivity].
    + apply Z.eqb_neq in Hz. unfold comes_back. cbn [fst snd].
      match goal with
      | |- (buffers_ok ?x /\ _) /\ _ => set (c3 := x)
      end.
      assert (Hb3 : buffers_ok c3).
      { destruct (Hc2 ltac:(lia)) as ((? & ? & ? & ?) & ? & Hl & ?).
        subst c3. unfold buffers_ok, conn_inv in *. fields.
        repeat split; auto; lia. }
      split; [| intros _; subst c3; fields; lia].
      split; [exact Hb3 |].
      rewrite (len_pending _ Hb3), Hlp. subst c3. fields.
      rewrite Hi, len_drop, <- Hf4. lia.
Qed.

Lemma readbuf_getchar_back (c : svn_ra_svn_conn_t) :
  buffers_ok c -> comes_back io_kind 1 c (readbuf_getchar c).
Proof.
  intros Hb. unfold readbuf_getchar, bind.
  destruct (read_ptr c =? read_end c) eqn:He.
  - apply Z.eqb_eq in He.
    destruct (readbuf_fill_back c Hb He) as [[Hb1 H1] Hlt].
    destruct (readbuf_fill c) as [[[] | e | x |] c1]; cbn [fst snd] in *;
      try (split; assumption).
    destruct (advance_back c1 Hb1 (Hlt eq_refl)) as [Hb2 Hl2].
    split; [exact Hb2 |]. cbn [fst snd]. lia.
  - apply Z.eqb_neq in He.
    assert (Hlt : read_ptr c < read_end c).
    { destruct Hb as ((? & _) & _). lia. }
    destruct (advance_back c Hb Hlt) as [Hb2 Hl2].
    split; [exact Hb2 |]. cbn [fst snd]. lia.
Qed.

Lemma skip_whitespace_back (fuel : nat) (c : svn_ra_svn_conn_t) :
  buffers_ok c -> len (pending c) < Z.of_nat fuel ->
  comes_back io_kind 1 c (readbuf_getchar_skip_whitespace fuel c).
Proof.
  revert c. induction fuel as [| fuel IH]; intros c Hb Hf;
    [pose proof (len_nonneg (pending c)); lia |].
  cbn [readbuf_getchar_skip_whitespace]. unfold bind.
  destruct (readbuf_getchar_back c Hb) as [Hb1 H1].
  destruct (readbuf_getchar c) as [[x | e | k |] c1]; cbn [fst snd] in *;
    try (split; assumption).
  destruct (svn_iswhitespace x).
  - apply (comes_back_le io_kind 1 1 c1); [apply IH; [exact Hb1 | lia] | lia].
  - split; [exact Hb1 | exact H1].
Qed.

Lemma readbuf_drain_back (c : svn_ra_svn_conn_t) (n : Z) :
  buffers_ok c -> 0 <= n ->
  buffers_ok (snd (readbuf_drain c n)) /\
  len (pending (snd (readbuf_drain c n))) + len (fst (readbuf_drain c n))
  = len (pending c) /\
  len (fst (readbuf_drain c n)) = Z.min (read_end c - read_ptr c) n /\
  read_end (snd (readbuf_drain c n)) - read_ptr (snd (readbuf_drain c n))
  = read_end c - read_ptr c - len (fst (readbuf_drain c n)).
Proof.
  intros Hb Hn. pose proof (len_pending c Hb) as Hlp.
  unfold readbuf_drain. cbn [fst snd].
  set (k := if read_end c - read_ptr c <? n
            then read_end c - read_ptr c else n).
  assert (Hk : k = Z.min (read_end c - read_ptr c) n).
  { subst k. destruct (Z.ltb_spec (read_end c - read_ptr c) n); lia. }
  assert (Hb' : buffers_ok (set_read c (read_buf c) (read_ptr c + k)
                              (read_end c))).
  { destruct Hb as ((? & ? & ? & ?) & ? & ? & ?).
    unfold buffers_ok, conn_inv. fields. repeat split; auto; lia. }
  assert (Hl : len (seg (read_buf c) (read_ptr c) k) = k).
  { destruct Hb as ((? & ? & ? & ?) & ? & ? & ?).
    unfold seg. rewrite len_take, len_drop. lia. }
  split; [exact Hb' |]. rewrite (len_pending _ Hb'), Hlp, Hl. fields.
  repeat split; lia.
Qed.

Lemma readbuf_read_direct_back (fuel : nat) (n : Z) (got : list byte)
    (c : svn_ra_svn_conn_t) :
  buffers_ok c -> len (inbox (sock c)) < Z.of_nat fuel ->
  comes_back io_kind 0 c (readbuf_read_direct fuel n got c) /\
  read_ptr (snd (readbuf_read_direct fuel n got c)) = read_ptr c /\
  read_end (snd (readbuf_read_direct fuel n got c)) = read_end c /\
  (forall got', fst (readbuf_read_direct fuel n got c) = Ok got' ->
                len got <= len got').
Proof.
  revert got c. induction fuel as [| fuel IH]; intros got c Hb Hf;
    [pose proof (len_nonneg (inbox (sock c))); lia |].
  cbn [readbuf_read_direct].
  destruct (sizeof_read_buf E <? n - len got) eqn:Hlt.
  2:{ cbn [fst snd]. split; [split; [exact Hb | cbn [fst snd]; lia] |].
      split; [reflexivity |]. split; [reflexivity |].
      intros got' [= <-]. lia. }
  apply Z.ltb_lt in Hlt. unfold ignore.
  pose proof (buffers_ok_flush c Hb) as Hb1.
  pose proof (writebuf_flush_frame c) as (Hf1 & Hf2 & Hf3 & Hf4 & _).
  pose proof (len_pending c Hb) as Hlp.
  set (c1 := snd (writebuf_flush c)) in *.
  destruct (SOCK_READ _ _) as [[r data] s'] eqn:Hs.
  apply SOCK_READ_spec in Hs.
  pose proof (buffers_ok_set_sock c1 s' Hb1) as Hb2.
  destruct Hs as (_ & _ & _
                  & [(-> & -> & _) | (Hr1 & Hr2 & Hr3 & Hd & Hi & Hld)]).
  - cbn [Z.ltb Z.compare fst snd]. fields.
    split; [split; [exact Hb2 | left; reflexivity] |].
    split; [exact Hf2 |]. split; [exact Hf3 | discriminate].
  - destruct (r <? 0) eqn:Hneg; [apply Z.ltb_lt in Hneg; lia |].
    destruct (r =? 0) eqn:Hz.
    + cbn [fst snd]. fields.
      split; [split; [exact Hb2 | right; reflexivity] |].
      split; [exact Hf2 |]. split; [exact Hf3 | discriminate].
    + apply Z.eqb_neq in Hz.
      destruct (IH (got ++ data) (set_sock c1 s') Hb2) as (Hc & Hp & He & Hg).
      { fields. rewrite Hi, len_drop. rewrite Hf4 in *. lia. }
      fields. split; [| split; [congruence | split; [congruence |]]].
      * apply (comes_back_le io_kind 0 0 (set_sock c1 s')); [exact Hc |].
        rewrite (len_pending _ Hb2), Hlp. fields.
        rewrite Hi, len_drop, Hf2, Hf3. rewrite Hf4 in *. lia.
      * intros got' Hgot. apply Hg in Hgot. rewrite len_app in Hgot.
        pose proof (len_nonneg data). lia.
Qed.

Lemma readbuf_read_buffered_back (fuel : nat) (n : Z) (got : list byte)
    (c : svn_ra_svn_conn_t) :
  buffers_ok c -> (len got < n -> read_ptr c = read_end c) ->
  len (pending c) < Z.of_nat fuel ->
  comes_back io_kind 0 c (readbuf_read_buffered fuel n got c).
Proof.
  revert got c. induction fuel as [| fuel IH]; intros got c Hb Hempty Hf;
    [pose proof (len_nonneg (pending c)); lia |].
  cbn [readbuf_read_buffered].
  destruct (len got <? n) eqn:Hlt; [| split; [exact Hb | cbn; lia]].
  apply Z.ltb_lt in Hlt. unfold bind.
  destruct (readbuf_fill_back c Hb (Hempty Hlt)) as [[Hb1 H1] Hlt1].
  destruct (readbuf_fill c) as [[[] | e | x |] c1]; cbn [fst snd] in *;
    try (split; assumption).
  specialize (Hlt1 eq_refl).
  destruct (readbuf_drain_back c1 (n - len got) Hb1) as (Hb2 & Hl2 & Hd2 & He2);
    [lia |].
  destruct (readbuf_drain c1 (n - len got)) as [data c2]. cbn [fst snd] in *.
  apply (comes_back_le io_kind 0 0 c2); [| lia].
  apply IH; [exact Hb2 | rewrite len_app; lia | lia].
Qed.

Lemma readbuf_read_back (fuel : nat) (n : Z) (c : svn_ra_svn_conn_t) :
  buffers_ok c -> 0 <= n -> len (pending c) < Z.of_nat fuel ->
  comes_back io_kind 0 c (readbuf_read fuel n c).
Proof.
  intros Hb Hn Hf. unfold readbuf_read.
  destruct (readbuf_drain_back c n Hb Hn) as (Hb1 & Hl1 & Hd1 & He1).
  destruct (readbuf_drain c n) as [data c1]. cbn [fst snd] in *.
  pose proof (len_nonneg data) as Hdn.
  pose proof (len_pending c1 Hb1) as Hlp1.
  destruct (readbuf_read_direct_back fuel n data c1 Hb1)
    as ([Hb2 H2] & Hp2 & He2 & Hg2).
  { destruct Hb1 as ((? & _) & _). lia. }
  unfold bind.
  destruct (readbuf_read_direct fuel n data c1) as [[got | e | x |] c2];
    cbn [fst snd] in *; try (split; assumption).
  specialize (Hg2 got eq_refl).
  apply (comes_back_le io_kind 0 0 c2); [| lia].
  apply readbuf_read_buffered_back; [exact Hb2 | lia | lia].
Qed.

(** X24.  The buffer readers come back from every input: on a
    connection with well-formed buffers, whatever the socket does,
    [readbuf_getchar], [readbuf_read] (for a length that is not
    negative) and [readbuf_getchar_skip_whitespace] return a value or an
    error whose code is SVN_ERR_RA_SVN_IO_ERROR or
    SVN_ERR_RA_SVN_CONNECTION_CLOSED; the assertion of [readbuf_fill]
    does not fail, the buffers stay well formed, and a byte that
    [readbuf_getchar] returns has been consumed. *)
Theorem buffer_readers_come_back (fuel : nat) (n : Z)
    (c : svn_ra_svn_conn_t) :
  buffers_ok c -> 0 <= n -> len (pending c) < Z.of_nat fuel ->
  comes_back io_kind 1 c (readbuf_getchar c) /\
  comes_back io_kind 0 c (readbuf_read fuel n c) /\
  comes_back io_kind 1 c (readbuf_getchar_skip_whitespace fuel c).
Proof.
  intros Hb Hn Hf. split; [| split].
  - now apply readbuf_getchar_back.
  - now apply readbuf_read_back.
  - now apply skip_whitespace_back.
Qed.

(** ** The errors of the readers *)

Lemma errors_in_weaken {A} (P Q : svn_error_t -> Prop) (m : M A) :
  (forall e, P e -> Q e) -> errors_in P m -> errors_in Q m.
Proof. intros H Hm c e He. apply H, (Hm c e He). Qed.

Lemma io_kind_read_kind (e : svn_error_t) : io_kind e -> read_kind e.
Proof. unfold io_kind, read_kind. tauto. Qed.

Lemma readbuf_fill_codes : errors_in io_kind readbuf_fill.
Proof.
  intros c e. unfold readbuf_fill, ignore.
  destruct (negb _); [discriminate |].
  destruct (SOCK_READ _ _) as [[r data] s'].
  destruct (r <? 0); [| destruct (r =? 0); [| discriminate]];
    cbn [fst]; intros H; injection H as <-; [left | right]; reflexivity.
Qed.

Lemma readbuf_getchar_codes : errors_in io_kind readbuf_getchar.
Proof.
  apply errors_in_bind; [| discriminate].
  intros c e. destruct (_ =? _); [apply readbuf_fill_codes | discriminate].
Qed.

Lemma readbuf_getchar_skip_whitespace_codes (fuel : nat) :
  errors_in io_kind (readbuf_getchar_skip_whitespace fuel).
Proof.
  induction fuel as [| fuel IH]; cbn [readbuf_getchar_skip_whitespace];
    [discriminate |].
  apply errors_in_bind; [apply readbuf_getchar_codes |].
  intros r. destruct (svn_iswhitespace r); [exact IH | discriminate].
Qed.

Lemma readbuf_read_direct_codes (fuel : nat) (n : Z) (got : list byte) :
  errors_in io_kind (readbuf_read_direct fuel n got).
Proof.
  revert got. induction fuel as [| fuel IH]; intros got c e;
    cbn [readbuf_read_direct]; destruct (_ <? _); try discriminate.
  unfold ignore. destruct (SOCK_READ _ _) as [[r data] s'].
  destruct (r <? 0); [| destruct (r =? 0); [| apply IH]];
    cbn [fst]; intros H; injection H as <-; [left | right]; reflexivity.
Qed.

Lemma readbuf_read_buffered_codes (fuel : nat) (n : Z) (got : list byte) :
  errors_in io_kind (readbuf_read_buffered fuel n got).
Proof.
  revert got. induction fuel as [| fuel IH]; intros got c e;
    cbn [readbuf_read_buffered]; destruct (_ <? _); try discriminate.
  revert c e. apply errors_in_bind; [apply readbuf_fill_codes |].
  intros _ c e. destruct (readbuf_drain c _) as [data c2]. apply IH.
Qed.

Lemma readbuf_read_codes (fuel : nat) (n : Z) :
  errors_in io_kind (readbuf_read fuel n).
Proof.
  intros c e. unfold readbuf_read.
  destruct (readbuf_drain c n) as [data c1]. revert c1 e.
  apply errors_in_bind; [apply readbuf_read_direct_codes |].
  intros got. apply readbuf_read_buffered_codes.
Qed.

Lemma read_item_digits_codes (fuel : nat) (v : Z) :
  errors_in read_kind (read_item_digits fuel v).
Proof.
  revert v. induction fuel as [| fuel IH]; intros v;
    cbn [read_item_digits]; [discriminate |].
  apply errors_in_bind;
    [apply (errors_in_weaken _ _ _ io_kind_read_kind), readbuf_getchar_codes |].
  intros x. destruct (negb (apr_isdigit x)); [discriminate | apply IH].
Qed.

Lemma read_item_word_codes (fuel : nat) (str : list byte) :
  errors_in read_kind (read_item_word fuel str).
Proof.
  revert str. induction fuel as [| fuel IH]; intros str;
    cbn [read_item_word]; [discriminate |].
  apply errors_in_bind;
    [apply (errors_in_weaken _ _ _ io_kind_read_kind), readbuf_getchar_codes |].
  intros x. destruct (_ && _); [discriminate | apply IH].
Qed.

Lemma read_item_end_codes (x : byte) (item : svn_ra_svn_item_t) :
  errors_in read_kind (read_item_end x item).
Proof.
  intros c e. unfold read_item_end. destruct (negb _); [| discriminate].
  cbn [fail fst]. intros [= <-]. right; right; reflexivity.
Qed.

Lemma read_item_codes (fuel : nat) :
  (forall item0 x, errors_in read_kind (read_item fuel item0 x)) /\
  (forall acc, errors_in read_kind (read_item_list fuel acc)).
Proof.
  pose proof (errors_in_weaken _ _ readbuf_getchar io_kind_read_kind
                readbuf_getchar_codes) as Hgetchar.
  induction fuel as [| fuel [IHi IHl]]; [split; discriminate |].
  split.
  - intros item0 x. cbn [read_item].
    destruct (apr_isdigit x); [| destruct (apr_isalpha x);
                                 [| destruct (x =? ch "(")]].
    + apply errors_in_bind; [apply read_item_digits_codes |].
      intros [val t]. destruct (t =? ch ":"); [| discriminate].
      apply errors_in_bind;
        [apply (errors_in_weaken _ _ _ io_kind_read_kind),
           readbuf_read_codes |].
      intros s. apply errors_in_bind; [exact Hgetchar | discriminate].
    + apply errors_in_bind; [apply read_item_word_codes |].
      intros [w t]. apply read_item_end_codes.
    + apply errors_in_bind; [apply IHl |].
      intros l. apply errors_in_bind; [exact Hgetchar |].
      intros y. apply read_item_end_codes.
    + apply read_item_end_codes.
  - intros acc. cbn [read_item_list].
    apply errors_in_bind;
      [apply (errors_in_weaken _ _ _ io_kind_read_kind),
         readbuf_getchar_skip_whitespace_codes |].
    intros x. destruct (x =? ch ")"); [discriminate |].
    apply errors_in_bind; [apply IHi |]. intros i. apply IHl.
Qed.

(** X23.  The errors of the item and tuple readers: an error that
    [svn_ra_svn_read_item] or [svn_ra_svn_read_tuple] returns, on any
    connection and whatever the input, has the code
    SVN_ERR_RA_SVN_IO_ERROR, SVN_ERR_RA_SVN_CONNECTION_CLOSED or
    SVN_ERR_RA_SVN_MALFORMED_DATA. *)
Theorem reader_error_codes (fuel : nat) (fmt : list byte) :
  errors_in read_kind (svn_ra_svn_read_item fuel) /\
  errors_in read_kind (svn_ra_svn_read_tuple fuel fmt).
Proof.
  assert (Hitem : errors_in read_kind (svn_ra_svn_read_item fuel)).
  { unfold svn_ra_svn_read_item.
    apply errors_in_bind;
      [apply (errors_in_weaken _ _ _ io_kind_read_kind),
         readbuf_getchar_skip_whitespace_codes |].
    intros x. apply (proj1 (read_item_codes fuel)). }
  split; [exact Hitem |].
  unfold svn_ra_svn_read_tuple. apply errors_in_bind; [exact Hitem |].
  intros [n | s | w | l] c e; try (intros [= <-]; right; right; reflexivity).
  unfold lift, svn_ra_svn_vparse_tuple. cbn [fst].
  destruct (if strlen fmt <=? len l
            then vparse_tuple_loop l 0 (c_str fmt) [] else None);
    [discriminate |].
  intros [= <-]. right; right; reflexivity.
Qed.

(** X25.  A new connection has well-formed, empty buffers: what is
    pending is what the socket holds, and what has been sent is what
    the socket has delivered. *)
Theorem new_connection (s : socket) :
  buffers_ok (svn_ra_svn_create_conn s) /\
  pending (svn_ra_svn_create_conn s) = inbox s /\
  sent (svn_ra_svn_create_conn s) = outbox s.
Proof.
  split; [| split].
  - unfold buffers_ok, conn_inv, svn_ra_svn_create_conn, len. fields.
    rewrite !repeat_length. lia.
  - now apply pending_empty_buffer.
  - rewrite sent_empty_buffer; reflexivity.
Qed.

Lemma find_command_named (named after : list svn_ra_svn_cmd_entry_t)
    (entry : svn_ra_svn_cmd_entry_t) (name nm : list byte) :
  Forall (fun e => exists n, cmdname e = Some n /\ strcmp0 name n = false)
         named ->
  cmdname entry = Some nm -> strcmp0 name nm = true ->
  find_command (named ++ entry :: after) name = Some entry.
Proof.
  intros Hn Hc Hs. induction Hn as [| e named (n & He & Hne) _ IH];
    cbn [app find_command].
  - now rewrite Hc, Hs.
  - now rewrite He, Hne.
Qed.

(** X26.  A command is dispatched to the first entry of the table that
    has its name: the handler of that entry is called with the
    parameters of the command, and when it succeeds the loop writes
    nothing itself; it stops when the entry has its terminate flag set
    and reads the next command otherwise. *)
Theorem command_dispatch (fuel : nat)
    (named after : list svn_ra_svn_cmd_entry_t)
    (entry : svn_ra_svn_cmd_entry_t) (pass_through_errors : bool)
    (c c0 c1 : svn_ra_svn_conn_t) (name nm : list byte)
    (params : list svn_ra_svn_item_t) :
  svn_ra_svn_read_tuple fuel (bytes_of "wl") c
  = (Ok [PCstr name; PList params], c0) ->
  Forall (fun e => exists n, cmdname e = Some n /\ strcmp0 name n = false)
         named ->
  cmdname entry = Some nm -> strcmp0 name nm = true ->
  handler entry params c0 = (Ok tt, c1) ->
  let commands := named ++ entry :: after in
  svn_ra_svn_handle_commands (S fuel) commands pass_through_errors c
  = if terminate entry then (Ok tt, c1)
    else svn_ra_svn_handle_commands fuel commands pass_through_errors c1.
Proof.
  intros Hread Hnamed Hc Hs Hh commands.
  rewrite (handle_commands_step fuel commands pass_through_errors c c0
             name params entry Hread
             (find_command_named named after entry name nm Hnamed Hc Hs)).
  unfold handle_command, bind. rewrite Hc, Hh. cbn [ret negb].
  destruct (terminate entry); reflexivity.
Qed.

End Marshal.



(** ** The claims at concrete inputs *)

(** The invariant on a four-byte connection whose next write fails. *)
Lemma conn_inv_preserved_witness :
  let c := svn_ra_svn_create_conn small_env
             (socket_with (bytes_of "hello") [IoXfer 2] [IoFail 32]) in
  conn_inv small_env (svn_ra_svn_create_conn small_env (socket_with [] [] [])) /\
  conn_inv small_env (snd (writebuf_push small_env c (bytes_of "abcdef"))) /\
  conn_inv small_env (snd (writebuf_flush small_env c)) /\
  conn_inv small_env (snd (writebuf_write small_env (bytes_of "abcdef") c)) /\
  conn_inv small_env (snd (readbuf_drain c 3)) /\
  conn_inv small_env (snd (readbuf_fill small_env c)) /\
  conn_inv small_env (snd (readbuf_getchar small_env c)) /\
  conn_inv small_env (snd (readbuf_getchar_skip_whitespace small_env 7 c)) /\
  conn_inv small_env (snd (readbuf_read small_env 7 3 c)).
Proof.
  apply (conn_inv_preserved small_env); conn_facts.
Defined.

(** The largest number that survives, through four-byte buffers and
    short reads and writes. *)
Lemma number_roundtrip_witness :
  let cw := svn_ra_svn_create_conn small_env
              (socket_with [] [] [IoXfer 1; IoXfer 2]) in
  let cr := svn_ra_svn_create_conn small_env
              (socket_with (bytes_of "9223372036854775807 ( next ) ")
                           [IoXfer 1; IoXfer 3] []) in
  fst (svn_ra_svn_write_number small_env (2 ^ 63 - 1) cw) = Ok tt /\
  exists cr',
    svn_ra_svn_read_item small_env 32 cr = (Ok (NUMBER (2 ^ 63 - 1)), cr') /\
    pending cr' = bytes_of "( next ) ".
Proof.
  apply (number_roundtrip small_env); conn_facts.
Defined.

(** C1.  The flush that [readbuf_fill] and the direct path of
    [readbuf_read] call before the socket read can fail, and they read
    all the same: here the write fails, both reads succeed and take the
    peer's bytes from the socket, and the byte that was waiting in the
    write buffer is still there, not delivered. *)
Theorem read_with_unflushed_bytes :
  let c := broken_pipe_conn (bytes_of "0123456789") in
  let filled := readbuf_fill small_env c in
  let direct := readbuf_read small_env 10 10 c in
  writebuf_write small_env (bytes_of "a")
    (svn_ra_svn_create_conn small_env
       (socket_with (bytes_of "0123456789") [] [IoFail 32]))
  = (Ok tt, c) /\
  write_pos c = 1 /\
  (exists e, fst (writebuf_flush small_env c) = Err e) /\
  fst filled = Ok tt /\
  inbox (sock (snd filled)) = bytes_of "456789" /\
  write_pos (snd filled) = 1 /\ outbox (sock (snd filled)) = [] /\
  fst direct = Ok (bytes_of "0123456789") /\
  inbox (sock (snd direct)) = [] /\
  write_pos (snd direct) = 1 /\ outbox (sock (snd direct)) = [].
Proof.
  cbv zeta. split; [reflexivity |]. split; [reflexivity |].
  split; [eexists; reflexivity |].
  repeat split; vm_compute; reflexivity.
Qed.

(** C2.  The number 2^63 does not survive the round trip: the writer
    prints it as a negative number, which the reader rejects. *)
Theorem large_number_not_read_back :
  let cw := svn_ra_svn_create_conn usual_env (socket_with [] [] []) in
  let cw' := snd (write_item usual_env (NUMBER (2 ^ 63)) cw) in
  let cr := svn_ra_svn_create_conn usual_env
              (socket_with (written cw cw') [] []) in
  item_ok (NUMBER (2 ^ 63)) = false /\
  fst (write_item usual_env (NUMBER (2 ^ 63)) cw) = Ok tt /\
  written cw cw' = bytes_of "-9223372036854775808 " /\
  fst (svn_ra_svn_read_item usual_env 64 cr)
  = Err (malformed usual_env "Malformed network data").
Proof.
  cbv zeta. repeat split; vm_compute; reflexivity.
Qed.

(** C4.  A number or a string that is not followed by whitespace is
    accepted: [read_item] returns before it tests the character that
    ends the item, which is consumed, while a word in the same place is
    rejected. *)
Theorem item_without_whitespace_accepted :
  let reader (input : string) :=
    svn_ra_svn_read_item usual_env 16
      (svn_ra_svn_create_conn usual_env (socket_with (bytes_of input) [] [])) in
  fst (reader "1x "%string) = Ok (NUMBER 1) /\
  pending (snd (reader "1x "%string)) = bytes_of " " /\
  fst (reader "2:abx "%string) = Ok (STRING (bytes_of "ab")) /\
  pending (snd (reader "2:abx "%string)) = bytes_of " " /\
  fst (reader "ab* "%string)
  = Err (malformed usual_env "Malformed network data").
Proof.
  cbv zeta. repeat split; vm_compute; reflexivity.
Qed.

(** C3 fails: the handler of [go] returns an error that is not wrapped,
    [pass_through_errors] is not set, and yet the error leaves the loop:
    no failure response is written and the second command is not
    read. *)
Lemma handler_error_leaves_loop :
  let c := svn_ra_svn_create_conn usual_env
             (socket_with (bytes_of "( go ( ) ) ( go ( ) ) ") [] []) in
  let r := svn_ra_svn_handle_commands usual_env 32
             (failing_table path_not_found) false c in
  fst r = Err path_not_found /\ sent (snd r) = [] /\
  pending (snd r) = bytes_of "( go ( ) ) ".
Proof.
  cbv zeta. repeat split; vm_compute; reflexivity.
Qed.

(** Tuple parsing at work: a list that fits its format, one with an item
    of the wrong kind, one that is too short, and one with an item to
    spare. *)
Example vparse_tuple_examples :
  let items := [WORD (bytes_of "go"); NUMBER 7; LIST []] in
  svn_ra_svn_vparse_tuple usual_env items (bytes_of "wnl")
  = Ok [PCstr (bytes_of "go"); PNumber 7; PList []] /\
  svn_ra_svn_vparse_tuple usual_env items (bytes_of "wsl")
  = Err (malformed usual_env "Malformed network data") /\
  svn_ra_svn_vparse_tuple usual_env items (bytes_of "wnll")
  = Err (malformed usual_env "Malformed network data") /\
  svn_ra_svn_vparse_tuple usual_env items (bytes_of "wr")
  = Ok [PCstr (bytes_of "go"); PRev 7].
Proof. cbv zeta. repeat split. Qed.

(** The ways through the loop: an error that is not wrapped, a wrapped
    one with [pass_through_errors] set, a wrapper with no cause, and a
    cause that cannot be written. *)
Lemma handler_error_dispatch_witness :
  let c := svn_ra_svn_create_conn small_env
             (socket_with (bytes_of "( go ( ) ) ( go ( ) ) ") [] []) in
  let c0 := snd (svn_ra_svn_read_tuple small_env 16 (bytes_of "wl") c) in
  svn_ra_svn_handle_commands small_env 17
    (failing_table path_not_found) false c
  = (Err path_not_found, c0) /\
  svn_ra_svn_handle_commands small_env 17
    (failing_table reported_error) true c
  = (Err path_not_found,
     snd (svn_ra_svn_write_cmd_failure small_env (Some path_not_found) c0)) /\
  svn_ra_svn_handle_commands small_env 17
    (failing_table bare_wrapper) true c
  = svn_ra_svn_handle_commands small_env 16
      (failing_table bare_wrapper) true c0 /\
  svn_ra_svn_handle_commands small_env 17
    (failing_table wrapped_twice) false c
  = (Crash AssertionFailed,
     snd (svn_ra_svn_write_cmd_failure small_env (Some reported_error) c0)).
Proof.
  cbv zeta.
  pose (go := Build_svn_ra_svn_cmd_entry_t (Some (bytes_of "go"))).
  pose proof (fun c c0 Hread err pass =>
                handler_error_dispatch small_env eq_refl 16
                  (failing_table err) pass c c0 c0
                  (bytes_of "go") (bytes_of "go") []
                  (go (fun _ => fail err) false)
                  err Hread eq_refl eq_refl eq_refl) as H.
  cbv zeta in H.
  match goal with
  | |- svn_ra_svn_handle_commands _ _ _ _ ?c = (_, ?c0) /\ _ =>
      specialize (H c c0 ltac:(vm_compute; reflexivity))
  end.
  split; [| split; [| split]].
  - apply (proj1 (H path_not_found false)). discriminate.
  - apply (proj2 (proj2 (proj2
             (proj2 (proj2 (H reported_error true)) eq_refl
                    path_not_found eq_refl)))).
    left. vm_compute. reflexivity.
  - etransitivity;
      [exact (proj1 (proj2 (H bare_wrapper true)) eq_refl eq_refl)
      | vm_compute; reflexivity].
  - apply (proj1 (proj2
             (proj2 (proj2 (H wrapped_twice false)) eq_refl
                    reported_error eq_refl)));
      conn_facts.
Defined.

(** C5 fails: the chain of the third scenario comes back from the wire
    as it was, so the innermost cause on the peer is "path not found",
    the innermost of the sender, and not "No such revision", its
    outermost. *)
Lemma peer_innermost_is_sender_innermost :
  let cw := svn_ra_svn_create_conn usual_env (socket_with [] [] []) in
  let cw' :=
    snd (svn_ra_svn_write_cmd_failure usual_env (Some no_such_revision) cw) in
  let cr := svn_ra_svn_create_conn usual_env
              (socket_with (sent cw') [] []) in
  sent cw'
  = bytes_of ("( failure ( ( 210004 16:No such revision 4:fs.c 42 ) "
              ++ "( 125002 14:path not found 6:tree.c 17 ) ) ) ") /\
  fst (svn_ra_svn_read_cmd_response usual_env 128 [] cr)
  = Err no_such_revision /\
  link_fields (innermost no_such_revision) = link_fields path_not_found /\
  link_fields (innermost no_such_revision)
  <> link_fields (outermost no_such_revision).
Proof.
  cbv zeta. split; [vm_compute; reflexivity |].
  split; [vm_compute; reflexivity |].
  split; [reflexivity | discriminate].
Qed.

(** The chain of the third scenario, through four-byte buffers and short
    reads and writes. *)
Lemma failure_roundtrip_witness :
  let cw := svn_ra_svn_create_conn small_env
              (socket_with [] [] [IoXfer 3; IoXfer 1]) in
  let cr := svn_ra_svn_create_conn small_env
              (socket_with
                 (bytes_of
                    ("( failure ( ( 210004 16:No such revision 4:fs.c 42 ) "
                     ++ "( 125002 14:path not found 6:tree.c 17 ) ) ) next"))
                 [IoXfer 1; IoXfer 2] []) in
  fst (svn_ra_svn_write_cmd_failure small_env (Some no_such_revision) cw)
  = Ok tt /\
  exists e' cr',
    svn_ra_svn_read_cmd_response small_env 128 [] cr = (Err e', cr') /\
    pending cr' = bytes_of "next" /\
    map link_fields (chain e') = map link_fields (chain no_such_revision) /\
    link_fields (outermost e') = link_fields (outermost no_such_revision) /\
    link_fields (innermost e') = link_fields (innermost no_such_revision) /\
    Forall (fun l => src_err l = 0) (chain e').
Proof.
  apply (failure_roundtrip small_env); conn_facts.
Defined.

(** An invalid revision inside and outside an optional group, and a
    tuple with every value present. *)
Lemma vwrite_tuple_optional_witness :
  let c := svn_ra_svn_create_conn small_env (socket_with [] [] []) in
  let ap := [ArgNumber 7; ArgRev 5; ArgString (Some (bytes_of "ab"));
             ArgCstr (Some (bytes_of "cd")); ArgCstr (Some (bytes_of "w"))] in
  vwrite_tuple_loop small_env (bytes_of "r]") [ArgRev (-1)] 1 c
  = vwrite_tuple_loop small_env (bytes_of "]") [] 1 c /\
  vwrite_tuple_loop small_env (bytes_of "r") [ArgRev (-1)] 0 c
  = (Crash AssertionFailed, c) /\
  fst (svn_ra_svn_vwrite_tuple small_env (bytes_of "nr(sc)w") ap c)
  = Ok tt /\
  written c (snd (svn_ra_svn_vwrite_tuple small_env (bytes_of "nr(sc)w")
                    ap c))
  = bytes_of "( " ++ bytes_of "7 5 ( 2:ab 2:cd ) w " ++ bytes_of ") ".
Proof.
  cbv zeta.
  pose proof (fun fmt ap opt c =>
                vwrite_tuple_optional small_env eq_refl fmt ap opt c) as H.
  split; [| split].
  - apply (proj1 (proj2 (proj2 (H (bytes_of "]") [] 1 _))));
      reflexivity.
  - apply (proj1 (proj2 (proj2 (proj2 (H [] [] 0 _))))); reflexivity.
  - apply (proj2 (proj2 (proj2 (proj2 (H (bytes_of "nr(sc)w") _ 0 _)))));
      try reflexivity; conn_facts.
    intros [Hin | [Hin | [Hin | [Hin | [Hin | [Hin | [Hin | []]]]]]]];
      discriminate.
Defined.

(** Reads on a connection whose flush fails. *)
Lemma flush_error_discarded_witness :
  let c := broken_pipe_conn (bytes_of "0123456789") in
  write_failure
    (svn_error_create small_env SVN_ERR_RA_SVN_IO_ERROR 32 None
       (bytes_of "Write failure")) /\
  (read_ptr c = read_end c -> fst (readbuf_fill small_env c) = Ok tt) /\
  fst (readbuf_read small_env 10 (len (bytes_of "0123456789")) c)
  = Ok (bytes_of "0123456789") /\
  (forall e' n,
     fst (readbuf_fill small_env c) = Err e' \/
     fst (readbuf_getchar small_env c) = Err e' \/
     fst (readbuf_getchar_skip_whitespace small_env 10 c) = Err e' \/
     fst (readbuf_read small_env 10 n c) = Err e' ->
     ~ write_failure e').
Proof.
  apply (flush_error_discarded small_env eq_refl eq_refl
           (broken_pipe_conn (bytes_of "0123456789"))
           (snd (writebuf_flush small_env
                   (broken_pipe_conn (bytes_of "0123456789"))))
           _ 10 (bytes_of "0123456789") []);
    conn_facts.
Defined.

(** ** Further properties at concrete inputs *)

(** Ten bytes through a four-byte buffer and short writes. *)
Lemma writebuf_write_in_order_witness :
  let c := svn_ra_svn_create_conn small_env
             (socket_with [] [] [IoXfer 1; IoXfer 2]) in
  fst (writebuf_write small_env (bytes_of "abcdefghij") c) = Ok tt /\
  sent (snd (writebuf_write small_env (bytes_of "abcdefghij") c))
  = sent c ++ bytes_of "abcdefghij" /\
  writes_ok small_env (snd (writebuf_write small_env (bytes_of "abcdefghij") c)).
Proof.
  apply (writebuf_write_in_order small_env); conn_facts.
Defined.

(** Three buffered bytes, flushed one at a time. *)
Lemma flush_delivers_all_witness :
  let c := snd (writebuf_write small_env (bytes_of "abc")
                  (svn_ra_svn_create_conn small_env
                     (socket_with [] [] [IoXfer 1; IoXfer 1]))) in
  fst (svn_ra_svn_flush small_env c) = Ok tt /\
  write_pos (snd (svn_ra_svn_flush small_env c)) = 0 /\
  outbox (sock (snd (svn_ra_svn_flush small_env c))) = sent c.
Proof.
  apply (flush_delivers_all small_env); conn_facts.
Defined.

(** A flush on a broken pipe. *)
Lemma flush_failure_keeps_buffer_witness :
  let c := broken_pipe_conn [] in
  let c' := snd (writebuf_flush small_env c) in
  let e := svn_error_create small_env SVN_ERR_RA_SVN_IO_ERROR 32 None
             (bytes_of "Write failure") in
  apr_err e = SVN_ERR_RA_SVN_IO_ERROR /\ src_err e = errno (sock c') /\
  write_pos c' = write_pos c /\ write_buf c' = write_buf c /\
  exists k, 0 <= k < write_pos c /\
            outbox (sock c') = outbox (sock c) ++ take k (write_buf c).
Proof.
  apply (flush_failure_keeps_buffer small_env eq_refl (broken_pipe_conn []));
    conn_facts.
Defined.

(** Two bytes that fit the buffer. *)
Lemma small_write_is_buffered_witness :
  let c := svn_ra_svn_create_conn small_env (socket_with [] [] []) in
  exists c',
    writebuf_write small_env (bytes_of "ab") c = (Ok tt, c') /\
    sock c' = sock c /\ write_pos c' = write_pos c + len (bytes_of "ab") /\
    take (write_pos c') (write_buf c')
    = take (write_pos c) (write_buf c) ++ bytes_of "ab".
Proof.
  apply (small_write_is_buffered small_env); conn_facts.
Defined.

(** A list written on a broken pipe. *)
Lemma write_item_outcome_witness :
  let i := LIST [WORD (bytes_of "ab"); NUMBER 7] in
  let c := broken_pipe_conn [] in
  buffers_ok small_env (snd (write_item small_env i c)) /\
  (fst (write_item small_env i c) = Ok tt \/
   exists e, fst (write_item small_env i c) = Err e /\
             apr_err e = SVN_ERR_RA_SVN_IO_ERROR).
Proof.
  apply (write_item_outcome small_env); conn_facts.
Defined.

(** Five bytes read through a four-byte buffer and short reads. *)
Lemma readbuf_read_in_order_witness :
  let c := svn_ra_svn_create_conn small_env
             (socket_with (bytes_of "hello x") [IoXfer 1; IoXfer 2] []) in
  (exists c',
     readbuf_getchar small_env c = (Ok 104, c') /\
     pending c' = bytes_of "ello" ++ bytes_of " x" /\
     reads_ok small_env c') /\
  (exists c',
     readbuf_read small_env 8 (len (104 :: bytes_of "ello")) c
     = (Ok (104 :: bytes_of "ello"), c') /\
     pending c' = bytes_of " x" /\ reads_ok small_env c').
Proof.
  apply (readbuf_read_in_order small_env); conn_facts.
Defined.

(** Reads on a connection that the peer has closed. *)
Lemma read_errors_witness :
  let c := svn_ra_svn_create_conn small_env (socket_with [] [] []) in
  (no_fail (rd_script (sock c)) -> pending c = [] ->
   exists e c',
     readbuf_getchar small_env c = (Err e, c') /\
     apr_err e = SVN_ERR_RA_SVN_CONNECTION_CLOSED) /\
  (no_fail (rd_script (sock c)) -> len (pending c) < 3 ->
   len (pending c) < Z.of_nat 4 ->
   exists e c',
     readbuf_read small_env 4 3 c = (Err e, c') /\
     apr_err e = SVN_ERR_RA_SVN_CONNECTION_CLOSED) /\
  (forall k rs,
     read_ptr c = read_end c -> rd_script (sock c) = IoFail k :: rs ->
     exists e c',
       readbuf_getchar small_env c = (Err e, c') /\
       apr_err e = SVN_ERR_RA_SVN_IO_ERROR /\ src_err e = k).
Proof.
  apply (read_errors small_env); conn_facts.
Defined.

(** A space and a newline before a letter. *)
Lemma skip_whitespace_spec_witness :
  let c := svn_ra_svn_create_conn small_env
             (socket_with [32; 10; 120; 33] [IoXfer 1] []) in
  (exists c',
     readbuf_getchar_skip_whitespace small_env 4 c = (Ok 120, c') /\
     pending c' = [33] /\ reads_ok small_env c') /\
  (forall fuel' c0 c0' r,
     readbuf_getchar_skip_whitespace small_env fuel' c0 = (Ok r, c0') ->
     svn_iswhitespace r = false).
Proof.
  apply (skip_whitespace_spec small_env eq_refl eq_refl 4 _ [32; 10] 120 [33]);
    conn_facts; simpl; lia.
Defined.

(** A nested list through four-byte buffers and short reads and
    writes. *)
Lemma wellformed_item_roundtrip_witness :
  let i := LIST [WORD (bytes_of "ab"); STRING (bytes_of "x y");
                 LIST [NUMBER 7]] in
  let cw := svn_ra_svn_create_conn small_env
              (socket_with [] [] [IoXfer 1; IoXfer 2]) in
  let cr := svn_ra_svn_create_conn small_env
              (socket_with (bytes_of "( ab 3:x y ( 7 ) ) next")
                           [IoXfer 2; IoXfer 1] []) in
  fst (write_item small_env i cw) = Ok tt /\
  exists cr',
    svn_ra_svn_read_item small_env 64 cr = (Ok i, cr') /\
    pending cr' = bytes_of "next".
Proof.
  apply (wellformed_item_roundtrip small_env); conn_facts.
Defined.

(** A C string cut at its terminator. *)
Lemma write_cstring_as_string_witness :
  let s := [97; 98; 0; 99; 100] in
  let c := svn_ra_svn_create_conn small_env (socket_with [] [] [IoXfer 1]) in
  fst (svn_ra_svn_write_cstring small_env s c) = Ok tt /\
  fst (svn_ra_svn_write_string small_env (c_str s) c) = Ok tt /\
  sent (snd (svn_ra_svn_write_cstring small_env s c))
  = sent (snd (svn_ra_svn_write_string small_env (c_str s) c)).
Proof.
  apply (write_cstring_as_string small_env); conn_facts.
Defined.

(** A word after a space and a newline. *)
Lemma read_item_skips_whitespace_witness :
  let c := svn_ra_svn_create_conn small_env
             (socket_with ([32; 10] ++ bytes_of "ab x") [IoXfer 1] []) in
  exists c',
    svn_ra_svn_read_item small_env 16 c = (Ok (WORD (bytes_of "ab")), c') /\
    pending c' = bytes_of "x".
Proof.
  apply (read_item_skips_whitespace small_env eq_refl eq_refl
           (WORD (bytes_of "ab")) _ [32; 10] (bytes_of "x") 16);
    conn_facts.
Defined.

(** An asterisk where an item should start. *)
Lemma read_item_bad_start_witness :
  let c := svn_ra_svn_create_conn small_env
             (socket_with (bytes_of " *a ") [] []) in
  exists c',
    svn_ra_svn_read_item small_env 4 c
    = (Err (malformed small_env "Malformed network data"), c') /\
    pending c' = bytes_of "a ".
Proof.
  apply (read_item_bad_start small_env eq_refl eq_refl _ [32] 42
           (bytes_of "a ") 4);
    conn_facts; simpl; lia.
Defined.

(** A word and a list that run into an asterisk. *)
Lemma word_and_list_need_whitespace_witness :
  let c := svn_ra_svn_create_conn small_env
             (socket_with (bytes_of "ab*x") [] []) in
  (forall a w,
     apr_isalpha a = true -> forallb is_word_char w = true ->
     is_word_char 42 = false ->
     pending c = a :: w ++ 42 :: bytes_of "x" ->
     len w + 2 <= Z.of_nat 16 ->
     exists c',
       svn_ra_svn_read_item small_env 16 c
       = (Err (malformed small_env "Malformed network data"), c') /\
       pending c' = bytes_of "x") /\
  (forall l,
     forallb item_ok l = true ->
     pending c
     = bytes_of "( " ++ flat_map wire l ++ ch ")" :: 42 :: bytes_of "x" ->
     len (flat_map wire l) + 5 <= Z.of_nat 16 ->
     exists c',
       svn_ra_svn_read_item small_env 16 c
       = (Err (malformed small_env "Malformed network data"), c') /\
       pending c' = bytes_of "x").
Proof.
  apply (word_and_list_need_whitespace small_env); conn_facts.
Defined.

(** The digits of 2^64 are read as the number 0. *)
Lemma read_number_wraps_witness :
  let c := svn_ra_svn_create_conn small_env
             (socket_with (bytes_of "18446744073709551616 x") [] []) in
  exists c',
    svn_ra_svn_read_item small_env 32 c = (Ok (NUMBER 0), c') /\
    pending c' = bytes_of "x".
Proof.
  apply (read_number_wraps small_env eq_refl eq_refl _ 49
           (bytes_of "8446744073709551616") 32 (bytes_of "x") 32);
    conn_facts.
Defined.

(** A list read as a tuple. *)
Lemma read_tuple_spec_witness :
  let c := svn_ra_svn_create_conn small_env
             (socket_with (bytes_of "( go 7 ) x") [IoXfer 3] []) in
  exists c',
    pending c' = bytes_of "x" /\
    svn_ra_svn_read_tuple small_env 16 (bytes_of "wn") c
    = (Ok [PCstr (bytes_of "go"); PNumber 7], c').
Proof.
  apply (read_tuple_spec small_env eq_refl eq_refl
           (LIST [WORD (bytes_of "go"); NUMBER 7]) _ (bytes_of "x")
           (bytes_of "wn") 16);
    conn_facts.
Defined.

(** A word and a revision, with an item to spare. *)
Lemma vparse_tuple_values_witness :
  [PCstr (bytes_of "go"); PRev 7]
  = tuple_values (c_str (bytes_of "wr"))
      [WORD (bytes_of "go"); NUMBER 7; LIST []].
Proof.
  apply (vparse_tuple_values usual_env). reflexivity.
Defined.

(** A tuple with a value of every kind. *)
Lemma tuple_roundtrip_witness :
  let ap := [ArgNumber 7; ArgRev 5; ArgString (Some (bytes_of "ab"));
             ArgCstr (Some (bytes_of "cd")); ArgCstr (Some (bytes_of "w"))] in
  let cw := svn_ra_svn_create_conn small_env
              (socket_with [] [] [IoXfer 1; IoXfer 2]) in
  let cr := svn_ra_svn_create_conn small_env
              (socket_with (bytes_of "( 7 5 2:ab 2:cd w ) next")
                           [IoXfer 2; IoXfer 1] []) in
  fst (svn_ra_svn_write_tuple small_env (bytes_of "nrscw") ap cw) = Ok tt /\
  exists cr',
    svn_ra_svn_read_tuple small_env 64 (bytes_of "nrscw") cr
    = (Ok [PNumber 7; PRev 5; PString (bytes_of "ab");
           PCstr (bytes_of "cd"); PCstr (bytes_of "w")], cr') /\
    pending cr' = bytes_of "next".
Proof.
  apply (tuple_roundtrip small_env eq_refl eq_refl (bytes_of "nrscw") _
           [NUMBER 7; NUMBER 5; STRING (bytes_of "ab");
            STRING (bytes_of "cd"); WORD (bytes_of "w")]);
    conn_facts.
Defined.

(** A command with a path and a revision. *)
Lemma command_roundtrip_witness :
  let ap := [ArgCstr (Some (bytes_of "trunk")); ArgRev 5] in
  let items := [STRING (bytes_of "trunk"); NUMBER 5] in
  let cw := svn_ra_svn_create_conn small_env
              (socket_with [] [] [IoXfer 1; IoXfer 2]) in
  let cr := svn_ra_svn_create_conn small_env
              (socket_with (bytes_of "( get-file ( 5:trunk 5 ) ) next")
                           [IoXfer 2; IoXfer 1] []) in
  fst (svn_ra_svn_write_cmd small_env (bytes_of "get-file") (bytes_of "cr")
         ap cw) = Ok tt /\
  exists cr',
    svn_ra_svn_read_tuple small_env 64 (bytes_of "wl") cr
    = (Ok [PCstr (bytes_of "get-file"); PList items], cr') /\
    pending cr' = bytes_of "next" /\
    svn_ra_svn_parse_tuple small_env items (bytes_of "cr")
    = Ok [PCstr (bytes_of "trunk"); PRev 5].
Proof.
  apply (command_roundtrip small_env); conn_facts.
Defined.

(** A success response that carries a number. *)
Lemma response_roundtrip_witness :
  let cw := svn_ra_svn_create_conn small_env
              (socket_with [] [] [IoXfer 1; IoXfer 2]) in
  let cr := svn_ra_svn_create_conn small_env
              (socket_with (bytes_of "( success ( 42 ) ) next")
                           [IoXfer 2; IoXfer 1] []) in
  fst (svn_ra_svn_write_cmd_response small_env (bytes_of "n") [ArgNumber 42]
         cw) = Ok tt /\
  exists cr',
    svn_ra_svn_read_cmd_response small_env 64 (bytes_of "n") cr
    = (Ok [PNumber 42], cr') /\
    pending cr' = bytes_of "next".
Proof.
  apply (response_roundtrip small_env eq_refl eq_refl (bytes_of "n") _
           [NUMBER 42]);
    conn_facts.
Defined.

(** A response whose status is neither success nor failure. *)
Lemma malformed_responses_witness :
  let c := svn_ra_svn_create_conn small_env
             (socket_with (bytes_of "( maybe ( ) ) x") [] []) in
  let status := bytes_of "maybe" in
  let params : list svn_ra_svn_item_t := [] in
  exists c',
    pending c' = bytes_of "x" /\
    (strcmp0 status (bytes_of "failure") = false ->
     svn_ra_svn_read_cmd_response small_env 32 [] c
     = (Err (svn_error_create small_env SVN_ERR_RA_SVN_MALFORMED_DATA 0 None
               (bytes_of "Unknown status '" ++ c_str status
                ++ bytes_of "' in command response")), c')) /\
    (strcmp0 status (bytes_of "failure") = true -> params = [] ->
     svn_ra_svn_read_cmd_response small_env 32 [] c
     = (Err (malformed small_env "Empty error list"), c')) /\
    (strcmp0 status (bytes_of "failure") = true ->
     forall x, In x params -> entry_ok x = false ->
     exists e,
       svn_ra_svn_read_cmd_response small_env 32 [] c = (Err e, c') /\
       apr_err e = SVN_ERR_RA_SVN_MALFORMED_DATA).
Proof.
  apply (malformed_responses small_env); conn_facts.
Defined.

(** The wrapper of a reported error has no message. *)
Lemma write_cmd_failure_needs_text_witness :
  fst (svn_ra_svn_write_cmd_failure small_env (Some reported_error)
         (svn_ra_svn_create_conn small_env (socket_with [] [] [])))
  = Crash AssertionFailed.
Proof.
  apply (write_cmd_failure_needs_text small_env); conn_facts.
Defined.

(** A command that the table does not have. *)
Lemma unknown_command_answered_witness :
  let c := svn_ra_svn_create_conn located_env
             (socket_with (bytes_of "( bogus ( ) ) ") [] []) in
  let c0 := snd (svn_ra_svn_read_tuple located_env 16 (bytes_of "wl") c) in
  let err := svn_error_create located_env SVN_ERR_RA_SVN_UNKNOWN_CMD 0 None
               (bytes_of "Unknown command bogus") in
  exists c1,
    written c0 c1 = wire (failure_response err) /\
    svn_ra_svn_handle_commands located_env 17
      (failing_table path_not_found) false c
    = svn_ra_svn_handle_commands located_env 16
        (failing_table path_not_found) false c1.
Proof.
  apply (unknown_command_answered located_env eq_refl 16
           [{| cmdname := Some (bytes_of "go");
               handler := fun _ => fail path_not_found;
               terminate := false |}]
           []
           {| cmdname := None; handler := fun _ => ret tt;
              terminate := false |}
           false _ _ (bytes_of "bogus") (bytes_of "marshal.c") []);
    conn_facts.
  eexists. split; reflexivity.
Defined.

(** Buffer readers on a connection that holds two bytes. *)
Lemma buffer_readers_come_back_witness :
  let c := broken_pipe_conn (bytes_of "ab") in
  comes_back small_env io_kind 1 c (readbuf_getchar small_env c) /\
  comes_back small_env io_kind 0 c (readbuf_read small_env 8 3 c) /\
  comes_back small_env io_kind 1 c
    (readbuf_getchar_skip_whitespace small_env 8 c).
Proof.
  apply (buffer_readers_come_back small_env); conn_facts.
Defined.

(** The error of a list that the peer does not finish. *)
Lemma reader_error_codes_witness :
  read_kind
    (svn_error_create small_env SVN_ERR_RA_SVN_CONNECTION_CLOSED 0 None
       (bytes_of "Connection closed unexpectedly")).
Proof.
  apply (proj1 (reader_error_codes small_env 16 [])
           (broken_pipe_conn (bytes_of "( a b"))).
  vm_compute. reflexivity.
Defined.

(** A new connection on a socket that holds five bytes. *)
Lemma new_connection_witness :
  let s := socket_with (bytes_of "hello") [] [] in
  buffers_ok small_env (svn_ra_svn_create_conn small_env s) /\
  pending (svn_ra_svn_create_conn small_env s) = bytes_of "hello" /\
  sent (svn_ra_svn_create_conn small_env s) = [].
Proof.
  apply (new_connection small_env); conn_facts.
Defined.

(** The command that ends the loop. *)
Lemma command_dispatch_witness :
  let c := svn_ra_svn_create_conn small_env
             (socket_with (bytes_of "( quit ( ) ) ( go ( ) ) ") [] []) in
  let c0 := snd (svn_ra_svn_read_tuple small_env 16 (bytes_of "wl") c) in
  svn_ra_svn_handle_commands small_env 17 quit_table false c = (Ok tt, c0).
Proof.
  intros c c0.
  apply (command_dispatch small_env 16
           [{| cmdname := Some (bytes_of "go"); handler := fun _ => ret tt;
               terminate := false |}]
           [{| cmdname := None; handler := fun _ => ret tt;
               terminate := false |}]
           {| cmdname := Some (bytes_of "quit"); handler := fun _ => ret tt;
              terminate := true |}
           false c c0 c0 (bytes_of "quit") (bytes_of "quit") []);
    conn_facts.
  eexists. split; reflexivity.
Defined.
